(** * CxO Council: router, deliberation engine, dispatcher and ingress

    A shallow embedding of the TypeScript sources
    [cloudflare/shared/prompts.ts], [cloudflare/shared/council.ts],
    [cloudflare/shared/llm-client.ts], [cloudflare/shared/types.ts],
    [cloudflare/workers/consumer/src/index.ts] and
    [cloudflare/workers/ingress/src/index.ts].

    Modelling conventions.
    - Text is [string]: a sequence of 8-bit characters, read as the
      characters U+0000 to U+00FF (Latin-1).  [toUpperCase] is the JavaScript
      case mapping on that alphabet: the letters a-z and the accented small
      letters U+00E0 to U+00FE (the division sign apart) go to their
      capitals, the sharp s (U+00DF) becomes the two letters SS, so a text
      can get longer.  The capitals of the micro sign (U+00B5) and of the y
      with diaeresis (U+00FF) lie outside the alphabet; the two characters
      stand for their own capitals, which no other character of the alphabet
      has.  Text with characters beyond U+00FF is not modelled.
    - The KV namespace and the R2 bucket are finite maps keyed by strings;
      stored objects are kept as values, not as their JSON text.  Operations
      on the stores do not fail.
    - Effectful code runs in a state-and-exception monad ([Eng]) over the
      state of a run; the external services (generation providers, webhook
      endpoints, the clock, the UUID source) are oracles.
    - The code is modelled twice.  In the sequential model ([Eng]) the
      async callbacks of one stage run one after the other in role order,
      each up to its outcome, and the order in which their promises settle
      is an explicit latency function given to [promise_all].  In the
      interleaved model ([Thread], [Async], [exec]) every [await] is a point
      at which another callback may run, a schedule chooses who runs next,
      and the callbacks still in flight when [Promise.all] rejects go on
      running. *)

From Stdlib Require Import String Ascii List ZArith Lia Bool QArith.
From stdpp Require Import base option list strings gmap.

Local Open Scope list_scope.

(** ** JavaScript string operations *)

Module JsString.

Definition newline : ascii := ascii_of_nat 10.
Definition nl : string := String newline "".

(** The capital of a character that has a one-character capital. *)
Definition upper_char (c : ascii) : ascii :=
  let n := nat_of_ascii c in
  if (97 <=? n)%nat && (n <=? 122)%nat then ascii_of_nat (n - 32)
  else if (224 <=? n)%nat && (n <=? 254)%nat && negb (n =? 247)%nat
       then ascii_of_nat (n - 32)
  else c.

(** The sharp s, which [toUpperCase] writes as two letters. *)
Definition sharp_s : ascii := ascii_of_nat 223.

(** [String.prototype.toUpperCase] *)
Fixpoint toUpperCase (s : string) : string :=
  match s with
  | EmptyString => EmptyString
  | String c s' =>
      if Ascii.eqb c sharp_s then String "S" (String "S" (toUpperCase s'))
      else String (upper_char c) (toUpperCase s')
  end.

(** [s.startsWith(p)] *)
Fixpoint startsWith (s p : string) {struct p} : bool :=
  match p, s with
  | EmptyString, _ => true
  | String _ _, EmptyString => false
  | String a p', String b s' => Ascii.eqb a b && startsWith s' p'
  end.

(** [s.includes(p)] *)
Fixpoint includes (s p : string) : bool :=
  startsWith s p ||
  match s with
  | EmptyString => false
  | String _ s' => includes s' p
  end.

(** [s.indexOf(p)]: the least position at which [p] occurs, or [-1]. *)
Fixpoint indexOf_from (s p : string) (i : Z) : Z :=
  if startsWith s p then i
  else match s with
       | EmptyString => (-1)%Z
       | String _ s' => indexOf_from s' p (i + 1)
       end.

Definition indexOf (s p : string) : Z := indexOf_from s p 0.

Fixpoint drop_chars (n : nat) (s : string) : string :=
  match n, s with
  | O, _ => s
  | S _, EmptyString => EmptyString
  | S n', String _ s' => drop_chars n' s'
  end.

Fixpoint take_chars (n : nat) (s : string) : string :=
  match n, s with
  | O, _ => EmptyString
  | S _, EmptyString => EmptyString
  | S n', String c s' => String c (take_chars n' s')
  end.

(** [s.substring(idx)]: a negative start counts as 0, a start past the end
    gives the empty string. *)
Definition substring_from (s : string) (idx : Z) : string :=
  drop_chars (Z.to_nat idx) s.

(** [s.split(sep)] for a one-character separator. *)
Fixpoint split (sep : ascii) (s : string) : list string :=
  match s with
  | EmptyString => [EmptyString]
  | String c s' =>
      if Ascii.eqb c sep then EmptyString :: split sep s'
      else match split sep s' with
           | l :: ls => String c l :: ls
           | [] => [String c EmptyString]
           end
  end.

(** [parts.join(sep)] *)
Fixpoint join (sep : string) (parts : list string) : string :=
  match parts with
  | [] => EmptyString
  | [x] => x
  | x :: rest => x +:+ sep +:+ join sep rest
  end.

(** [s || d] on strings: the empty string is falsy. *)
Definition or_else (s d : string) : string :=
  match s with
  | EmptyString => d
  | _ => s
  end.

(** The replacement text of [String.prototype.replace] with a string
    pattern (GetSubstitution without captures): [$$] is a dollar sign,
    [$&] the matched text, [$`] the text before the match, [$'] the text
    after it; any other character, a dollar sign included, stands for
    itself. *)
Fixpoint getSubstitution (matched before after repl : string) : string :=
  match repl with
  | EmptyString => EmptyString
  | String c rest =>
      if Ascii.eqb c "$"%char then
        match rest with
        | String d rest' =>
            if Ascii.eqb d "$"%char then
              String "$"%char (getSubstitution matched before after rest')
            else if Ascii.eqb d "&"%char then
              matched +:+ getSubstitution matched before after rest'
            else if Ascii.eqb d "`"%char then
              before +:+ getSubstitution matched before after rest'
            else if Ascii.eqb d "'"%char then
              after +:+ getSubstitution matched before after rest'
            else String c (getSubstitution matched before after rest)
        | EmptyString => String c EmptyString
        end
      else String c (getSubstitution matched before after rest)
  end.

(** [s.replace(pat, repl)] with a string pattern: only the first
    occurrence is replaced. *)
Definition replace (s pat repl : string) : string :=
  if includes s pat then
    let pos := Z.to_nat (indexOf s pat) in
    let before := take_chars pos s in
    let after := drop_chars (pos + String.length pat) s in
    before +:+ getSubstitution pat before after repl +:+ after
  else s.

End JsString.

Import JsString.

(** ** Shared types ([types.ts]) *)

Record StageResponse := mkStageResponse {
  role : string;
  response : string
}.

Inductive Role := CPO | CTO | COO | CISO.

#[global] Instance Role_eq_dec : EqDecision Role.
Proof. solve_decision. Defined.

Definition role_name (r : Role) : string :=
  match r with
  | CPO => "CPO"
  | CTO => "CTO"
  | COO => "COO"
  | CISO => "CISO"
  end.

Definition ROLES : list Role := [CPO; CTO; COO; CISO].

(** ** Directed-question router ([prompts.ts]) *)

Definition no_questions : string := "No questions directed to your role.".

Definition targetPatterns (targetRole : string) : list string :=
  [ "Question to " +:+ targetRole +:+ ":";
    "Question for " +:+ targetRole +:+ ":";
    "To " +:+ targetRole +:+ ":";
    "@" +:+ targetRole +:+ ":" ].

(** The innermost loop of [extractDirectedQuestions]: the patterns are tried
    in order and the first that occurs in the line pushes one question and
    breaks. *)
Fixpoint scan_patterns (resp : StageResponse) (line lineUpper : string)
    (patterns : list string) (questions : list string) : list string :=
  match patterns with
  | [] => questions
  | pattern :: rest =>
      if includes lineUpper (toUpperCase pattern) then
        let idx := indexOf lineUpper (toUpperCase pattern) in
        let question := substring_from line idx in
        questions ++ ["From " +:+ or_else (role resp) "Unknown" +:+ ": " +:+ question]
      else scan_patterns resp line lineUpper rest questions
  end.

Definition scan_lines (patterns : list string) (resp : StageResponse)
    (questions : list string) : list string :=
  let content := or_else (response resp) "" in
  let lines := split newline content in
  fold_left
    (fun qs line => scan_patterns resp line (toUpperCase line) patterns qs)
    lines questions.

Definition collect_questions (stage2Responses : list StageResponse)
    (targetRole : string) : list string :=
  fold_left (fun qs resp => scan_lines (targetPatterns targetRole) resp qs)
    stage2Responses [].

Definition extractDirectedQuestions (stage2Responses : list StageResponse)
    (targetRole : string) : string :=
  let questions := collect_questions stage2Responses targetRole in
  if (length questions =? 0)%nat then no_questions
  else join (nl +:+ nl) questions.

(** A JavaScript [Set<Role>] keeps insertion order; [add] of a member is a
    no-op. *)
Definition set_add (r : Role) (s : list Role) : list Role :=
  if decide (r ∈ s) then s else s ++ [r].

Definition addressPatterns (r : Role) : list string :=
  [ "QUESTION TO " +:+ role_name r;
    "QUESTION FOR " +:+ role_name r;
    "TO " +:+ role_name r +:+ ":";
    "@" +:+ role_name r ].

Definition getExecutivesWithQuestions (stage2Responses : list StageResponse)
    : list Role :=
  let allRoles := [CPO; CTO; COO; CISO] in
  fold_left
    (fun rolesWithQuestions resp =>
       let content := toUpperCase (or_else (response resp) "") in
       fold_left
         (fun set r =>
            if existsb (fun p => includes content p) (addressPatterns r)
            then set_add r set else set)
         allRoles rolesWithQuestions)
    stage2Responses [].

(** Formatting of stage records ([formatStage1Responses],
    [formatStage2Responses]). *)
Definition format_block (resp : StageResponse) : string :=
  "### " +:+ or_else (role resp) "Executive" +:+ nl
         +:+ or_else (response resp) "" +:+ nl.

Definition formatStage1Responses (responses : list StageResponse) : string :=
  join (nl +:+ "---" +:+ nl) (map format_block responses).

Definition formatStage2Responses (responses : list StageResponse) : string :=
  join nl (map format_block responses).

Record RoleInstructions := mkRoleInstructions {
  ri_CTO : string;
  ri_CPO : string;
  ri_COO : string;
  ri_CISO : string;
  ri_CEO : string
}.

Record Config := mkConfig {
  executive_model : string;
  ceo_model : string;
  operational_context : string;
  custom_role_instructions : RoleInstructions
}.

(** [config.custom_role_instructions[role]] *)
Definition instructions_for (ri : RoleInstructions) (r : Role) : string :=
  match r with
  | CPO => ri_CPO ri
  | CTO => ri_CTO ri
  | COO => ri_COO ri
  | CISO => ri_CISO ri
  end.

Record ReviewResult := mkReviewResult {
  stage1 : list StageResponse;
  stage2 : list StageResponse;
  stage3 : list StageResponse;
  synthesis : string
}.

Inductive Status := queued | processing | completed | failed.

#[global] Instance Status_eq_dec : EqDecision Status.
Proof. solve_decision. Defined.

Record Progress := mkProgress {
  stage : string;
  step : string
}.

Record JobStatus := mkJobStatus {
  job_id : string;               (* [id] *)
  status : Status;
  created_at : string;
  started_at : option string;
  completed_at : option string;
  failed_at : option string;
  error : option string;
  webhook_url : option string;
  progress : option Progress
}.

(** [Partial<JobStatus>]: a field is [None] when the key is absent. *)
Record PartialJobStatus := mkPartial {
  p_id : option string;
  p_status : option Status;
  p_created_at : option string;
  p_started_at : option string;
  p_completed_at : option string;
  p_failed_at : option string;
  p_error : option string;
  p_webhook_url : option string;
  p_progress : option Progress
}.

Definition no_extra : PartialJobStatus :=
  mkPartial None None None None None None None None None.

Record QueueMessage := mkQueueMessage {
  jobId : string;
  documentKey : string;
  configKey : string;
  webhookUrl : option string
}.

(** ** Outcomes of promises and the engine monad *)

Inductive Outcome (A : Type) :=
| Fulfilled (v : A)
| Rejected (message : string).

Arguments Fulfilled {A} v.
Arguments Rejected {A} message.

Definition is_fulfilled {A} (o : Outcome A) : bool :=
  match o with
  | Fulfilled _ => true
  | Rejected _ => false
  end.

(** One call of [LLMClient.query], tagged with the stage of its call site. *)
Record LlmCall := mkLlmCall {
  call_stage : nat;
  call_prompt : string;
  call_model : string;
  call_temperature : Q
}.

(** The state of a run: the state [S] the progress sink acts on, and the log
    of generation calls issued so far. *)
Record Run (S : Type) := mkRun {
  sink : S;
  calls : list LlmCall
}.

Arguments mkRun {S} sink calls.
Arguments sink {S} r.
Arguments calls {S} r.

Definition Eng (S A : Type) : Type := Run S → Run S * Outcome A.

Definition ret {S A} (a : A) : Eng S A := fun r => (r, Fulfilled a).

Definition throw {S A} (message : string) : Eng S A :=
  fun r => (r, Rejected message).

Definition bind {S A B} (m : Eng S A) (k : A → Eng S B) : Eng S B :=
  fun r =>
    match m r with
    | (r', Fulfilled a) => k a r'
    | (r', Rejected e) => (r', Rejected e)
    end.

Notation "'let!' x ':=' m 'in' k" := (bind m (fun x => k))
  (at level 10, x pattern, m at level 100, k at level 200).

Notation "m ';;' k" := (bind m (fun _ => k))
  (at level 100, k at level 200, right associativity).

(** [try { body } catch (error) { handler(error.message) }] *)
Definition try_catch {S A} (body : Eng S A) (handler : string → Eng S A)
    : Eng S A :=
  fun r =>
    match body r with
    | (r', Fulfilled a) => (r', Fulfilled a)
    | (r', Rejected e) => handler e r'
    end.

(** An operation on the sink state alone. *)
Definition on_sink {S A} (f : S → S * Outcome A) : Eng S A :=
  fun r => let '(s', o) := f (sink r) in (mkRun s' (calls r), o).

(** ** [Promise.all] *)

(** The order in which the promises settle: indices sorted by latency, the
    earlier index first among equals. *)
Fixpoint insert_by (lat : nat → nat) (i : nat) (l : list nat) : list nat :=
  match l with
  | [] => [i]
  | j :: l' =>
      if (lat i <=? lat j)%nat then i :: j :: l'
      else j :: insert_by lat i l'
  end.

Definition settle_order (lat : nat → nat) (n : nat) : list nat :=
  foldr (insert_by lat) [] (seq 0 n).

(** Promises settle one by one: a fulfilment stores its value at the index of
    its promise, the first rejection rejects the whole. *)
Fixpoint settle {A} (outs : list (Outcome A)) (order : list nat)
    (values : list (option A)) : Outcome (list (option A)) :=
  match order with
  | [] => Fulfilled values
  | i :: rest =>
      match outs !! i with
      | Some (Fulfilled v) => settle outs rest (<[i := Some v]> values)
      | Some (Rejected e) => Rejected e
      | None => settle outs rest values
      end
  end.

Definition promise_all {A} (lat : nat → nat) (outs : list (Outcome A))
    : Outcome (list A) :=
  match settle outs (settle_order lat (length outs))
          (replicate (length outs) None) with
  | Fulfilled values => Fulfilled (omap (fun v => v) values)
  | Rejected e => Rejected e
  end.

(** The async callbacks of one [map] start in list order; each runs to its
    outcome, a rejection stopping only its own callback. *)
Fixpoint run_all {S A} (tasks : list (Eng S A)) (r : Run S)
    : Run S * list (Outcome A) :=
  match tasks with
  | [] => (r, [])
  | t :: rest =>
      let '(r1, o) := t r in
      let '(r2, os) := run_all rest r1 in
      (r2, o :: os)
  end.

Definition await_all {S A} (lat : nat → nat) (tasks : list (Eng S A))
    : Eng S (list A) :=
  fun r => let '(r', outs) := run_all tasks r in (r', promise_all lat outs).

(** ** Prompt templates ([prompts.ts]) *)

Definition dq : string := String (ascii_of_nat 34) EmptyString.

Definition STAGE1_PROMPT : string :=
"{role_instructions}

{operational_context}

---

You are reviewing the following plan or specification:

{document_content}

---

Provide your {role} perspective on this plan. Focus on your domain expertise.

Structure your review:
1. **Domain Assessment**: Key observations from your perspective
2. **Strengths**: What's working well
3. **Concerns**: Issues or risks in your domain
4. **Questions**: What you need clarified (if any)
5. **Recommendations**: Specific suggestions

Be direct and actionable. Flag critical issues clearly.".

Definition STAGE2_PROMPT : string :=
"{role_instructions}

{operational_context}

You've seen initial reviews from the executive team:

{stage1_text}

---

Now identify cross-domain tensions and ask clarifying questions.

Your task:
1. Identify where your domain concerns may conflict with others
2. Note areas of implicit disagreement
3. Ask 1-3 specific questions to OTHER executives

Format your questions as:
" +:+ dq +:+ "Question to [ROLE]: [Your question]" +:+ dq +:+ "

Example:
" +:+ dq +:+ "Question to CTO: How does the proposed architecture handle the compliance requirements I flagged?" +:+ dq +:+ "

Be specific. Good questions surface hidden tensions.".

Definition STAGE3_PROMPT : string :=
"{role_instructions}

{operational_context}

Previous discussion:

{stage1_text}

---

Questions directed to you:

{directed_questions}

---

Respond to questions directed to your role. Be specific and actionable.

If a question reveals a genuine tension, acknowledge it rather than dismissing it.
If you need to defer to another executive, say so explicitly.".

Definition STAGE4_PROMPT : string :=
"You are the CEO synthesizing the executive team's deliberation.

{operational_context}

---

Original Plan:
{document_content}

---

Executive Reviews (Stage 1):
{stage1_text}

---

Cross-Domain Questions (Stage 2):
{stage2_text}

---

Responses (Stage 3):
{stage3_text}

---

Synthesize into an executive decision. Use this structure:

## Executive Decision
[Clear go/no-go/conditional-go with rationale]

## Key Consensus Points
[Where the team agreed]

## Unresolved Tensions
[Tradeoffs that remain - don't force false consensus]

## Action Items
[Concrete next steps with ownership]
- [ ] [Action] — Owner: [Role]

## Phase Gate Criteria
[What must be true before proceeding to next phase?]

## What Remains Unknown
[Honest acknowledgment of uncertainties]

Be decisive while honoring the complexity surfaced by your team.".

Definition no_responses : string := "No responses required.".

Definition stage1Prompt (config : Config) (documentContent : string)
    (r : Role) : string :=
  replace
    (replace
       (replace
          (replace STAGE1_PROMPT "{role}" (role_name r))
          "{role_instructions}"
          (instructions_for (custom_role_instructions config) r))
       "{operational_context}" (operational_context config))
    "{document_content}" documentContent.

Definition stage2Prompt (config : Config) (stage1Text : string) (r : Role)
    : string :=
  replace
    (replace
       (replace STAGE2_PROMPT "{role_instructions}"
          (instructions_for (custom_role_instructions config) r))
       "{operational_context}" (operational_context config))
    "{stage1_text}" stage1Text.

Definition stage3Prompt (config : Config) (stage1Text questions : string)
    (r : Role) : string :=
  replace
    (replace
       (replace
          (replace STAGE3_PROMPT "{role_instructions}"
             (instructions_for (custom_role_instructions config) r))
          "{operational_context}" (operational_context config))
       "{stage1_text}" stage1Text)
    "{directed_questions}" questions.

Definition synthesisPrompt (config : Config)
    (documentContent stage1Text stage2Text stage3Text : string) : string :=
  replace
    (replace
       (replace
          (replace
             (replace STAGE4_PROMPT "{operational_context}"
                (operational_context config))
             "{document_content}" documentContent)
          "{stage1_text}" stage1Text)
       "{stage2_text}" stage2Text)
    "{stage3_text}" stage3Text.

(** ** Generation client ([llm-client.ts]) and deliberation engine
    ([council.ts]) *)

Inductive Provider := OpenRouter | Anthropic | OpenAI.

(** What the HTTP exchange with a provider comes to. *)
Inductive ProviderReply :=
| Reply (content : string)
| ErrorStatus (status : string) (errorText : string)
| Thrown (message : string).

Definition provider_label (p : Provider) : string :=
  match p with
  | OpenRouter => "OpenRouter"
  | Anthropic => "Anthropic"
  | OpenAI => "OpenAI"
  end.

Section Engine.

(** The providers: the reply to the [n]-th generation call of the run
    state, sent to a provider with a model name, a prompt and a
    temperature. *)
Variable provider : nat → Provider → string → string → Q → ProviderReply.

(** The latency of the [i]-th promise of each stage's [Promise.all]. *)
Variable latency : nat → nat → nat.

(** The [fetch] of one call and what is made of the response: the content
    of the reply, or an error with the status and the body, or whatever
    the exchange throws. *)
Definition exchange (n : nat) (p : Provider) (modelName prompt : string)
    (temperature : Q) : Outcome string :=
  match provider n p modelName prompt temperature with
  | Reply content => Fulfilled content
  | ErrorStatus status errorText =>
      Rejected (provider_label p +:+ " API error (" +:+ status +:+ "): "
                +:+ errorText)
  | Thrown message => Rejected message
  end.

Definition queryOpenRouter (n : nat) (prompt model : string)
    (temperature : Q) : Outcome string :=
  let modelName := replace model "openrouter:" "" in
  exchange n OpenRouter modelName prompt temperature.

Definition queryAnthropic (n : nat) (prompt model : string)
    (temperature : Q) : Outcome string :=
  let modelName := replace model "anthropic:" "" in
  exchange n Anthropic modelName prompt temperature.

Definition queryOpenAI (n : nat) (prompt model : string)
    (temperature : Q) : Outcome string :=
  let modelName := replace model "openai:" "" in
  exchange n OpenAI modelName prompt temperature.

(** [LLMClient.query] as the [n]-th call. *)
Definition query (n : nat) (prompt model : string) (temperature : Q)
    : Outcome string :=
  if startsWith model "openrouter:" then
    queryOpenRouter n prompt model temperature
  else if startsWith model "anthropic:" then
    queryAnthropic n prompt model temperature
  else if startsWith model "openai:" then
    queryOpenAI n prompt model temperature
  else Rejected ("Unknown model provider: " +:+ model).

Context {S : Type}.

(** [this.llm.query(...)] from a call site of the given stage: the call is
    logged, its outcome is the providers'. *)
Definition llm_query (site : nat) (prompt model : string) (temperature : Q)
    : Eng S string :=
  fun r =>
    let n := length (calls r) in
    (mkRun (sink r) (calls r ++ [mkLlmCall site prompt model temperature]),
     query n prompt model temperature).

Definition ProgressCallback : Type := string → string → S → S * Outcome unit.

(** [if (progressCallback) await progressCallback(stage, step)] *)
Definition report (progressCallback : option ProgressCallback)
    (stage step : string) : Eng S unit :=
  match progressCallback with
  | Some cb => on_sink (cb stage step)
  | None => ret tt
  end.

(** The body of one async callback of a stage's [map]. *)
Definition ask (progressCallback : option ProgressCallback)
    (site : nat) (stageName : string) (model : string) (temperature : Q)
    (prompt : Role → string) (r : Role) : Eng S StageResponse :=
  report progressCallback stageName ("Querying " +:+ role_name r) ;;
  let! response := llm_query site (prompt r) model temperature in
  ret (mkStageResponse (role_name r) response).

Definition reviewDocument (config : Config) (documentContent : string)
    (progressCallback : option ProgressCallback) : Eng S ReviewResult :=
  (* Stage 1: independent reviews *)
  report progressCallback "stage1" "Starting independent reviews" ;;
  let! stage1Results :=
    await_all (latency 1)
      (map (ask progressCallback 1 "stage1" (executive_model config) 0.7
              (stage1Prompt config documentContent)) ROLES) in
  let stage1Text := formatStage1Responses stage1Results in
  (* Stage 2: questions *)
  report progressCallback "stage2" "Starting cross-domain questions" ;;
  let! stage2Results :=
    await_all (latency 2)
      (map (ask progressCallback 2 "stage2" (executive_model config) 0.6
              (stage2Prompt config stage1Text)) ROLES) in
  let stage2Text := formatStage2Responses stage2Results in
  (* Stage 3: responses *)
  let rolesWithQuestions := getExecutivesWithQuestions stage2Results in
  let! stage3Results :=
    if (0 <? length rolesWithQuestions)%nat then
      report progressCallback "stage3" "Starting question responses" ;;
      await_all (latency 3)
        (map (ask progressCallback 3 "stage3" (executive_model config) 0.7
                (fun r =>
                   stage3Prompt config stage1Text
                     (extractDirectedQuestions stage2Results (role_name r))
                     r))
             rolesWithQuestions)
    else
      report progressCallback "stage3" "No directed questions - skipping" ;;
      ret []
  in
  let stage3Text :=
    if (0 <? length stage3Results)%nat
    then formatStage2Responses stage3Results
    else no_responses in
  (* Stage 4: CEO synthesis *)
  report progressCallback "stage4" "Starting CEO synthesis" ;;
  let synthesisPrompt :=
    synthesisPrompt config documentContent stage1Text stage2Text stage3Text in
  let! synthesis := llm_query 4 synthesisPrompt (ceo_model config) 0.7 in
  report progressCallback "stage4" "Synthesis complete" ;;
  ret (mkReviewResult stage1Results stage2Results stage3Results synthesis).

End Engine.

(** ** The stores and the world of the workers *)

Inductive Blob :=
| DocumentBlob (text : string)
| ConfigBlob (config : Config)
| ResultBlob (result : ReviewResult).

Inductive Disposition := Ack | Retry.

Record WebhookPost := mkWebhookPost {
  wh_url : string;
  wh_job_id : string;
  wh_status : Status;
  wh_time : string;              (* [completed_at] or [failed_at] *)
  wh_error : option string;
  wh_result_url : option string
}.

Record World := mkWorld {
  JOBS : gmap string JobStatus;          (* KV namespace *)
  STORAGE : gmap string Blob;            (* R2 bucket *)
  REVIEW_QUEUE : list QueueMessage;      (* messages sent to the queue *)
  clock : nat;                           (* readings of the clock so far *)
  kv_history : list (string * JobStatus);(* every KV put, oldest first *)
  webhook_posts : list WebhookPost;      (* every webhook POST attempted *)
  dispositions : list (string * Disposition) (* ack / retry per message *)
}.

Definition empty_world : World := mkWorld ∅ ∅ [] 0 [] [] [].

Definition tick (w : World) : World :=
  mkWorld (JOBS w) (STORAGE w) (REVIEW_QUEUE w) (Datatypes.S (clock w))
    (kv_history w) (webhook_posts w) (dispositions w).

(** [kv.put(key, JSON.stringify(value), { expirationTtl })] *)
Definition kv_put (key : string) (value : JobStatus) (w : World) : World :=
  mkWorld (<[key := value]> (JOBS w)) (STORAGE w) (REVIEW_QUEUE w) (clock w)
    (kv_history w ++ [(key, value)]) (webhook_posts w) (dispositions w).

(** [STORAGE.put(key, body, ...)] *)
Definition r2_put (key : string) (body : Blob) (w : World) : World :=
  mkWorld (JOBS w) (<[key := body]> (STORAGE w)) (REVIEW_QUEUE w) (clock w)
    (kv_history w) (webhook_posts w) (dispositions w).

(** [REVIEW_QUEUE.send(message)] *)
Definition queue_send (message : QueueMessage) (w : World) : World :=
  mkWorld (JOBS w) (STORAGE w) (REVIEW_QUEUE w ++ [message]) (clock w)
    (kv_history w) (webhook_posts w) (dispositions w).

Definition record_post (p : WebhookPost) (w : World) : World :=
  mkWorld (JOBS w) (STORAGE w) (REVIEW_QUEUE w) (clock w)
    (kv_history w) (webhook_posts w ++ [p]) (dispositions w).

(** [message.ack()] and [message.retry()] *)
Definition dispose (jobId : string) (d : Disposition) (w : World) : World :=
  mkWorld (JOBS w) (STORAGE w) (REVIEW_QUEUE w) (clock w)
    (kv_history w) (webhook_posts w) (dispositions w ++ [(jobId, d)]).

Definition job_key (jobId : string) : string := "job:" +:+ jobId.
Definition document_key (jobId : string) : string :=
  "documents/" +:+ jobId +:+ ".md".
Definition config_key (jobId : string) : string :=
  "configs/" +:+ jobId +:+ ".json".
Definition result_key (jobId : string) : string :=
  "results/" +:+ jobId +:+ ".json".

(** [{ ...base, ...extra }] on one optional field. *)
Definition over {A} (new old : option A) : option A :=
  match new with
  | Some v => Some v
  | None => old
  end.

(** ** Queue consumer ([workers/consumer/src/index.ts]) *)

Section Consumer.

Variable provider : nat → Provider → string → string → Q → ProviderReply.
Variable latency : nat → nat → nat.

(** [new Date().toISOString()] at the [n]-th reading of the clock. *)
Variable toISOString : nat → string.

(** Whether the [n]-th webhook POST, sent to a URL, goes through. *)
Variable webhook_delivers : nat → string → bool.

(** The text of a stored JSON object. *)
Variable JSON_stringify : Blob → string.

(** The object literal of [updateJobStatus]:
    [{ ...existing, id: jobId, status,
       created_at: existing?.created_at || now, ...extra }]. *)
Definition merged_status (existing : option JobStatus) (jobId : string)
    (st : Status) (now : string) (extra : PartialJobStatus) : JobStatus :=
  mkJobStatus
    (default jobId (p_id extra))
    (default st (p_status extra))
    (default
       (match existing with
        | Some e => or_else (created_at e) now
        | None => now
        end)
       (p_created_at extra))
    (over (p_started_at extra) (existing ≫= started_at))
    (over (p_completed_at extra) (existing ≫= completed_at))
    (over (p_failed_at extra) (existing ≫= failed_at))
    (over (p_error extra) (existing ≫= error))
    (over (p_webhook_url extra) (existing ≫= webhook_url))
    (over (p_progress extra) (existing ≫= progress)).

(** Whether [existing?.created_at || ...] evaluates its right operand. *)
Definition needs_now (existing : option JobStatus) : bool :=
  match existing with
  | Some e => match created_at e with EmptyString => true | _ => false end
  | None => true
  end.

Definition updateJobStatus (jobId : string) (st : Status)
    (extra : PartialJobStatus) (w : World) : World :=
  let existing := JOBS w !! job_key jobId in
  let w1 := if needs_now existing then tick w else w in
  let updated :=
    merged_status existing jobId st (toISOString (clock w)) extra in
  kv_put (job_key jobId) updated w1.

Definition updateJobProgress (jobId stage step : string) (w : World)
    : World :=
  match JOBS w !! job_key jobId with
  | Some existing =>
      let updated :=
        mkJobStatus (job_id existing) (status existing)
          (created_at existing) (started_at existing)
          (completed_at existing) (failed_at existing) (error existing)
          (webhook_url existing) (Some (mkProgress stage step)) in
      kv_put (job_key jobId) updated w
  | None => w
  end.

Definition act (f : World → World) : Eng World unit :=
  on_sink (fun w => (f w, Fulfilled tt)).

Definition now : Eng World string :=
  on_sink (fun w => (tick w, Fulfilled (toISOString (clock w)))).

Definition r2_get (key : string) : Eng World (option Blob) :=
  on_sink (fun w => (w, Fulfilled (STORAGE w !! key))).

(** [documentObj.text()] *)
Definition blob_text (b : Blob) : string :=
  match b with
  | DocumentBlob text => text
  | other => JSON_stringify other
  end.

(** [configObj.json() as Config]; an object that does not hold a
    configuration makes the attempt fail. *)
Definition blob_config (b : Blob) : Eng World Config :=
  match b with
  | ConfigBlob config => ret config
  | _ => throw "Stored config is not a configuration object"
  end.

(** [fetch(webhookUrl, { method: 'POST', ... })] *)
Definition fetch_webhook (p : WebhookPost) : Eng World unit :=
  on_sink (fun w =>
    let n := length (webhook_posts w) in
    (record_post p w,
     if webhook_delivers n (wh_url p) then Fulfilled tt
     else Rejected "fetch failed")).

(** [if (webhookUrl)]: present and not the empty string. *)
Definition truthy (url : option string) : option string :=
  match url with
  | Some EmptyString => None
  | other => other
  end.

Definition notify_completed (jobId : string) (url : option string)
    : Eng World unit :=
  match truthy url with
  | Some u =>
      try_catch
        (let! at_ := now in
         fetch_webhook
           (mkWebhookPost u jobId completed at_ None
              (Some ("/api/result/" +:+ jobId))))
        (fun _ => ret tt)
  | None => ret tt
  end.

Definition notify_failed (jobId : string) (url : option string)
    (message : string) : Eng World unit :=
  match truthy url with
  | Some u =>
      try_catch
        (let! at_ := now in
         fetch_webhook (mkWebhookPost u jobId failed at_ (Some message) None))
        (fun _ => ret tt)
  | None => ret tt
  end.

Definition progressCallback (jobId : string)
    : string → string → World → World * Outcome unit :=
  fun stage step w => (updateJobProgress jobId stage step w, Fulfilled tt).

(** The [try] block of the loop body. *)
Definition attempt (message : QueueMessage) : Eng World unit :=
  let jobId := jobId message in
  let! startedAt := now in
  act (updateJobStatus jobId processing
         (mkPartial None None None (Some startedAt) None None None None
            None)) ;;
  let! documentObj := r2_get (documentKey message) in
  let! configObj := r2_get (configKey message) in
  match documentObj, configObj with
  | Some documentObj, Some configObj =>
      let documentText := blob_text documentObj in
      let! config := blob_config configObj in
      let! result :=
        reviewDocument provider latency config documentText
          (Some (progressCallback jobId)) in
      let! _ := now in
      act (r2_put (result_key jobId) (ResultBlob result)) ;;
      let! completedAt := now in
      act (updateJobStatus jobId completed
             (mkPartial None None None None (Some completedAt) None None
                None None)) ;;
      notify_completed jobId (webhookUrl message) ;;
      act (dispose jobId Ack)
  | _, _ =>
      throw ("Document or config not found for job " +:+ jobId)
  end.

(** The [catch (error)] block of the loop body, given [error.message]. *)
Definition on_failure (message : QueueMessage) (error_message : string)
    : Eng World unit :=
  let jobId := jobId message in
  let! failedAt := now in
  act (updateJobStatus jobId failed
         (mkPartial None None None None None (Some failedAt)
            (Some error_message) None None)) ;;
  notify_failed jobId (webhookUrl message) error_message ;;
  act (dispose jobId Retry).

(** The body of the [for (const message of batch.messages)] loop. *)
Definition process_message (message : QueueMessage) : Eng World unit :=
  try_catch (attempt message) (on_failure message).

(** [queue(batch, env)] *)
Fixpoint queue (batch : list QueueMessage) : Eng World unit :=
  match batch with
  | [] => ret tt
  | message :: rest => process_message message ;; queue rest
  end.

End Consumer.

(** ** Ingress ([workers/ingress/src/index.ts]) *)

#[local] Set Warnings "-register-all".

Inductive json :=
| JNull
| JBool (b : bool)
| JNumber (n : Z)
| JString (s : string)
| JArray (items : list json)
| JObject (members : list (string * json)).

(** [obj[key]]: of the members with this key (JSON.parse keeps the last). *)
Definition member (key : string) (members : list (string * json))
    : option json :=
  fold_left
    (fun found kv => if String.eqb (fst kv) key then Some (snd kv) else found)
    members None.

Record ZodIssue := mkIssue {
  issue_path : list string;
  issue_code : string
}.

Record ReviewRequest := mkReviewRequest {
  document : string;
  config : Config;
  request_webhook_url : option string   (* [webhook_url] *)
}.

Inductive Response :=
| Accepted (job_id status created_at status_url result_url : string)
| InvalidRequest (details : list ZodIssue)
| InternalServerError (message : string).

Definition http_status (r : Response) : nat :=
  match r with
  | Accepted _ _ _ _ _ => 202
  | InvalidRequest _ => 400
  | InternalServerError _ => 500
  end.

Definition Parsed (A : Type) : Type := list ZodIssue + A.

(** Zod reports the issues of every field of an object. *)
Definition both {A B} (a : Parsed A) (b : Parsed B) : Parsed (A * B) :=
  match a, b with
  | inr x, inr y => inr (x, y)
  | inl e, inr _ => inl e
  | inr _, inl e => inl e
  | inl e1, inl e2 => inl (e1 ++ e2)
  end.

Definition pmap {A B} (f : A → B) (a : Parsed A) : Parsed B :=
  match a with
  | inr x => inr (f x)
  | inl e => inl e
  end.

(** [z.string()] *)
Definition z_string (path : list string) (v : option json) : Parsed string :=
  match v with
  | Some (JString s) => inr s
  | _ => inl [mkIssue path "invalid_type"]
  end.

(** [z.string().min(lo).max(hi)] *)
Definition z_string_min_max (lo hi : Z) (path : list string)
    (v : option json) : Parsed string :=
  match z_string path v with
  | inr s =>
      let len := Z.of_nat (String.length s) in
      let small := if (len <? lo)%Z then [mkIssue path "too_small"] else [] in
      let big := if (hi <? len)%Z then [mkIssue path "too_big"] else [] in
      match small ++ big with
      | [] => inr s
      | issues => inl issues
      end
  | inl e => inl e
  end.

(** [z.object({...})] reads the members of an object. *)
Definition z_object {A} (path : list string)
    (shape : list (string * json) → Parsed A) (v : option json) : Parsed A :=
  match v with
  | Some (JObject members) => shape members
  | _ => inl [mkIssue path "invalid_type"]
  end.

Definition roleInstructionsSchema (path : list string)
    : option json → Parsed RoleInstructions :=
  z_object path (fun m =>
    pmap (fun '(cto, (cpo, (coo, (ciso, ceo)))) =>
            mkRoleInstructions cto cpo coo ciso ceo)
      (both (z_string (path ++ ["CTO"]) (member "CTO" m))
      (both (z_string (path ++ ["CPO"]) (member "CPO" m))
      (both (z_string (path ++ ["COO"]) (member "COO" m))
      (both (z_string (path ++ ["CISO"]) (member "CISO" m))
            (z_string (path ++ ["CEO"]) (member "CEO" m))))))).

Definition configSchema (path : list string) : option json → Parsed Config :=
  z_object path (fun m =>
    pmap (fun '(em, (cm, (oc, ri))) => mkConfig em cm oc ri)
      (both (z_string (path ++ ["executive_model"]) (member "executive_model" m))
      (both (z_string (path ++ ["ceo_model"]) (member "ceo_model" m))
      (both (z_string (path ++ ["operational_context"])
               (member "operational_context" m))
            (roleInstructionsSchema (path ++ ["custom_role_instructions"])
               (member "custom_role_instructions" m)))))).

Section Ingress.

(** Zod's URL check ([new URL(s)] succeeds). *)
Variable is_url : string → bool.

Variable toISOString : nat → string.

(** [z.string().url().optional()] *)
Definition z_optional_url (path : list string) (v : option json)
    : Parsed (option string) :=
  match v with
  | None => inr None
  | Some _ =>
      match z_string path v with
      | inr s =>
          if is_url s then inr (Some s)
          else inl [mkIssue path "invalid_string"]
      | inl e => inl e
      end
  end.

Definition reviewRequestSchema (body : json) : Parsed ReviewRequest :=
  z_object [] (fun m =>
    pmap (fun '(d, (c, u)) => mkReviewRequest d c u)
      (both (z_string_min_max 1 100000 ["document"] (member "document" m))
      (both (configSchema ["config"] (member "config" m))
            (z_optional_url ["webhook_url"] (member "webhook_url" m)))))
    (Some body).

(** [POST /api/review].  [body] is what [c.req.json()] gives (or the
    message it throws with); [uuid] is what [crypto.randomUUID()] gives. *)
Definition post_review (body : string + json) (uuid : string) (w : World)
    : World * Response :=
  match body with
  | inl message => (w, InternalServerError message)
  | inr body =>
      match reviewRequestSchema body with
      | inl issues => (w, InvalidRequest issues)
      | inr validated =>
          let jobId := uuid in
          let timestamp := toISOString (clock w) in
          let w := tick w in
          let w := r2_put (document_key jobId)
                     (DocumentBlob (document validated)) w in
          let w := r2_put (config_key jobId)
                     (ConfigBlob (config validated)) w in
          let jobStatus :=
            mkJobStatus jobId queued timestamp None None None None
              (request_webhook_url validated) None in
          let w := kv_put (job_key jobId) jobStatus w in
          let message :=
            mkQueueMessage jobId (document_key jobId) (config_key jobId)
              (request_webhook_url validated) in
          let w := queue_send message w in
          (w, Accepted jobId "queued" timestamp
                ("/api/status/" +:+ jobId) ("/api/result/" +:+ jobId))
      end
  end.

End Ingress.

(** * Vocabulary of the statements *)

(** ** The router, declaratively *)

(** The author a question is attributed to. *)
Definition author (resp : StageResponse) : string :=
  or_else (role resp) "Unknown".

(** The first pattern, in list order, that occurs in an upper-cased line. *)
Definition first_match (lineUpper : string) (patterns : list string)
    : option string :=
  find (fun p => includes lineUpper (toUpperCase p)) patterns.

(** What one line contributes: nothing, or one attributed question, cut
    from the line at the position at which the first matching pattern first
    occurs in the upper-cased line. *)
Definition render_line (resp : StageResponse) (patterns : list string)
    (line : string) : option string :=
  match first_match (toUpperCase line) patterns with
  | Some p =>
      Some ("From " +:+ author resp +:+ ": "
            +:+ substring_from line
                  (indexOf (toUpperCase line) (toUpperCase p)))
  | None => None
  end.

Definition captured_questions (records : list StageResponse)
    (targetRole : string) : list string :=
  flat_map
    (fun resp =>
       omap (render_line resp (targetPatterns targetRole))
         (split newline (response resp)))
    records.

(** A record addresses a role when its upper-cased text contains one of the
    role's addressing patterns. *)
Definition addresses (resp : StageResponse) (r : Role) : bool :=
  existsb (includes (toUpperCase (response resp))) (addressPatterns r).

(** The inner loop of [getExecutivesWithQuestions]: the roles a record
    addresses are added to the set. *)
Definition add_addressed (resp : StageResponse) (roles set : list Role)
    : list Role :=
  fold_left
    (fun set r =>
       if existsb
            (fun p => includes (toUpperCase (or_else (response resp) "")) p)
            (addressPatterns r)
       then set_add r set else set)
    roles set.

(** ** Vocabulary for runs of the engine *)

(** One invocation of the progress callback on the sink state. *)
Definition callback_step {S} (cb : option (string → string → S → S * Outcome unit))
    (s s' : S) : Prop :=
  ∃ f stage step, cb = Some f ∧ s' = (f stage step s).1.

(** The progress callback rejects with message [e] somewhere. *)
Definition callback_rejects {S}
    (cb : option (string → string → S → S * Outcome unit)) (e : string)
    : Prop :=
  ∃ f stage step s, cb = Some f ∧ (f stage step s).2 = Rejected e.

(** The outcome of a logged call that was the [n]-th call of the run
    state. *)
Definition call_outcome
    (provider : nat → Provider → string → string → Q → ProviderReply)
    (n : nat) (c : LlmCall) : Outcome string :=
  query provider n (call_prompt c) (call_model c) (call_temperature c).

(** The calls [new], logged from position [base] on, were all fulfilled. *)
Definition calls_fulfilled
    (provider : nat → Provider → string → string → Q → ProviderReply)
    (base : nat) (new : list LlmCall) : Prop :=
  ∀ i c, new !! i = Some c →
         is_fulfilled (call_outcome provider (base + i) c) = true.

(** One of the calls [new], logged from position [base] on, was rejected
    with message [e]. *)
Definition call_rejects
    (provider : nat → Provider → string → string → Q → ProviderReply)
    (base : nat) (new : list LlmCall) (e : string) : Prop :=
  ∃ i c, new !! i = Some c ∧ call_outcome provider (base + i) c = Rejected e.

(** A call made from the call site of a stage with that stage's model and
    temperature. *)
Definition stage_call (site : nat) (model : string) (temperature : Q)
    (c : LlmCall) : Prop :=
  call_stage c = site ∧ call_model c = model ∧ call_temperature c = temperature.

(** The model and temperature each stage is to use. *)
Definition call_conforms (config : Config) (c : LlmCall) : Prop :=
  stage_call 1 (executive_model config) 0.7 c ∨
  stage_call 2 (executive_model config) 0.6 c ∨
  stage_call 3 (executive_model config) 0.7 c ∨
  stage_call 4 (ceo_model config) 0.7 c.

(** The text put in place of [{stage3_text}]. *)
Definition stage3Text (stage3Results : list StageResponse) : string :=
  if (0 <? length stage3Results)%nat
  then formatStage2Responses stage3Results
  else no_responses.

(** The stage-4 call of a run with the given result. *)
Definition synthesis_call (config : Config) (documentContent : string)
    (res : ReviewResult) : LlmCall :=
  mkLlmCall 4
    (synthesisPrompt config documentContent
       (formatStage1Responses (stage1 res))
       (formatStage2Responses (stage2 res))
       (stage3Text (stage3 res)))
    (ceo_model config) 0.7.

(** The effect of a piece of a run: calls appended to the log, the sink
    moved by progress callbacks only. *)
Definition effect {S} (cb : option (string → string → S → S * Outcome unit))
    (r r' : Run S) (new : list LlmCall) : Prop :=
  calls r' = calls r ++ new ∧ rtc (callback_step cb) (sink r) (sink r').

(** What a run of [reviewDocument] does, in terms of its outcome. *)
Definition review_post
    (provider : nat → Provider → string → string → Q → ProviderReply)
    {S} (config : Config) (documentContent : string)
    (cb : option (string → string → S → S * Outcome unit))
    (r r' : Run S) (o : Outcome ReviewResult) : Prop :=
  ∃ new,
    effect cb r r' new ∧
    Forall (call_conforms config) new ∧
    match o with
    | Fulfilled res =>
        role <$> stage1 res = role_name <$> ROLES ∧
        role <$> stage2 res = role_name <$> ROLES ∧
        role <$> stage3 res
          = role_name <$> getExecutivesWithQuestions (stage2 res) ∧
        calls_fulfilled provider (length (calls r)) new ∧
        new =
          ((fun role_ =>
              mkLlmCall 1 (stage1Prompt config documentContent role_)
                (executive_model config) 0.7) <$> ROLES)
          ++ ((fun role_ =>
                 mkLlmCall 2
                   (stage2Prompt config
                      (formatStage1Responses (stage1 res)) role_)
                   (executive_model config) 0.6) <$> ROLES)
          ++ ((fun role_ =>
                 mkLlmCall 3
                   (stage3Prompt config
                      (formatStage1Responses (stage1 res))
                      (extractDirectedQuestions (stage2 res)
                         (role_name role_))
                      role_)
                   (executive_model config) 0.7)
                <$> getExecutivesWithQuestions (stage2 res))
          ++ [synthesis_call config documentContent res]
    | Rejected e =>
        call_rejects provider (length (calls r)) new e
        ∨ callback_rejects cb e
    end.

(** ** Vocabulary for the status history *)

(** A KV put under a key of a record with a given status. *)
Definition put_of (key : string) (st : Status) (p : string * JobStatus)
    : Prop :=
  p.1 = key ∧ status p.2 = st.

(** While a job is being reviewed: since the world [w0] only records with
    status [st] were put, all under [key], the last of them is the current
    record, and the bucket, the queue dispositions, the webhook log and the
    clock are as they were in [w0]. *)
Definition reviewing (key : string) (st : Status) (w0 w : World) : Prop :=
  ∃ middle e,
    kv_history w = kv_history w0 ++ middle ∧
    Forall (put_of key st) middle ∧
    JOBS w !! key = Some e ∧ status e = st ∧
    STORAGE w = STORAGE w0 ∧
    dispositions w = dispositions w0 ∧
    webhook_posts w = webhook_posts w0 ∧
    clock w = clock w0.

(** The review of the stored document of a message, run with the stored
    configuration and the progress callback of the job from a state whose
    call log is that of [r], logged the calls [new] and was rejected with
    message [e]. *)
Definition review_rejected
    (provider : nat → Provider → string → string → Q → ProviderReply)
    (latency : nat → nat → nat) (JSON_stringify : Blob → string)
    (message : QueueMessage) (r : Run World) (new : list LlmCall)
    (e : string) : Prop :=
  ∃ documentObj config r1 r2,
    STORAGE (sink r) !! documentKey message = Some documentObj ∧
    STORAGE (sink r) !! configKey message = Some (ConfigBlob config) ∧
    calls r1 = calls r ∧ calls r2 = calls r ++ new ∧
    reviewDocument provider latency config
      (blob_text JSON_stringify documentObj)
      (Some (progressCallback (jobId message))) r1
    = (r2, Rejected e).

(** What the [try] block has done when it ends. *)
Definition attempt_post
    (provider : nat → Provider → string → string → Q → ProviderReply)
    (latency : nat → nat → nat) (JSON_stringify : Blob → string)
    (message : QueueMessage)
    (r r' : Run World) (o : Outcome unit) : Prop :=
  let key := job_key (jobId message) in
  ∃ first middle new,
    put_of key processing first ∧
    Forall (put_of key processing) middle ∧
    calls r' = calls r ++ new ∧
    match o with
    | Fulfilled _ =>
        ∃ last res,
          kv_history (sink r')
            = kv_history (sink r) ++ [first] ++ middle ++ [last] ∧
          put_of key completed last ∧
          JOBS (sink r') !! key = Some last.2 ∧
          calls_fulfilled provider (length (calls r)) new ∧
          STORAGE (sink r')
            = <[result_key (jobId message) := ResultBlob res]>
                (STORAGE (sink r)) ∧
          dispositions (sink r')
            = dispositions (sink r) ++ [(jobId message, Ack)]
    | Rejected e =>
        kv_history (sink r') = kv_history (sink r) ++ [first] ++ middle ∧
        (∃ u, JOBS (sink r') !! key = Some u ∧ status u = processing) ∧
        STORAGE (sink r') = STORAGE (sink r) ∧
        dispositions (sink r') = dispositions (sink r) ∧
        (new = [] ∨
         (call_rejects provider (length (calls r)) new e ∧
          review_rejected provider latency JSON_stringify message r new e))
    end.

(** One delivery of a message, from the first status write to the last. *)
Definition delivery_post
    (provider : nat → Provider → string → string → Q → ProviderReply)
    (latency : nat → nat → nat) (JSON_stringify : Blob → string)
    (message : QueueMessage)
    (r r' : Run World) : Prop :=
  let key := job_key (jobId message) in
  ∃ first middle last new,
    kv_history (sink r')
      = kv_history (sink r) ++ [first] ++ middle ++ [last] ∧
    put_of key processing first ∧
    Forall (put_of key processing) middle ∧
    last.1 = key ∧
    JOBS (sink r') !! key = Some last.2 ∧
    calls r' = calls r ++ new ∧
    ((status last.2 = completed ∧
      calls_fulfilled provider (length (calls r)) new ∧
      (∃ res, STORAGE (sink r')
              = <[result_key (jobId message) := ResultBlob res]>
                  (STORAGE (sink r))) ∧
      dispositions (sink r')
        = dispositions (sink r) ++ [(jobId message, Ack)])
     ∨
     (∃ e, status last.2 = failed ∧ error last.2 = Some e ∧
           is_Some (failed_at last.2) ∧
           STORAGE (sink r') = STORAGE (sink r) ∧
           dispositions (sink r')
             = dispositions (sink r) ++ [(jobId message, Retry)] ∧
           (new = [] ∨
            (call_rejects provider (length (calls r)) new e ∧
             review_rejected provider latency JSON_stringify message r new
               e)))).


(** ** Vocabulary for submissions *)

(** A field of the configuration is missing from the members of a request
    body. *)
Definition missing_config_field (members : list (string * json)) : Prop :=
  match member "config" members with
  | None => True
  | Some (JObject c) =>
      member "executive_model" c = None ∨
      member "ceo_model" c = None ∨
      member "operational_context" c = None ∨
      match member "custom_role_instructions" c with
      | None => True
      | Some (JObject ri) =>
          member "CTO" ri = None ∨ member "CPO" ri = None ∨
          member "COO" ri = None ∨ member "CISO" ri = None ∨
          member "CEO" ri = None
      | Some _ => False
      end
  | Some _ => False
  end.

(** The failures of validation a submission can have: an empty document, a
    document of more than 100000 characters, a missing configuration field,
    a malformed webhook URL. *)
Definition listed_failure (is_url : string → bool) (body : json) : Prop :=
  ∃ members, body = JObject members ∧
    (member "document" members = Some (JString "") ∨
     (∃ s, member "document" members = Some (JString s) ∧
           (100000 < Z.of_nat (String.length s))%Z) ∨
     missing_config_field members ∨
     (∃ u, member "webhook_url" members = Some (JString u) ∧
           is_url u = false)).

(** A parse that reports issues. *)
Definition rejected {A} (a : Parsed A) : bool :=
  match a with
  | inl _ => true
  | inr _ => false
  end.

(** ** Example data *)

Definition ex_clock (n : nat) : string := "2024-05-01T12:00:00.000Z".

Definition ex_is_url (s : string) : bool := startsWith s "https://".

Definition ex_stringify (b : Blob) : string := "{}".

Definition ex_webhooks (n : nat) (url : string) : bool := true.

(** The promises of a stage settle in reverse order of issue. *)
Definition ex_latency (site i : nat) : nat := 10 - i.

Definition provider_down (n : nat) (p : Provider) (modelName prompt : string)
    (temperature : Q) : ProviderReply :=
  ErrorStatus "503" "overloaded".

Definition provider_plain (n : nat) (p : Provider) (modelName prompt : string)
    (temperature : Q) : ProviderReply :=
  Reply "No concerns.".

(** The fifth call (the first of stage 2) asks two colleagues. *)
Definition provider_asking (n : nat) (p : Provider)
    (modelName prompt : string) (temperature : Q) : ProviderReply :=
  match n with
  | 4 => Reply ("Question to CTO: will this scale?" +:+ nl
                +:+ "@ciso: is the data encrypted?")
  | _ => Reply "No concerns."
  end.

Definition ex_config : Config :=
  mkConfig "openai:gpt-4o" "anthropic:claude" "A small company."
    (mkRoleInstructions "Be the CTO." "Be the CPO." "Be the COO."
       "Be the CISO." "Be the CEO.").

Definition ex_config_json : json :=
  JObject
    [("executive_model", JString "openai:gpt-4o");
     ("ceo_model", JString "anthropic:claude");
     ("operational_context", JString "A small company.");
     ("custom_role_instructions",
      JObject
        [("CTO", JString "Be the CTO."); ("CPO", JString "Be the CPO.");
         ("COO", JString "Be the COO."); ("CISO", JString "Be the CISO.");
         ("CEO", JString "Be the CEO.")])].

Definition ex_body : json :=
  JObject [("document", JString "Launch plan."); ("config", ex_config_json)].

Definition ex_empty_body : json :=
  JObject [("document", JString ""); ("config", ex_config_json)].

Definition ex_message : QueueMessage :=
  mkQueueMessage "job-1" (document_key "job-1") (config_key "job-1") None.

(** The world after the example submission. *)
Definition ex_submitted : World :=
  (post_review ex_is_url ex_clock (inr ex_body) "job-1" empty_world).1.

(** A first delivery while the providers are down, then a redelivery. *)
Definition ex_first_attempt : Run World :=
  (process_message provider_down ex_latency ex_clock ex_webhooks ex_stringify
     ex_message (mkRun ex_submitted [])).1.


(** A redelivery once the providers are back. *)
Definition ex_recovered : Run World :=
  (process_message provider_plain ex_latency ex_clock ex_webhooks ex_stringify
     ex_message ex_first_attempt).1.

(** A status record as a failed attempt leaves it, alone in the store. *)
Definition ex_failed_record : JobStatus :=
  mkJobStatus "job-1" failed "2024-05-01T12:00:00.000Z"
    (Some "2024-05-01T12:00:01.000Z") None (Some "2024-05-01T12:00:09.000Z")
    (Some "OpenAI API error (503): overloaded") None
    (Some (mkProgress "stage1" "Querying CISO")).

Definition ex_failed_world : World :=
  kv_put (job_key "job-1") ex_failed_record empty_world.

(** Runs of the engine alone, without a progress callback. *)
Definition ex_review (provider : nat → Provider → string → string → Q → ProviderReply)
    : Run unit * Outcome ReviewResult :=
  reviewDocument provider ex_latency ex_config "Launch plan." None
    (mkRun tt []).

Definition result_of (o : Outcome ReviewResult) : ReviewResult :=
  match o with
  | Fulfilled res => res
  | Rejected _ => mkReviewResult [] [] [] ""
  end.

(** ** Vocabulary for the prompts *)

(** Whether a character occurs in a text. *)
Fixpoint has_char (c : ascii) (s : string) : bool :=
  match s with
  | EmptyString => false
  | String d s' => Ascii.eqb d c || has_char c s'
  end.

(** A text with no dollar sign and no opening brace: in a replacement text
    [String.prototype.replace] reads a dollar sign as the start of a
    substitution pattern, and an opening brace may start a placeholder. *)
Definition plain (s : string) : bool :=
  negb (has_char "$" s) && negb (has_char "{" s).

Definition placeholder (name : string) : string := "{" +:+ name +:+ "}".

(** Simultaneous substitution.  The template is read from left to right;
    where the placeholder of a bound name starts, the text bound to the name
    is put in its place and reading goes on after the placeholder ([skip]
    counts the characters of it still to pass); the text put in is not read
    again. *)
Fixpoint fill_from (bindings : list (string * string)) (skip : nat)
    (template : string) : string :=
  match template with
  | EmptyString => EmptyString
  | String c rest =>
      match skip with
      | Datatypes.S k => fill_from bindings k rest
      | O =>
          match find (fun b => startsWith template (placeholder b.1))
                  bindings with
          | Some b => b.2 +:+ fill_from bindings (String.length b.1 + 1) rest
          | None => String c (fill_from bindings O rest)
          end
      end
  end.

Definition fill (bindings : list (string * string)) (template : string)
    : string :=
  fill_from bindings 0 template.

(** ** Vocabulary for the generation client and the progress reports *)

(** A model id that begins with one of the three provider prefixes. *)
Definition known_provider (model : string) : bool :=
  startsWith model "openrouter:" || startsWith model "anthropic:"
  || startsWith model "openai:".

(** The report made before a role is queried in a stage. *)
Definition querying (stageName : string) (r : Role) : string * string :=
  (stageName, "Querying " +:+ role_name r).

(** The reports of a successful run, in the order in which they are made
    when the callbacks of a stage run in role order; [addressed] is the set
    of roles with questions. *)
Definition reported_steps (addressed : list Role) : list (string * string) :=
  [("stage1", "Starting independent reviews")]
  ++ (querying "stage1" <$> ROLES)
  ++ [("stage2", "Starting cross-domain questions")]
  ++ (querying "stage2" <$> ROLES)
  ++ (if (0 <? length addressed)%nat
      then ("stage3", "Starting question responses")
             :: (querying "stage3" <$> addressed)
      else [("stage3", "No directed questions - skipping")])
  ++ [("stage4", "Starting CEO synthesis"); ("stage4", "Synthesis complete")].

(** One report, made to the progress callback [f] on the sink state. *)
Definition fire {S} (f : string → string → S → S * Outcome unit) (s : S)
    (report : string * string) : S :=
  (f report.1 report.2 s).1.

(** ** Vocabulary for deliveries *)

(** The world once a delivery has marked the job as processing. *)
Definition started (toISOString : nat → string) (message : QueueMessage)
    (w : World) : World :=
  updateJobStatus toISOString (jobId message) processing
    (mkPartial None None None (Some (toISOString (clock w))) None None None
       None None)
    (tick w).

(** What the rest of the [try] block does to the world in which the review
    has returned [result]: the result is stored, the job is marked
    completed, the webhook is called and the message acknowledged. *)
Definition finished (toISOString : nat → string)
    (webhook_delivers : nat → string → bool) (message : QueueMessage)
    (result : ReviewResult) (w : World) : World :=
  let jobId := jobId message in
  let w1 := r2_put (result_key jobId) (ResultBlob result) (tick w) in
  let w2 :=
    updateJobStatus toISOString jobId completed
      (mkPartial None None None None (Some (toISOString (clock w1))) None None
         None None)
      (tick w1) in
  dispose jobId Ack
    (sink (notify_completed toISOString webhook_delivers jobId
             (webhookUrl message) (mkRun w2 [])).1).

(** What the [catch] block does to the world. *)
Definition gave_up (toISOString : nat → string)
    (webhook_delivers : nat → string → bool) (message : QueueMessage)
    (error_message : string) (w : World) : World :=
  let jobId := jobId message in
  let w1 :=
    updateJobStatus toISOString jobId failed
      (mkPartial None None None None None (Some (toISOString (clock w)))
         (Some error_message) None None)
      (tick w) in
  dispose jobId Retry
    (sink (notify_failed toISOString webhook_delivers jobId
             (webhookUrl message) error_message (mkRun w1 [])).1).

(** Two status records that differ at most in their progress. *)
Definition same_but_progress (e e' : JobStatus) : Prop :=
  job_id e' = job_id e ∧ status e' = status e ∧
  created_at e' = created_at e ∧ started_at e' = started_at e ∧
  completed_at e' = completed_at e ∧ failed_at e' = failed_at e ∧
  error e' = error e ∧ webhook_url e' = webhook_url e.

(** The webhook call a delivery makes, if the message carries a URL. *)
Definition webhook_of (message : QueueMessage) (st : Status) (at_ : string)
    (error_message : option string) : list WebhookPost :=
  match truthy (webhookUrl message) with
  | Some u =>
      [mkWebhookPost u (jobId message) st at_ error_message
         (match st with
          | completed => Some ("/api/result/" +:+ jobId message)
          | _ => None
          end)]
  | None => []
  end.

(** ** The read and delete endpoints of the ingress
    ([workers/ingress/src/index.ts]) *)

(** [kv.delete(key)] and [STORAGE.delete(key)] *)
Definition kv_delete (key : string) (w : World) : World :=
  mkWorld (delete key (JOBS w)) (STORAGE w) (REVIEW_QUEUE w) (clock w)
    (kv_history w) (webhook_posts w) (dispositions w).

Definition r2_delete (key : string) (w : World) : World :=
  mkWorld (JOBS w) (delete key (STORAGE w)) (REVIEW_QUEUE w) (clock w)
    (kv_history w) (webhook_posts w) (dispositions w).

(** The responses of the four endpoints. *)
Inductive ApiResponse :=
| StatusBody (job : JobStatus)                          (* 200, the record *)
| ResultBody (job_id : string) (completed_at : option string)
    (result : ReviewResult)                             (* 200 *)
| SynthesisText (text : string)                         (* 200, markdown *)
| JobDeleted                                            (* 200 *)
| JobNotFound                                           (* 404 *)
| JobFailed (message : string) (job_status : JobStatus) (* 500 *)
| JobNotCompleted (status : Status)                     (* 400 *)
| ResultNotFound                                        (* 404 *)
| ServerError (message : string).                       (* 500 *)

Definition api_status (r : ApiResponse) : nat :=
  match r with
  | StatusBody _ | ResultBody _ _ _ | SynthesisText _ | JobDeleted => 200
  | JobNotCompleted _ => 400
  | JobNotFound | ResultNotFound => 404
  | JobFailed _ _ | ServerError _ => 500
  end.

(** [GET /api/status/:jobId] *)
Definition get_status (jobId : string) (w : World) : ApiResponse :=
  match JOBS w !! job_key jobId with
  | None => JobNotFound
  | Some jobData => StatusBody jobData
  end.

(** [jobData.error || 'Unknown error'] *)
Definition error_or_unknown (e : option string) : string :=
  match e with
  | Some message => or_else message "Unknown error"
  | None => "Unknown error"
  end.

(** [result.json()]: an object that does not hold a result makes the
    handler fail. *)
Definition blob_result (b : Blob) : Outcome ReviewResult :=
  match b with
  | ResultBlob result => Fulfilled result
  | _ => Rejected "Stored result is not a review result"
  end.

(** [GET /api/result/:jobId] *)
Definition get_result (jobId : string) (w : World) : ApiResponse :=
  match JOBS w !! job_key jobId with
  | None => JobNotFound
  | Some jobData =>
      if decide (status jobData = failed) then
        JobFailed (error_or_unknown (error jobData)) jobData
      else if decide (status jobData ≠ completed) then
        JobNotCompleted (status jobData)
      else
        match STORAGE w !! result_key jobId with
        | None => ResultNotFound
        | Some result =>
            match blob_result result with
            | Fulfilled resultData =>
                ResultBody jobId (completed_at jobData) resultData
            | Rejected message => ServerError message
            end
        end
  end.

(** [GET /api/result/:jobId/synthesis] *)
Definition get_synthesis (jobId : string) (w : World) : ApiResponse :=
  match JOBS w !! job_key jobId with
  | None => JobNotFound
  | Some jobData =>
      if decide (status jobData ≠ completed) then
        JobNotCompleted (status jobData)
      else
        match STORAGE w !! result_key jobId with
        | None => ResultNotFound
        | Some result =>
            match blob_result result with
            | Fulfilled resultData => SynthesisText (synthesis resultData)
            | Rejected message => ServerError message
            end
        end
  end.

(** [DELETE /api/job/:jobId] *)
Definition delete_job (jobId : string) (w : World) : World * ApiResponse :=
  let w := kv_delete (job_key jobId) w in
  let w := r2_delete (document_key jobId) w in
  let w := r2_delete (config_key jobId) w in
  let w := r2_delete (result_key jobId) w in
  (w, JobDeleted).

(** ** The request body of the client SDK ([submitReview]) *)

(** A configuration as [JSON.stringify] writes it. *)
Definition json_of_config (c : Config) : json :=
  JObject
    [("executive_model", JString (executive_model c));
     ("ceo_model", JString (ceo_model c));
     ("operational_context", JString (operational_context c));
     ("custom_role_instructions",
      JObject
        [("CTO", JString (ri_CTO (custom_role_instructions c)));
         ("CPO", JString (ri_CPO (custom_role_instructions c)));
         ("COO", JString (ri_COO (custom_role_instructions c)));
         ("CISO", JString (ri_CISO (custom_role_instructions c)));
         ("CEO", JString (ri_CEO (custom_role_instructions c)))])].

(** [JSON.stringify({ document, config, webhook_url: options.webhookUrl })]:
    a member whose value is [undefined] is left out. *)
Definition submit_body (document : string) (config : Config)
    (webhookUrl : option string) : json :=
  JObject
    ([("document", JString document); ("config", json_of_config config)]
     ++ match webhookUrl with
        | Some u => [("webhook_url", JString u)]
        | None => []
        end).

(** ** More example data *)

(** A configuration whose executive model id has no provider prefix. *)
Definition ex_config_unprefixed : Config :=
  mkConfig "gpt-4o" "anthropic:claude" "A small company."
    (mkRoleInstructions "Be the CTO." "Be the CPO." "Be the COO."
       "Be the CISO." "Be the CEO.").

(** A progress callback that keeps the reports it is given. *)
Definition ex_logger (stage step : string) (log : list (string * string))
    : list (string * string) * Outcome unit :=
  (log ++ [(stage, step)], Fulfilled tt).

Definition ex_logged_review
    : Run (list (string * string)) * Outcome ReviewResult :=
  reviewDocument provider_asking ex_latency ex_config "Launch plan."
    (Some ex_logger) (mkRun [] []).

(** A message with a webhook, for a job whose blobs are not stored. *)
Definition ex_lost_message : QueueMessage :=
  mkQueueMessage "job-9" (document_key "job-9") (config_key "job-9")
    (Some "https://example.com/hook").

(** The example job processed while the providers answer. *)
Definition ex_completed : Run World :=
  (process_message provider_asking ex_latency ex_clock ex_webhooks
     ex_stringify ex_message (mkRun ex_submitted [])).1.

(** ** Vocabulary for the calls of a run *)

(** The log of calls only grows. *)
Definition grows {S A} (m : Eng S A) : Prop :=
  ∀ r, ∃ new, calls (m r).1 = calls r ++ new.

(** ** A question after a sharp s *)

(** A stage-2 record of the CPO whose one line has a sharp s before the
    question. *)
Definition ex_sharp_s_line : string :=
  "Stra" +:+ String sharp_s "e first. Question to CTO: will this scale?".

Definition ex_sharp_s_record : StageResponse :=
  mkStageResponse "CPO" ex_sharp_s_line.

(** ** A document that holds a placeholder *)

(** A document that quotes the stage-3 placeholder of the synthesis
    prompt, and its review by providers that ask no question. *)
Definition ex_template_note : string :=
  "Prompt design note: {stage3_text} is where the answers go.".

Definition ex_template_review : Run unit * Outcome ReviewResult :=
  reviewDocument provider_plain ex_latency ex_config ex_template_note None
    (mkRun tt []).

(** The heading of the stage-3 section of the synthesis prompt, followed by
    a text. *)
Definition stage3_section (text : string) : string :=
  "Responses (Stage 3):" +:+ nl +:+ text.

(** ** The interleaved model: threads of async code and their schedules *)

(** A thread of async code: it has settled with an outcome; or it runs a
    piece of synchronous code and goes on with what that gives; or it waits
    at an [await] for an operation on the stores or a service, which takes
    effect when the thread is next scheduled, and goes on with its
    outcome. *)
Inductive Thread (A : Type) : Type :=
| Settled (o : Outcome A)
| Sync {X : Type} (f : Eng World X) (k : Outcome X → Thread A)
| Await {X : Type} (io : Eng World X) (k : Outcome X → Thread A).

Arguments Settled {A} o.
Arguments Sync {A X} f k.
Arguments Await {A X} io k.

(** The handler: it is done; or it runs a thread of its own and goes on
    with its outcome; or it waits in [await Promise.all(...)] for the async
    callbacks of a stage. *)
Inductive Async (A : Type) : Type :=
| Done (o : Outcome A)
| Do {X : Type} (t : Thread X) (k : Outcome X → Async A)
| All (tasks : list (Thread StageResponse))
      (k : Outcome (list StageResponse) → Async A).

Arguments Done {A} o.
Arguments Do {A X} t k.
Arguments All {A} tasks k.

(** [await io] and a piece of synchronous code, as threads. *)
Definition await {X} (io : Eng World X) : Thread X := Await io Settled.
Definition sync {X} (f : Eng World X) : Thread X := Sync f Settled.

(** Sequencing in a thread: a rejection ends the thread. *)
Fixpoint tbind {A B} (t : Thread A) (f : A → Thread B) : Thread B :=
  match t with
  | Settled (Fulfilled a) => f a
  | Settled (Rejected e) => Settled (Rejected e)
  | Sync g k => Sync g (fun o => tbind (k o) f)
  | Await io k => Await io (fun o => tbind (k o) f)
  end.

(** Sequencing in the handler. *)
Fixpoint abind {A B} (m : Async A) (f : A → Async B) : Async B :=
  match m with
  | Done (Fulfilled a) => f a
  | Done (Rejected e) => Done (Rejected e)
  | Do t k => Do t (fun o => abind (k o) f)
  | All tasks k => All tasks (fun o => abind (k o) f)
  end.

(** [try { body } catch (error) { handler(error.message) }] *)
Fixpoint atry {A} (body : Async A) (handler : string → Async A) : Async A :=
  match body with
  | Done (Fulfilled a) => Done (Fulfilled a)
  | Done (Rejected e) => handler e
  | Do t k => Do t (fun o => atry (k o) handler)
  | All tasks k => All tasks (fun o => atry (k o) handler)
  end.

(** The handler awaits a thread of its own, or all the callbacks of a
    stage. *)
Definition run {X} (t : Thread X) : Async X := Do t Done.
Definition all (tasks : list (Thread StageResponse))
    : Async (list StageResponse) := All tasks Done.

Notation "'let~' x ':=' t 'in' k" := (tbind t (fun x => k))
  (at level 10, x pattern, t at level 100, k at level 200).

Notation "'let*' x ':=' m 'in' k" := (abind m (fun x => k))
  (at level 10, x pattern, m at level 100, k at level 200).

(** [kv.get(key, 'json')] *)
Definition kv_get (key : string) : Eng World (option JobStatus) :=
  on_sink (fun w => (w, Fulfilled (JOBS w !! key))).

(** The code of the engine and of the consumer once more, with its
    [await]s. *)
Module Interleaved.

Section Code.

Variable provider : nat → Provider → string → string → Q → ProviderReply.
Variable toISOString : nat → string.
Variable webhook_delivers : nat → string → bool.
Variable JSON_stringify : Blob → string.

(** [updateJobStatus]: the record is read at one [await] and the merged
    record written at the next. *)
Definition updateJobStatus (jobId : string) (st : Status)
    (extra : PartialJobStatus) : Thread unit :=
  let~ existing := await (kv_get (job_key jobId)) in
  let~ updated :=
    sync (on_sink (fun w =>
            (if needs_now existing then tick w else w,
             Fulfilled
               (merged_status existing jobId st (toISOString (clock w))
                  extra)))) in
  await (act (kv_put (job_key jobId) updated)).

(** [updateJobProgress]: the record read at the first [await] is written
    back, with the new progress, at the second. *)
Definition updateJobProgress (jobId stage step : string) : Thread unit :=
  let~ existing := await (kv_get (job_key jobId)) in
  match existing with
  | Some existing =>
      let updated :=
        mkJobStatus (job_id existing) (status existing)
          (created_at existing) (started_at existing)
          (completed_at existing) (failed_at existing) (error existing)
          (webhook_url existing) (Some (mkProgress stage step)) in
      await (act (kv_put (job_key jobId) updated))
  | None => Settled (Fulfilled tt)
  end.

Definition ProgressCallback : Type := string → string → Thread unit.

Definition progressCallback (jobId : string) : ProgressCallback :=
  fun stage step => updateJobProgress jobId stage step.

(** [if (progressCallback) await progressCallback(stage, step)] *)
Definition report (progressCallback : option ProgressCallback)
    (stage step : string) : Thread unit :=
  match progressCallback with
  | Some cb => cb stage step
  | None => Settled (Fulfilled tt)
  end.

(** The body of one async callback of a stage's [map]. *)
Definition ask (progressCallback : option ProgressCallback)
    (site : nat) (stageName : string) (model : string) (temperature : Q)
    (prompt : Role → string) (r : Role) : Thread StageResponse :=
  let~ _ := report progressCallback stageName ("Querying " +:+ role_name r) in
  let~ response := await (llm_query provider site (prompt r) model temperature) in
  Settled (Fulfilled (mkStageResponse (role_name r) response)).

Definition reviewDocument (config : Config) (documentContent : string)
    (progressCallback : option ProgressCallback) : Async ReviewResult :=
  (* Stage 1: independent reviews *)
  let* _ :=
    run (report progressCallback "stage1" "Starting independent reviews") in
  let* stage1Results :=
    all (map (ask progressCallback 1 "stage1" (executive_model config) 0.7
                (stage1Prompt config documentContent)) ROLES) in
  let stage1Text := formatStage1Responses stage1Results in
  (* Stage 2: questions *)
  let* _ :=
    run (report progressCallback "stage2" "Starting cross-domain questions") in
  let* stage2Results :=
    all (map (ask progressCallback 2 "stage2" (executive_model config) 0.6
                (stage2Prompt config stage1Text)) ROLES) in
  let stage2Text := formatStage2Responses stage2Results in
  (* Stage 3: responses *)
  let rolesWithQuestions := getExecutivesWithQuestions stage2Results in
  let* stage3Results :=
    if (0 <? length rolesWithQuestions)%nat then
      let* _ :=
        run (report progressCallback "stage3" "Starting question responses") in
      all (map (ask progressCallback 3 "stage3" (executive_model config) 0.7
                  (fun r =>
                     stage3Prompt config stage1Text
                       (extractDirectedQuestions stage2Results (role_name r))
                       r))
               rolesWithQuestions)
    else
      let* _ :=
        run (report progressCallback "stage3"
               "No directed questions - skipping") in
      Done (Fulfilled [])
  in
  let stage3Text :=
    if (0 <? length stage3Results)%nat
    then formatStage2Responses stage3Results
    else no_responses in
  (* Stage 4: CEO synthesis *)
  let* _ := run (report progressCallback "stage4" "Starting CEO synthesis") in
  let synthesisPrompt :=
    synthesisPrompt config documentContent stage1Text stage2Text stage3Text in
  let* synthesis :=
    run (await (llm_query provider 4 synthesisPrompt (ceo_model config) 0.7)) in
  let* _ := run (report progressCallback "stage4" "Synthesis complete") in
  Done (Fulfilled
          (mkReviewResult stage1Results stage2Results stage3Results
             synthesis)).

Definition notify_completed (jobId : string) (url : option string)
    : Async unit :=
  match truthy url with
  | Some u =>
      atry
        (let* at_ := run (sync (now toISOString)) in
         run (await
                (fetch_webhook webhook_delivers
                   (mkWebhookPost u jobId completed at_ None
                      (Some ("/api/result/" +:+ jobId))))))
        (fun _ => Done (Fulfilled tt))
  | None => Done (Fulfilled tt)
  end.

Definition notify_failed (jobId : string) (url : option string)
    (message : string) : Async unit :=
  match truthy url with
  | Some u =>
      atry
        (let* at_ := run (sync (now toISOString)) in
         run (await
                (fetch_webhook webhook_delivers
                   (mkWebhookPost u jobId failed at_ (Some message) None))))
        (fun _ => Done (Fulfilled tt))
  | None => Done (Fulfilled tt)
  end.

(** The [try] block of the loop body. *)
Definition attempt (message : QueueMessage) : Async unit :=
  let jobId := jobId message in
  let* startedAt := run (sync (now toISOString)) in
  let* _ :=
    run (updateJobStatus jobId processing
           (mkPartial None None None (Some startedAt) None None None None
              None)) in
  let* documentObj := run (await (r2_get (documentKey message))) in
  let* configObj := run (await (r2_get (configKey message))) in
  match documentObj, configObj with
  | Some documentObj, Some configObj =>
      let documentText := blob_text JSON_stringify documentObj in
      let* config := run (sync (blob_config configObj)) in
      let* result :=
        reviewDocument config documentText (Some (progressCallback jobId)) in
      let* _ := run (sync (now toISOString)) in
      let* _ :=
        run (await (act (r2_put (result_key jobId) (ResultBlob result)))) in
      let* completedAt := run (sync (now toISOString)) in
      let* _ :=
        run (updateJobStatus jobId completed
               (mkPartial None None None None (Some completedAt) None None
                  None None)) in
      let* _ := notify_completed jobId (webhookUrl message) in
      run (sync (act (dispose jobId Ack)))
  | _, _ =>
      Done (Rejected ("Document or config not found for job " +:+ jobId))
  end.

(** The [catch (error)] block of the loop body, given [error.message]. *)
Definition on_failure (message : QueueMessage) (error_message : string)
    : Async unit :=
  let jobId := jobId message in
  let* failedAt := run (sync (now toISOString)) in
  let* _ :=
    run (updateJobStatus jobId failed
           (mkPartial None None None None None (Some failedAt)
              (Some error_message) None None)) in
  let* _ := notify_failed jobId (webhookUrl message) error_message in
  run (sync (act (dispose jobId Retry))).

(** The body of the [for (const message of batch.messages)] loop. *)
Definition process_message (message : QueueMessage) : Async unit :=
  atry (attempt message) (on_failure message).

End Code.

End Interleaved.

(** *** Schedules *)

(** Who runs next: the handler, the [i]-th callback of the stage the
    handler is waiting for, or the [i]-th of the callbacks that were still
    in flight when their [Promise.all] was rejected. *)
Inductive Choice :=
| Handler
| Callback (i : nat)
| Leftover (i : nat).

(** A handler in the middle of its run. *)
Record Running (A : Type) := mkRunning {
  state : Run World;
  main : Async A;
  leftovers : list (Thread StageResponse)
}.

Arguments mkRunning {A} state main leftovers.
Arguments state {A} _.
Arguments main {A} _.
Arguments leftovers {A} _.

(** A thread runs its synchronous code up to its next [await]. *)
Fixpoint advance {A} (t : Thread A) (r : Run World) : Run World * Thread A :=
  match t with
  | Sync f k => let '(r', o) := f r in advance (k o) r'
  | _ => (r, t)
  end.

(** The callbacks of a [map] start in list order. *)
Fixpoint start {A} (tasks : list (Thread A)) (r : Run World)
    : Run World * list (Thread A) :=
  match tasks with
  | [] => (r, [])
  | t :: rest =>
      let '(r1, t') := advance t r in
      let '(r2, rest') := start rest r1 in
      (r2, t' :: rest')
  end.

(** The first rejection among the promises, and the values when all are
    fulfilled. *)
Fixpoint rejection {A} (tasks : list (Thread A)) : option string :=
  match tasks with
  | [] => None
  | Settled (Rejected e) :: _ => Some e
  | _ :: rest => rejection rest
  end.

Fixpoint fulfilments {A} (tasks : list (Thread A)) : option (list A) :=
  match tasks with
  | [] => Some []
  | Settled (Fulfilled v) :: rest => cons v <$> fulfilments rest
  | _ :: _ => None
  end.

(** What [Promise.all] has settled to, if it has. *)
Definition all_settled {A} (tasks : list (Thread A))
    : option (Outcome (list A)) :=
  match rejection tasks with
  | Some e => Some (Rejected e)
  | None => Fulfilled <$> fulfilments tasks
  end.

Definition pending {A} (t : Thread A) : bool :=
  match t with
  | Settled _ => false
  | _ => true
  end.

(** The handler runs up to its next [await].  At a [Promise.all] the
    callbacks are started; once all are fulfilled, or one is rejected, the
    handler goes on, and the callbacks then still pending are left to
    themselves. *)
Fixpoint resume {A} (m : Async A) (r : Run World)
    : Run World * Async A * list (Thread StageResponse) :=
  match m with
  | Done o => (r, Done o, [])
  | Do t k =>
      let '(r', t') := advance t r in
      match t' with
      | Settled o => resume (k o) r'
      | _ => (r', Do t' k, [])
      end
  | All tasks k =>
      let '(r', tasks') := start tasks r in
      match all_settled tasks' with
      | Some o =>
          let '(r'', m', rest) := resume (k o) r' in
          (r'', m', List.filter pending tasks' ++ rest)
      | None => (r', All tasks' k, [])
      end
  end.

(** One step of a schedule: the operation the chosen thread is waiting for
    takes effect, and the thread runs on to its next [await].  A choice of a
    thread that is not waiting at an [await] changes nothing. *)
Definition play {A} (c : Running A) (choice : Choice) : Running A :=
  match choice with
  | Handler =>
      match main c with
      | Do (Await io k') k =>
          let '(r', o) := io (state c) in
          let '(r'', m', rest) := resume (Do (k' o) k) r' in
          mkRunning r'' m' (leftovers c ++ rest)
      | _ => c
      end
  | Callback i =>
      match main c with
      | All tasks k =>
          match tasks !! i with
          | Some (Await io k') =>
              let '(r', o) := io (state c) in
              let '(r'', m', rest) := resume (All (<[i := k' o]> tasks) k) r' in
              mkRunning r'' m' (leftovers c ++ rest)
          | _ => c
          end
      | _ => c
      end
  | Leftover i =>
      match leftovers c !! i with
      | Some (Await io k') =>
          let '(r', o) := io (state c) in
          let '(r'', t') := advance (k' o) r' in
          mkRunning r'' (main c) (<[i := t']> (leftovers c))
      | _ => c
      end
  end.

(** The handler enters, and a schedule is played. *)
Definition enter {A} (m : Async A) (r : Run World) : Running A :=
  let '(r', m', rest) := resume m r in mkRunning r' m' rest.

Definition exec {A} (c : Running A) (schedule : list Choice) : Running A :=
  foldl play c schedule.



(** *** A delivery in which a late progress write undoes the failure *)




(** *** Threads at an [await] *)







(** *** Reasoning about every schedule

    A handler is in one of two modes.  As long as nothing was rejected it
    runs alone between the stages, and the callbacks of a stage run while it
    waits for them.  Once a [Promise.all] was rejected, the callbacks left
    in flight run on beside it.  The predicates below say, by recursion on
    the code, what the steps of a callback ([callback_ok]) and of the
    handler in the two modes ([holds], [survives]) do, whatever the state
    in which they are scheduled. *)

(** An invariant of the state; what any step may do to the state ([going]),
    and what a step of a callback may do ([beside]); [on_record e r]: a
    rejection with message [e] is on record in [r]. *)
Class Conditions := {
  invariant : Run World → Prop;
  going : Run World → Run World → Prop;
  beside : Run World → Run World → Prop;
  on_record : string → Run World → Prop
}.

Section Logic.

Context `{conditions : Conditions}.

Definition spoiled (r : Run World) : Prop := ∃ e, on_record e r.

(** A thread that is rejected once its synchronous code has run. *)
Fixpoint rejects {A} (t : Thread A) : Prop :=
  match t with
  | Settled (Rejected _) => True
  | Settled (Fulfilled _) => False
  | Sync f k => ∀ r, rejects (k (f r).2)
  | Await _ _ => False
  end.

(** A callback started in [r0]: each of its steps, in whatever later state
    it is scheduled, keeps the invariant and does what a callback may do;
    a step that puts the first rejection on record rejects the callback;
    and a rejected callback has its rejection on record. *)
Fixpoint callback_ok {A} (t : Thread A) (r0 : Run World) : Prop :=
  match t with
  | Settled o => ∀ e, o = Rejected e → on_record e r0
  | Sync f k =>
      ∀ r, going r0 r → invariant r →
        beside r (f r).1 ∧ invariant (f r).1 ∧
        (¬ spoiled r → ¬ spoiled (f r).1) ∧
        callback_ok (k (f r).2) (f r).1
  | Await io k =>
      ∀ r, going r0 r → invariant r →
        beside r (io r).1 ∧ invariant (io r).1 ∧
        (¬ spoiled r → ¬ spoiled (io r).1 ∨ rejects (k (io r).2)) ∧
        callback_ok (k (io r).2) (io r).1
  end.

Definition callbacks_ok {A} (tasks : list (Thread A)) (r0 : Run World)
    : Prop :=
  fold_right (fun t P => callback_ok t r0 ∧ P) True tasks.

(** A thread of the handler while callbacks run beside it: each step keeps
    the invariant, in whatever state the callbacks have left, and when the
    thread settles [P] holds. *)
Fixpoint thread_survives {X} (t : Thread X)
    (P : Outcome X → Run World → Prop) (r0 : Run World) : Prop :=
  match t with
  | Settled o => P o r0
  | Sync f k =>
      ∀ r, beside r0 r → invariant r →
        going r (f r).1 ∧ invariant (f r).1 ∧ thread_survives (k (f r).2) P (f r).1
  | Await io k =>
      ∀ r, beside r0 r → invariant r →
        going r (io r).1 ∧ invariant (io r).1 ∧
        thread_survives (k (io r).2) P (io r).1
  end.

(** The handler while callbacks run beside it: when it is done, [Q] holds
    and goes on holding. *)
Fixpoint survives {A} (m : Async A) (Q : Run World → Outcome A → Prop)
    (r0 : Run World) : Prop :=
  match m with
  | Done o => ∀ r, beside r0 r → invariant r → Q r o
  | Do t k => thread_survives t (fun o r => survives (k o) Q r) r0
  | All tasks k =>
      callbacks_ok tasks r0 ∧
      ∀ o r, beside r0 r → invariant r → survives (k o) Q r
  end.

(** A thread of the handler running alone.  A step that puts a rejection on
    record takes the handler to the other mode ([F]). *)
Fixpoint thread_holds {X} (t : Thread X)
    (P : Outcome X → Run World → Prop) (F : Thread X → Run World → Prop)
    (r : Run World) : Prop :=
  match t with
  | Settled o => P o r
  | Sync f k =>
      going r (f r).1 ∧ invariant (f r).1 ∧ ¬ spoiled (f r).1 ∧
      thread_holds (k (f r).2) P F (f r).1
  | Await io k =>
      going r (io r).1 ∧ invariant (io r).1 ∧
      ((spoiled (io r).1 ∧ F (k (io r).2) (io r).1)
       ∨ (¬ spoiled (io r).1 ∧ thread_holds (k (io r).2) P F (io r).1))
  end.

(** The handler running alone, with nothing rejected so far: when it is
    done, [Q] holds; at a [Promise.all] the callbacks are in order, and the
    handler goes on alone if they are all fulfilled and beside the others if
    one is rejected, then to end with [Q']. *)
Fixpoint holds {A} (m : Async A) (Q Q' : Run World → Outcome A → Prop)
    (r : Run World) : Prop :=
  match m with
  | Done o => Q r o
  | Do t k =>
      thread_holds t (fun o r' => holds (k o) Q Q' r')
        (fun t' r' =>
           thread_survives t' (fun o r'' => survives (k o) Q' r'') r')
        r
  | All tasks k =>
      callbacks_ok tasks r ∧
      ∀ r', beside r r' → invariant r' →
        (∀ values, ¬ spoiled r' → holds (k (Fulfilled values)) Q Q' r') ∧
        (∀ e, on_record e r' → survives (k (Rejected e)) Q' r')
  end.

(** The two modes as one invariant of a running handler. *)
Definition in_order {A} (Q Q' : Run World → Outcome A → Prop)
    (c : Running A) : Prop :=
  invariant (state c) ∧
  ((¬ spoiled (state c) ∧ leftovers c = [] ∧ holds (main c) Q Q' (state c))
   ∨ (survives (main c) Q' (state c) ∧
      Forall (fun t => callback_ok t (state c)) (leftovers c))).

(** What a handler is left in when it has run up to its next [await]. *)
Definition resumed {A} (Q Q' : Run World → Outcome A → Prop) (r : Run World)
    (x : Run World * Async A * list (Thread StageResponse)) : Prop :=
  going r x.1.1 ∧ invariant x.1.1 ∧
  ((¬ spoiled x.1.1 ∧ x.2 = [] ∧ holds x.1.2 Q Q' x.1.1)
   ∨ (survives x.1.2 Q' x.1.1 ∧
      Forall (fun t => callback_ok t x.1.1) x.2)).

End Logic.

(** A handler that awaits no [Promise.all]. *)
Fixpoint no_stage {A} (m : Async A) : Prop :=
  match m with
  | Done _ => True
  | Do _ k => ∀ o, no_stage (k o)
  | All _ _ => False
  end.

(** *** The conditions of one delivery *)

(** A call logged at position [base] or later was rejected with message
    [e]. *)
Definition rejected_call
    (provider : nat → Provider → string → string → Q → ProviderReply)
    (base : nat) (e : string) (r : Run World) : Prop :=
  ∃ n c, base ≤ n ∧ calls r !! n = Some c
         ∧ call_outcome provider n c = Rejected e.

(** Every status record of the store has a creation time. *)
Definition stamped (w : World) : Prop :=
  ∀ k u, JOBS w !! k = Some u → created_at u ≠ "".

(** The first status write of a delivery that starts in the world [w0]. *)
Definition first_write (toISOString : nat → string) (message : QueueMessage)
    (w0 : World) : string * JobStatus :=
  (job_key (jobId message),
   merged_status (JOBS w0 !! job_key (jobId message)) (jobId message)
     processing (toISOString (Datatypes.S (clock w0)))
     (mkPartial None None None (Some (toISOString (clock w0))) None None
        None None None)).

(** The logs of calls and of status writes only grow. *)
Definition goes_on (r r' : Run World) : Prop :=
  calls r `prefix_of` calls r'
  ∧ kv_history (sink r) `prefix_of` kv_history (sink r').

(** What holds of the status writes throughout a delivery entered in [r0]:
    the logs have only grown;
    every write since is to the record of the job and never says [queued];
    once there is a write, the store holds a record of the job that does
    not say [queued]; the first write is [first_write]; and if time stamps
    are not empty, the records stay stamped. *)
Definition delivery_invariant (toISOString : nat → string)
    (message : QueueMessage) (r0 r : Run World) : Prop :=
  let key := job_key (jobId message) in
  let n0 := length (kv_history (sink r0)) in
  goes_on r0 r
  ∧ (∀ p, p ∈ drop n0 (kv_history (sink r)) →
        p.1 = key ∧ status p.2 ≠ queued)
  ∧ (n0 < length (kv_history (sink r)) →
     ∃ u, JOBS (sink r) !! key = Some u ∧ status u ≠ queued)
  ∧ (∀ p, kv_history (sink r) !! n0 = Some p →
          p = first_write toISOString message (sink r0))
  ∧ ((∀ n, toISOString n ≠ "") → stamped (sink r0) → stamped (sink r)).

(** What a callback does: it logs calls and writes the status record, and
    leaves the bucket, the settled messages and the webhook log alone. *)
Definition runs_beside (r r' : Run World) : Prop :=
  goes_on r r'
  ∧ STORAGE (sink r') = STORAGE (sink r)
  ∧ dispositions (sink r') = dispositions (sink r)
  ∧ webhook_posts (sink r') = webhook_posts (sink r).

Definition delivery_conditions
    (provider : nat → Provider → string → string → Q → ProviderReply)
    (toISOString : nat → string) (message : QueueMessage) (r0 : Run World)
    (alone : bool) : Conditions :=
  {| invariant := fun r =>
       delivery_invariant toISOString message r0 r
       ∧ (alone = true →
          ¬ ∃ e, rejected_call provider (length (calls r0)) e r);
     going := goes_on;
     beside := fun r r' => if alone then r' = r else runs_beside r r';
     on_record := rejected_call provider (length (calls r0)) |}.

(** The first status write has been made. *)
Definition begun (r0 r : Run World) : Prop :=
  length (kv_history (sink r0)) < length (kv_history (sink r)).

(** The bucket, the settled messages and the webhook log are as they were
    when the delivery was entered. *)
Definition untouched (r0 r : Run World) : Prop :=
  STORAGE (sink r) = STORAGE (sink r0)
  ∧ dispositions (sink r) = dispositions (sink r0)
  ∧ webhook_posts (sink r) = webhook_posts (sink r0).

(** A status record written since the delivery was entered. *)
Definition written (message : QueueMessage) (r0 r : Run World)
    (u : JobStatus) : Prop :=
  (job_key (jobId message), u)
    ∈ drop (length (kv_history (sink r0))) (kv_history (sink r)).

(** The two ways a delivery ends. *)
Definition ended_well (message : QueueMessage) (r0 r : Run World) : Prop :=
  dispositions (sink r) = dispositions (sink r0) ++ [(jobId message, Ack)]
  ∧ (∃ res, STORAGE (sink r)
            = <[result_key (jobId message) := ResultBlob res]>
                (STORAGE (sink r0)))
  ∧ (∃ u, written message r0 r u ∧ status u = completed
          ∧ is_Some (completed_at u))
  ∧ ∃ at_, webhook_posts (sink r)
           = webhook_posts (sink r0) ++ webhook_of message completed at_ None.

Definition ended_failed (message : QueueMessage) (e : string)
    (r0 r : Run World) : Prop :=
  dispositions (sink r) = dispositions (sink r0) ++ [(jobId message, Retry)]
  ∧ STORAGE (sink r) = STORAGE (sink r0)
  ∧ (∃ u, written message r0 r u ∧ status u = failed ∧ error u = Some e
          ∧ is_Some (failed_at u))
  ∧ ∃ at_, webhook_posts (sink r)
           = webhook_posts (sink r0)
             ++ webhook_of message failed at_ (Some e).

(** What is known of the state while the handler runs alone after the
    first status write. *)
Definition running_alone
    (provider : nat → Provider → string → string → Q → ProviderReply)
    (toISOString : nat → string) (message : QueueMessage)
    (r0 r : Run World) : Prop :=
  begun r0 r ∧ untouched r0 r
  ∧ @invariant (delivery_conditions provider toISOString message r0 false) r
  ∧ ¬ @spoiled (delivery_conditions provider toISOString message r0 false) r.

(** What holds of a handler that runs alone between the first status write
    and the end of the review, and what holds once a call has failed. *)
Definition steady {X} (r0 r : Run World) (o : Outcome X) : Prop :=
  begun r0 r ∧ untouched r0 r.

Definition broken
    (provider : nat → Provider → string → string → Q → ProviderReply)
    {X} (r0 r : Run World) (o : Outcome X) : Prop :=
  match o with
  | Fulfilled _ => False
  | Rejected e =>
      rejected_call provider (length (calls r0)) e r
      ∧ begun r0 r ∧ untouched r0 r
  end.

(** What the handler has done when the [try] block ends while it runs
    alone. *)
Definition tried (message : QueueMessage) (r0 r : Run World)
    (o : Outcome unit) : Prop :=
  match o with
  | Fulfilled _ => ended_well message r0 r
  | Rejected _ => begun r0 r ∧ untouched r0 r
  end.

(** How a delivery has ended when its handler returns: alone, in one of
    the two ways; beside callbacks left in flight, as failed with the
    message of a failed call. *)
Definition ended_alone (message : QueueMessage) (r0 r : Run World)
    (o : Outcome unit) : Prop :=
  o = Fulfilled tt
  ∧ (ended_well message r0 r ∨ ∃ e, ended_failed message e r0 r).

Definition ended_beside
    (provider : nat → Provider → string → string → Q → ProviderReply)
    (message : QueueMessage) (r0 r : Run World) (o : Outcome unit) : Prop :=
  o = Fulfilled tt
  ∧ ∃ e, rejected_call provider (length (calls r0)) e r
         ∧ ended_failed message e r0 r.

(** One delivery of a message in the interleaved model: the handler is
    entered in [r0] and a schedule is played. *)
Definition interleaved_delivery
    (provider : nat → Provider → string → string → Q → ProviderReply)
    (toISOString : nat → string) (webhook_delivers : nat → string → bool)
    (JSON_stringify : Blob → string) (message : QueueMessage)
    (r0 : Run World) (schedule : list Choice) : Running unit :=
  exec
    (enter
       (Interleaved.process_message provider toISOString webhook_delivers
          JSON_stringify message) r0)
    schedule.

(** The worlds the workers can reach from the empty one: by a submission,
    by a delivery of a message in the sequential model or, played by any
    schedule for any length, in the interleaved model, and by the deletion
    of a job.  The clock and the URL check are fixed, the other services
    may behave differently each time. *)
Inductive reachable (is_url : string → bool) (toISOString : nat → string)
    : World → Prop :=
| reach_empty : reachable is_url toISOString empty_world
| reach_submission w body uuid :
    reachable is_url toISOString w →
    reachable is_url toISOString
      (post_review is_url toISOString body uuid w).1
| reach_delivery w provider latency webhook_delivers JSON_stringify message
    log :
    reachable is_url toISOString w →
    reachable is_url toISOString
      (sink (process_message provider latency toISOString webhook_delivers
               JSON_stringify message (mkRun w log)).1)
| reach_interleaved_delivery w provider webhook_delivers JSON_stringify
    message log schedule :
    reachable is_url toISOString w →
    reachable is_url toISOString
      (sink (state (interleaved_delivery provider toISOString
                      webhook_delivers JSON_stringify message (mkRun w log)
                      schedule)))
| reach_deletion w jobId :
    reachable is_url toISOString w →
    reachable is_url toISOString (delete_job jobId w).1.


(** The record that the first attempt of the example leaves in the store
    (the clock of the example always shows the same time). *)
Definition ex_first_attempt_record : JobStatus :=
  mkJobStatus "job-1" failed "2024-05-01T12:00:00.000Z"
    (Some "2024-05-01T12:00:00.000Z") None (Some "2024-05-01T12:00:00.000Z")
    (Some "OpenAI API error (503): overloaded") None
    (Some (mkProgress "stage1" "Querying CISO")).

#[local] Arguments String.append !_ _ / : simpl nomatch.

(** * Properties of the string operations *)

Module JsStringFacts.

Example split_lines_sample :
  split newline ("a" +:+ nl +:+ nl +:+ "b" +:+ nl) = ["a"; ""; "b"; ""].
Proof. reflexivity. Qed.

(** Only the first occurrence is replaced, and a dollar sign in the
    replacement text is read as a substitution pattern. *)
Example replace_sample :
  replace "x{a}y{a}" "{a}" "<$&|$$|$`|$'|$1>" = "x<{a}|$|x|y{a}|$1>y{a}".
Proof. reflexivity. Qed.

Example toUpperCase_sample :
  toUpperCase "Question to cto: ok?" = "QUESTION TO CTO: OK?".
Proof. reflexivity. Qed.

Lemma append_assoc (a b c : string) : (a +:+ b) +:+ c = a +:+ (b +:+ c).
Proof. induction a as [|x a IH]; simpl; [reflexivity | by f_equal]. Qed.

Lemma append_empty_r (a : string) : a +:+ "" = a.
Proof. induction a as [|x a IH]; simpl; [reflexivity | by f_equal]. Qed.

Lemma length_append (a b : string) :
  String.length (a +:+ b) = String.length a + String.length b.
Proof. induction a as [|x a IH]; simpl; [reflexivity | by f_equal]. Qed.

Lemma toUpperCase_app (a b : string) :
  toUpperCase (a +:+ b) = toUpperCase a +:+ toUpperCase b.
Proof.
  induction a as [|x a IH]; simpl; [reflexivity |].
  destruct (Ascii.eqb x sharp_s); simpl; by rewrite IH.
Qed.

(** The sharp s makes a text longer. *)
Example toUpperCase_sharp_s :
  toUpperCase ("Stra" +:+ String sharp_s "e") = "STRASSE".
Proof. reflexivity. Qed.

Lemma startsWith_spec (s p : string) :
  startsWith s p = true ↔ ∃ post, s = p +:+ post.
Proof.
  revert s. induction p as [|a p IH]; intros s; simpl.
  - split; [intros _; by exists s | done].
  - destruct s as [|b s].
    + split; [done | intros [post H]; discriminate].
    + rewrite andb_true_iff, Ascii.eqb_eq, IH. split.
      * intros [-> [post ->]]. by exists post.
      * intros [post H]. injection H as -> ->. split; [done | by exists post].
Qed.

Lemma includes_spec (s p : string) :
  includes s p = true ↔ ∃ pre post, s = pre +:+ p +:+ post.
Proof.
  induction s as [|c s IH]; simpl.
  - rewrite orb_false_r, startsWith_spec. split.
    + intros [post H]. by exists "", post.
    + intros [pre [post H]]. destruct pre; [by exists post | discriminate].
  - rewrite orb_true_iff, startsWith_spec, IH. split.
    + intros [[post H] | [pre [post H]]].
      * by exists "", post.
      * exists (String c pre), post. simpl. by rewrite H.
    + intros [pre [post H]]. destruct pre as [|d pre]; simpl in H.
      * left. by exists post.
      * right. injection H as -> ->. by exists pre, post.
Qed.

Lemma includes_false_spec (s p : string) :
  includes s p = false ↔ ¬ ∃ pre post, s = pre +:+ p +:+ post.
Proof. rewrite <- includes_spec. destruct (includes s p); naive_solver. Qed.

(** A pattern that occurs, occurs in every text around. *)
Lemma includes_within (s pre post p : string) :
  includes s p = true → includes (pre +:+ s +:+ post) p = true.
Proof.
  rewrite !includes_spec. intros [a [b ->]].
  exists (pre +:+ a), (b +:+ post). by rewrite !append_assoc.
Qed.

(** With a pattern, its beginnings occur too. *)
Lemma includes_shorter (s p q : string) :
  includes s (p +:+ q) = true → includes s p = true.
Proof.
  rewrite !includes_spec. intros [a [b ->]].
  exists a, (q +:+ b). by rewrite !append_assoc.
Qed.

Lemma drop_chars_app (pre s : string) :
  drop_chars (String.length pre) (pre +:+ s) = s.
Proof. induction pre as [|c pre IH]; simpl; done. Qed.



(** [indexOf] finds the first occurrence. *)
Lemma indexOf_from_spec (s p : string) (i : Z) :
  includes s p = true →
  ∃ n : nat,
    indexOf_from s p i = (i + Z.of_nat n)%Z ∧
    n ≤ String.length s ∧
    startsWith (drop_chars n s) p = true ∧
    ∀ k, k < n → startsWith (drop_chars k s) p = false.
Proof.
  revert i. induction s as [|c s IH]; intros i; simpl.
  - rewrite orb_false_r. intros H. exists 0. rewrite H. simpl.
    split_and!; [lia | lia | done | intros; lia].
  - destruct (startsWith (String c s) p) eqn:Hs; simpl.
    + intros _. exists 0. simpl. split_and!; [lia | lia | done | intros; lia].
    + intros H. destruct (IH (i + 1)%Z H) as (n & Hn & Hlen & Hat & Hmin).
      exists (Datatypes.S n). simpl. split_and!; [lia | lia | done |].
      intros [|k] Hk; simpl; [done | apply Hmin; lia].
Qed.

Lemma indexOf_spec (s p : string) :
  includes s p = true →
  ∃ n : nat,
    indexOf s p = Z.of_nat n ∧
    n ≤ String.length s ∧
    startsWith (drop_chars n s) p = true ∧
    ∀ k, k < n → startsWith (drop_chars k s) p = false.
Proof.
  intros H. destruct (indexOf_from_spec s p 0 H) as (n & Hn & Hrest).
  exists n. split; [unfold indexOf; lia | done].
Qed.

Lemma split_nonempty (sep : ascii) (s : string) : split sep s ≠ [].
Proof.
  destruct s as [|c s]; simpl; [done |].
  destruct (Ascii.eqb c sep); [done |]. by destruct (split sep s).
Qed.

Lemma join_cons (sep x : string) (rest : list string) :
  rest ≠ [] → join sep (x :: rest) = x +:+ sep +:+ join sep rest.
Proof. by destruct rest. Qed.

(** Joining the pieces of a split gives the text back. *)
Lemma join_split (sep : ascii) (s : string) :
  join (String sep "") (split sep s) = s.
Proof.
  induction s as [|c s IH]; simpl; [done |].
  destruct (Ascii.eqb c sep) eqn:Hc.
  - apply Ascii.eqb_eq in Hc as ->.
    rewrite join_cons by apply split_nonempty. simpl. by rewrite IH.
  - pose proof (split_nonempty sep s) as Hne.
    destruct (split sep s) as [|l ls]; [done |].
    destruct ls as [|l' ls]; simpl in *; by rewrite <- IH.
Qed.

(** Every part is a piece of the joined text. *)
Lemma join_piece (sep x : string) (parts : list string) :
  x ∈ parts → ∃ pre post, join sep parts = pre +:+ x +:+ post.
Proof.
  induction parts as [|y parts IH]; [by intros ?%elem_of_nil |].
  intros [-> | Hin]%elem_of_cons.
  - destruct parts as [|z parts].
    + exists "", "". simpl. by rewrite append_empty_r.
    + exists "", (sep +:+ join sep (z :: parts)). done.
  - destruct (IH Hin) as [pre [post Heq]].
    rewrite join_cons by (intros ->; by apply elem_of_nil in Hin).
    exists (y +:+ sep +:+ pre), post. rewrite Heq. by rewrite !append_assoc.
Qed.

(** The lines of a text are pieces of it. *)
Lemma split_piece (sep : ascii) (s line : string) :
  line ∈ split sep s → ∃ pre post, s = pre +:+ line +:+ post.
Proof.
  intros Hin.
  destruct (join_piece (String sep "") line _ Hin) as [pre [post H]].
  exists pre, post. by rewrite <- H, join_split.
Qed.

End JsStringFacts.

(** * The directed-question router *)

Section Router.

Import JsStringFacts.

Lemma or_else_empty (s : string) : or_else s "" = s.
Proof. by destruct s. Qed.

Lemma scan_patterns_spec resp line patterns questions :
  scan_patterns resp line (toUpperCase line) patterns questions
  = questions ++ option_list (render_line resp patterns line).
Proof.
  unfold render_line, first_match.
  induction patterns as [|p rest IH]; simpl.
  - by rewrite app_nil_r.
  - destruct (includes (toUpperCase line) (toUpperCase p)); [done | apply IH].
Qed.

Lemma scan_lines_spec patterns resp questions :
  scan_lines patterns resp questions
  = questions
    ++ omap (render_line resp patterns) (split newline (response resp)).
Proof.
  unfold scan_lines. rewrite or_else_empty.
  generalize (split newline (response resp)) as lines. intros lines.
  revert questions. induction lines as [|l lines IH]; intros qs; simpl.
  - by rewrite app_nil_r.
  - rewrite IH, scan_patterns_spec, <- app_assoc. f_equal.
    by destruct (render_line resp patterns l).
Qed.

Lemma collect_questions_spec records targetRole :
  collect_questions records targetRole = captured_questions records targetRole.
Proof.
  unfold collect_questions, captured_questions.
  change (flat_map ?f records) with ([] ++ flat_map f records).
  generalize (@nil string) as qs.
  induction records as [|r records IH]; intros qs; simpl.
  - by rewrite app_nil_r.
  - rewrite IH, scan_lines_spec. by rewrite <- app_assoc.
Qed.

Lemma extract_unfold records targetRole :
  extractDirectedQuestions records targetRole
  = match captured_questions records targetRole with
    | [] => no_questions
    | qs => join (nl +:+ nl) qs
    end.
Proof.
  unfold extractDirectedQuestions. rewrite collect_questions_spec.
  by destruct (captured_questions records targetRole).
Qed.

(** Every captured question begins with its attribution. *)
Lemma render_line_From resp patterns line q :
  render_line resp patterns line = Some q →
  ∃ rest, q = "From " +:+ rest.
Proof.
  unfold render_line. destruct (first_match _ _); [|done].
  intros [= <-]. eauto.
Qed.

Lemma captured_From records targetRole q :
  q ∈ captured_questions records targetRole → ∃ rest, q = "From " +:+ rest.
Proof.
  unfold captured_questions. rewrite list_elem_of_In, in_flat_map.
  intros (resp & _ & Hq). apply list_elem_of_In, list_elem_of_omap in Hq.
  destruct Hq as (line & _ & Hq). by eapply render_line_From.
Qed.

Lemma join_From sep q qs :
  (∃ rest, q = "From " +:+ rest) →
  ∃ rest, join sep (q :: qs) = "From " +:+ rest.
Proof.
  intros [rest ->]. destruct qs as [|q' qs]; simpl; [by eauto |].
  eexists. reflexivity.
Qed.

(** Nothing is captured exactly when no line contains a pattern. *)
Lemma render_line_None resp patterns line :
  render_line resp patterns line = None
  ↔ ∀ p, p ∈ patterns → includes (toUpperCase line) (toUpperCase p) = false.
Proof.
  unfold render_line, first_match.
  destruct (find _ patterns) as [p|] eqn:Hf.
  - apply find_some in Hf as [Hin Hp]. split; [done |].
    intros H. rewrite H in Hp; [done | by apply list_elem_of_In].
  - split; [| done]. intros _ p Hin.
    by apply (find_none _ _ Hf), list_elem_of_In.
Qed.

Lemma captured_nil records targetRole :
  captured_questions records targetRole = []
  ↔ ∀ resp line p,
      resp ∈ records → line ∈ split newline (response resp) →
      p ∈ targetPatterns targetRole →
      includes (toUpperCase line) (toUpperCase p) = false.
Proof.
  unfold captured_questions. induction records as [|r records IH]; simpl.
  - split; [| done]. intros _ resp line p Hin. by apply elem_of_nil in Hin.
  - rewrite app_nil, IH. split.
    + intros [Hr Hrest] resp line p [-> | Hin]%elem_of_cons Hline Hp.
      * eapply render_line_None; [| done].
        destruct (render_line r (targetPatterns targetRole) line) eqn:Hq;
          [| done].
        assert (s ∈ omap (render_line r (targetPatterns targetRole))
                  (split newline (response r))) as Hs
          by (apply list_elem_of_omap; eauto).
        rewrite Hr in Hs. by apply elem_of_nil in Hs.
      * by eapply Hrest.
    + intros H. split.
      * destruct (omap _ _) as [|q qs] eqn:Hq; [done |].
        assert (q ∈ omap (render_line r (targetPatterns targetRole))
                  (split newline (response r))) as Hin
          by (rewrite Hq; left).
        apply list_elem_of_omap in Hin as (line & Hline & Hrender).
        assert (render_line r (targetPatterns targetRole) line = None) as Hn.
        { apply render_line_None. intros p Hp. eapply H; [left | done..]. }
        congruence.
      * intros resp line p Hin. apply H. by right.
Qed.

(** ** Membership in the set of addressed roles *)

Lemma elem_of_set_add (x r : Role) (s : list Role) :
  x ∈ set_add r s ↔ x = r ∨ x ∈ s.
Proof.
  unfold set_add. case_decide.
  - split; [by right | by intros [-> | ?]].
  - rewrite elem_of_app, list_elem_of_singleton. tauto.
Qed.

Lemma NoDup_set_add (r : Role) (s : list Role) :
  NoDup s → NoDup (set_add r s).
Proof.
  unfold set_add. case_decide; [done |]. intros Hs.
  apply NoDup_app. split_and!; [done | | apply NoDup_singleton].
  intros x Hx ->%list_elem_of_singleton. done.
Qed.

Lemma elem_of_add_addressed resp roles set x :
  x ∈ add_addressed resp roles set
  ↔ x ∈ set ∨ (x ∈ roles ∧ addresses resp x = true).
Proof.
  unfold add_addressed. rewrite or_else_empty.
  change (fun p => includes (toUpperCase (response resp)) p)
    with (includes (toUpperCase (response resp))).
  revert set. induction roles as [|r roles IH]; intros set; cbn [fold_left].
  - rewrite elem_of_nil. tauto.
  - rewrite IH, elem_of_cons. unfold addresses.
    match goal with
    | |- context [if ?b then _ else _] => destruct b eqn:Hr
    end.
    + rewrite elem_of_set_add. intuition (subst; auto).
    + split.
      * intros [? | [? ?]]; [by left | right; split; [by right | done]].
      * intros [? | [[-> | ?] Hx]]; [by left | congruence | by right].
Qed.

Lemma NoDup_add_addressed resp roles set :
  NoDup set → NoDup (add_addressed resp roles set).
Proof.
  unfold add_addressed. revert set.
  induction roles as [|r roles IH]; intros set Hs; cbn [fold_left]; [done |].
  apply IH.
  match goal with
  | |- context [if ?b then _ else _] => destruct b
  end; [by apply NoDup_set_add | done].
Qed.

Lemma getExecutives_fold records :
  getExecutivesWithQuestions records
  = fold_left (fun set resp => add_addressed resp [CPO; CTO; COO; CISO] set)
      records [].
Proof. reflexivity. Qed.

Lemma all_roles (x : Role) : x ∈ [CPO; CTO; COO; CISO].
Proof. destruct x; set_solver. Qed.

Lemma elem_of_getExecutives records x :
  x ∈ getExecutivesWithQuestions records
  ↔ ∃ resp, resp ∈ records ∧ addresses resp x = true.
Proof.
  rewrite getExecutives_fold.
  assert (∀ set,
    x ∈ fold_left (fun set resp => add_addressed resp [CPO; CTO; COO; CISO] set)
          records set
    ↔ x ∈ set ∨ ∃ resp, resp ∈ records ∧ addresses resp x = true) as H.
  { induction records as [|r records IH]; intros set; cbn [fold_left].
    - split; [by left | intros [? | (resp & Hin & _)]; [done |]].
      by apply elem_of_nil in Hin.
    - rewrite IH, elem_of_add_addressed. split.
      + intros [[? | [_ Hr]] | (resp & Hin & Hr)].
        * by left.
        * right. exists r. split; [left | done].
        * right. exists resp. split; [by right | done].
      + intros [? | (resp & [-> | Hin]%elem_of_cons & Hr)].
        * by left; left.
        * left; right. split; [apply all_roles | done].
        * right. by exists resp. }
  rewrite H. split; [intros [Hin | ?]; [by apply elem_of_nil in Hin | done] |].
  by right.
Qed.

Lemma NoDup_getExecutives records :
  NoDup (getExecutivesWithQuestions records).
Proof.
  rewrite getExecutives_fold.
  assert (∀ set, NoDup set →
    NoDup (fold_left
             (fun set resp => add_addressed resp [CPO; CTO; COO; CISO] set)
             records set)) as H.
  { induction records as [|r records IH]; intros set Hs; cbn [fold_left]; [done |].
    by apply IH, NoDup_add_addressed. }
  apply H, NoDup_nil_2.
Qed.

(** Each pattern of [extractDirectedQuestions], upper-cased, begins with
    the pattern of [getExecutivesWithQuestions] at the same position. *)
Lemma target_pattern_extends (r : Role) (p : string) :
  p ∈ targetPatterns (role_name r) →
  ∃ a suffix, a ∈ addressPatterns r ∧ toUpperCase p = a +:+ suffix.
Proof.
  unfold targetPatterns, addressPatterns.
  rewrite !elem_of_cons, elem_of_nil.
  intros [-> | [-> | [-> | [-> | []]]]].
  - exists ("QUESTION TO " +:+ role_name r), ":".
    split; [set_solver | by destruct r].
  - exists ("QUESTION FOR " +:+ role_name r), ":".
    split; [set_solver | by destruct r].
  - exists ("TO " +:+ role_name r +:+ ":"), "".
    split; [set_solver | by destruct r].
  - exists ("@" +:+ role_name r), ":".
    split; [set_solver | by destruct r].
Qed.

(** One direction of the agreement of the two functions holds: a role for
    which a question is extracted is in the set of addressed roles. *)
Lemma extracted_role_is_addressed (records : list StageResponse) (r : Role) :
  captured_questions records (role_name r) ≠ [] →
  r ∈ getExecutivesWithQuestions records.
Proof.
  intros Hne. apply elem_of_getExecutives.
  destruct (captured_questions records (role_name r)) as [|q qs] eqn:Hc;
    [done |].
  assert (q ∈ captured_questions records (role_name r)) as Hq
    by (rewrite Hc; left).
  unfold captured_questions in Hq.
  rewrite list_elem_of_In, in_flat_map in Hq.
  destruct Hq as (resp & Hresp%list_elem_of_In & Hq%list_elem_of_In).
  apply list_elem_of_omap in Hq as (line & Hline & Hrender).
  exists resp. split; [done |].
  unfold render_line in Hrender.
  destruct (first_match _ _) as [p|] eqn:Hf; [| done].
  apply find_some in Hf as [Hp%list_elem_of_In Hinc].
  destruct (target_pattern_extends r p Hp) as (a & suffix & Ha & Hup).
  rewrite Hup in Hinc. apply includes_shorter in Hinc.
  destruct (split_piece _ _ _ Hline) as (pre & post & Hcontent).
  unfold addresses. apply existsb_exists. exists a.
  split; [by apply list_elem_of_In |].
  rewrite Hcontent, !toUpperCase_app. by apply includes_within.
Qed.

End Router.

(** * [Promise.all] *)

Section PromiseAll.

Context {A : Type}.
Implicit Types (outs : list (Outcome A)) (vs : list A)
  (values : list (option A)) (order : list nat).

Lemma insert_by_perm (lat : nat → nat) (i : nat) (l : list nat) :
  insert_by lat i l ≡ₚ i :: l.
Proof.
  induction l as [|j l IH]; simpl; [done |].
  destruct (lat i <=? lat j)%nat; [done |].
  rewrite IH. apply Permutation_swap.
Qed.

(** Whatever the latencies, every promise settles exactly once. *)
Lemma settle_order_perm (lat : nat → nat) (n : nat) :
  settle_order lat n ≡ₚ seq 0 n.
Proof.
  unfold settle_order. induction (seq 0 n) as [|i l IH]; simpl; [done |].
  by rewrite insert_by_perm, IH.
Qed.

Lemma elem_of_settle_order (lat : nat → nat) (n i : nat) :
  i ∈ settle_order lat n ↔ i < n.
Proof. rewrite settle_order_perm, elem_of_seq. lia. Qed.

(** A rejection comes from a rejected promise. *)
Lemma settle_Rejected outs order values e :
  settle outs order values = Rejected e →
  ∃ i, i ∈ order ∧ outs !! i = Some (Rejected e).
Proof.
  revert values. induction order as [|i order IH]; intros values; simpl;
    [done |].
  destruct (outs !! i) as [[v | e'] |] eqn:Hi.
  - intros (j & Hj & Hout)%IH. exists j. split; [by right | done].
  - intros [= ->]. exists i. split; [left | done].
  - intros (j & Hj & Hout)%IH. exists j. split; [by right | done].
Qed.

(** Fulfilment needs every promise that settles to be fulfilled. *)
Lemma settle_Fulfilled outs order values values' i :
  settle outs order values = Fulfilled values' →
  i ∈ order → i < length outs → ∃ v, outs !! i = Some (Fulfilled v).
Proof.
  revert values. induction order as [|j order IH]; intros values; simpl.
  - by intros _ ?%elem_of_nil.
  - destruct (outs !! j) as [[v | e'] |] eqn:Hj; [| done |].
    + intros Hs [-> | Hin]%elem_of_cons Hlt; [by eauto | by eapply IH].
    + intros Hs [-> | Hin]%elem_of_cons Hlt; [| by eapply IH].
      apply lookup_ge_None in Hj. lia.
Qed.

(** When all are fulfilled the values end up at the indices of their
    promises. *)
Lemma settle_values vs order values :
  length values = length vs →
  (∀ i, i ∈ order → i < length vs) →
  ∃ values',
    settle (Fulfilled <$> vs) order values = Fulfilled values' ∧
    length values' = length vs ∧
    ∀ i, values' !! i
         = if decide (i ∈ order) then Some <$> vs !! i else values !! i.
Proof.
  revert values. induction order as [|j order IH]; intros values Hlen Hbound.
  - exists values. split_and!; [done | done |].
    intros i. case_decide as Hi; [by apply elem_of_nil in Hi | done].
  - simpl. rewrite list_lookup_fmap.
    destruct (vs !! j) as [v|] eqn:Hj; simpl.
    2: { apply lookup_ge_None in Hj. specialize (Hbound j). 
         assert (j < length vs) by (apply Hbound; left). lia. }
    destruct (IH (<[j := Some v]> values)) as (values' & Hs & Hl & Hlook).
    { by rewrite length_insert. }
    { intros i Hi. apply Hbound. by right. }
    exists values'. split_and!; [done | done |].
    intros i. rewrite Hlook.
    destruct (decide (i ∈ order)) as [Hin | Hnin].
    + rewrite decide_True by (by right). done.
    + destruct (decide (i = j)) as [-> | Hne].
      * rewrite decide_True by left.
        rewrite list_lookup_insert_eq by (rewrite Hlen; by eapply lookup_lt_Some).
        by rewrite Hj.
      * rewrite decide_False by (intros [? | ?]%elem_of_cons; done).
        by rewrite list_lookup_insert_ne.
Qed.

Lemma omap_Some vs : omap (fun v : option A => v) (Some <$> vs) = vs.
Proof. induction vs as [|v vs IH]; simpl; [done | by f_equal]. Qed.

(** [Promise.all] over fulfilled promises gives their values in the order
    of the promises, whatever the latencies. *)
Lemma promise_all_fulfilled (lat : nat → nat) vs :
  promise_all lat (Fulfilled <$> vs) = Fulfilled vs.
Proof.
  unfold promise_all. rewrite length_fmap.
  destruct (settle_values vs (settle_order lat (length vs))
              (replicate (length vs) None)) as (values' & -> & Hl & Hlook).
  { by rewrite length_replicate. }
  { intros i. by rewrite elem_of_settle_order. }
  f_equal. assert (values' = Some <$> vs) as ->; [| apply omap_Some].
  apply list_eq. intros i. rewrite Hlook, list_lookup_fmap.
  case_decide as Hi; [done |].
  rewrite elem_of_settle_order in Hi.
  rewrite (proj1 (lookup_replicate_None _ _ _)) by lia.
  rewrite lookup_ge_None_2 by lia. done.
Qed.

Lemma all_fulfilled_fmap outs :
  (∀ i, i < length outs → ∃ v, outs !! i = Some (Fulfilled v)) →
  ∃ vs, outs = Fulfilled <$> vs.
Proof.
  induction outs as [|o outs IH]; intros H.
  - by exists [].
  - destruct (H 0) as [v Hv]; [simpl; lia |]. simpl in Hv. injection Hv as ->.
    destruct IH as [vs ->].
    { intros i Hi. apply (H (Datatypes.S i)). simpl. lia. }
    by exists (v :: vs).
Qed.

Theorem promise_all_Fulfilled_iff (lat : nat → nat) outs vs :
  promise_all lat outs = Fulfilled vs ↔ outs = Fulfilled <$> vs.
Proof.
  split; [| intros ->; apply promise_all_fulfilled].
  intros H.
  assert (∃ vs', outs = Fulfilled <$> vs') as [vs' ->].
  { apply all_fulfilled_fmap. intros i Hi.
    unfold promise_all in H.
    destruct (settle outs _ _) as [values' | e] eqn:Hs; [| done].
    eapply settle_Fulfilled; [done | | done].
    by apply elem_of_settle_order. }
  rewrite promise_all_fulfilled in H. by injection H as ->.
Qed.

Theorem promise_all_Rejected (lat : nat → nat) outs e :
  promise_all lat outs = Rejected e → Rejected e ∈ outs.
Proof.
  unfold promise_all.
  destruct (settle outs _ _) as [values' | e'] eqn:Hs; [done |].
  intros [= ->]. apply settle_Rejected in Hs as (i & _ & Hi).
  by eapply list_elem_of_lookup_2.
Qed.

End PromiseAll.

(** * The deliberation engine *)

Section EngineFacts.

Variable provider : nat → Provider → string → string → Q → ProviderReply.
Variable latency : nat → nat → nat.
Context {S : Type}.

Abbreviation Callback := (option (string → string → S → S * Outcome unit)).
Implicit Types (cb : Callback) (r : Run S) (new : list LlmCall).

Lemma effect_refl cb r : effect cb r r [].
Proof. split; [by rewrite app_nil_r | done]. Qed.

Lemma effect_trans cb r1 r2 r3 n1 n2 :
  effect cb r1 r2 n1 → effect cb r2 r3 n2 → effect cb r1 r3 (n1 ++ n2).
Proof.
  intros [H1 S1] [H2 S2]. split; [by rewrite H2, H1, app_assoc |].
  by etrans.
Qed.

Lemma calls_fulfilled_nil base : calls_fulfilled provider base [].
Proof. intros i c Hi. by rewrite lookup_nil in Hi. Qed.

Lemma calls_fulfilled_app base n1 n2 :
  calls_fulfilled provider base n1 →
  calls_fulfilled provider (base + length n1) n2 →
  calls_fulfilled provider base (n1 ++ n2).
Proof.
  intros H1 H2 i c Hi. apply lookup_app_Some in Hi as [Hi | [Hge Hi]].
  - by apply H1.
  - apply H2 in Hi. by replace (base + i) with (base + length n1 + (i - length n1)) by lia.
Qed.

Lemma call_rejects_app_l base n1 n2 e :
  call_rejects provider base n1 e → call_rejects provider base (n1 ++ n2) e.
Proof.
  intros (i & c & Hi & Ho). exists i, c. split; [| done].
  by apply lookup_app_l_Some.
Qed.

Lemma call_rejects_app_r base n1 n2 e :
  call_rejects provider (base + length n1) n2 e →
  call_rejects provider base (n1 ++ n2) e.
Proof.
  intros (i & c & Hi & Ho). exists (length n1 + i), c. split.
  - by rewrite lookup_app_r, Nat.add_comm, Nat.add_sub by lia.
  - by rewrite Nat.add_assoc.
Qed.

Lemma report_spec cb stageName step r r' o :
  report cb stageName step r = (r', o) →
  effect cb r r' [] ∧ ∀ e, o = Rejected e → callback_rejects cb e.
Proof.
  unfold report. destruct cb as [f|].
  - unfold on_sink. destruct (f stageName step (sink r)) as [s' o'] eqn:Hf.
    intros [= <- <-]. split.
    + split; [by rewrite app_nil_r |]. simpl.
      apply rtc_once. exists f, stageName, step. by rewrite Hf.
    + intros e ->. exists f, stageName, step, (sink r). by rewrite Hf.
  - intros [= <- <-]. split; [apply effect_refl | done].
Qed.

(** One async callback of a stage: either the progress callback rejects
    and no call is made, or exactly one call is logged and decides the
    outcome. *)
Lemma ask_spec cb site stageName model temperature prompt role_ r r' o :
  ask provider cb site stageName model temperature prompt role_ r = (r', o) →
  let c := mkLlmCall site (prompt role_) model temperature in
  (effect cb r r' [] ∧ ∃ e, o = Rejected e ∧ callback_rejects cb e)
  ∨ (effect cb r r' [c] ∧
     o = match call_outcome provider (length (calls r)) c with
         | Fulfilled text => Fulfilled (mkStageResponse (role_name role_) text)
         | Rejected e => Rejected e
         end).
Proof.
  unfold ask, bind.
  destruct (report cb stageName _ r) as [r1 o1] eqn:Hr.
  apply report_spec in Hr as [[Hc Hs] Hrej].
  destruct o1 as [[] | e].
  - unfold llm_query, ret. simpl. rewrite Hc, app_nil_r.
    unfold call_outcome. simpl.
    destruct (query provider _ _ _ _) as [text | e]; intros [= <- <-];
      right; (split; [split; [done | done] | done]).
  - intros [= <- <-]. left. split; [done |]. exists e. split; [done | by apply Hrej].
Qed.

(** The callbacks of one stage, run in role order. *)
Lemma run_all_ask cb site stageName model temperature prompt roles r r' outs :
  run_all (map (ask provider cb site stageName model temperature prompt) roles) r
    = (r', outs) →
  ∃ new,
    effect cb r r' new ∧
    Forall (stage_call site model temperature) new ∧
    Forall2 (fun role_ o => ∀ v, o = Fulfilled v → role v = role_name role_)
      roles outs ∧
    (∀ e, Rejected e ∈ outs →
          call_rejects provider (length (calls r)) new e ∨ callback_rejects cb e) ∧
    ((∀ o, o ∈ outs → is_fulfilled o = true) →
       calls_fulfilled provider (length (calls r)) new ∧
       new = (fun role_ => mkLlmCall site (prompt role_) model temperature)
               <$> roles).
Proof.
  revert r r' outs.
  induction roles as [|role_ roles IH]; intros r r' outs; cbn [run_all map].
  - intros [= <- <-]. exists []. split_and!.
    + apply effect_refl.
    + done.
    + done.
    + by intros e ?%elem_of_nil.
    + intros _. split; [apply calls_fulfilled_nil | done].
  - destruct (ask provider cb _ _ _ _ _ role_ r) as [r1 o] eqn:Hask.
    destruct (run_all _ r1) as [r2 os] eqn:Hrest.
    intros [= <- <-].
    destruct (IH _ _ _ Hrest) as (new2 & Heff2 & Hst2 & Hroles2 & Hrej2 & Hful2).
    apply ask_spec in Hask as [[Heff1 (e & -> & Hcb)] | [Heff1 Ho]].
    + (* the progress callback rejected *)
      exists new2. split_and!.
      * by eapply (effect_trans _ _ _ _ [] new2).
      * done.
      * constructor; [done | done].
      * intros e' [[= ->] | Hin]%elem_of_cons; [by right |].
        destruct Heff1 as [Hc1 _]. rewrite app_nil_r in Hc1.
        rewrite <- Hc1. by apply Hrej2.
      * intros Hall. specialize (Hall (Rejected e)). 
        assert (is_fulfilled (@Rejected StageResponse e) = true) by (apply Hall; left).
        done.
    + (* one call was logged *)
      set (c := mkLlmCall site (prompt role_) model temperature) in *.
      assert (length (calls r1) = length (calls r) + length [c]) as Hlen.
      { destruct Heff1 as [-> _]. by rewrite length_app. }
      exists ([c] ++ new2). split_and!.
      * by eapply effect_trans.
      * apply Forall_app. split; [| done]. by repeat constructor.
      * constructor; [| done]. intros v ->.
        destruct (call_outcome provider _ c); [by injection Ho as -> | done].
      * intros e' [Heq | Hin]%elem_of_cons.
        -- left. apply call_rejects_app_l. exists 0, c. split; [done |].
           rewrite Nat.add_0_r.
           destruct (call_outcome provider _ c); [by subst | congruence].
        -- destruct (Hrej2 _ Hin) as [Hr | Hr]; [left | by right].
           apply call_rejects_app_r. by rewrite <- Hlen.
      * intros Hall. destruct Hful2 as [Hf2 ->].
        { intros o' Ho'. apply Hall. by right. }
        split; [| done].
        apply calls_fulfilled_app; [| by rewrite <- Hlen].
        intros [|i] c' Hi; [| by destruct i].
        injection Hi as <-. rewrite Nat.add_0_r.
        specialize (Hall o (ltac:(left))). rewrite Ho in Hall.
        by destruct (call_outcome provider _ c).
Qed.

(** A whole stage: the callbacks of [map], awaited with [Promise.all]. *)
Lemma await_all_ask lat cb site stageName model temperature prompt roles r r' o :
  await_all lat
    (map (ask provider cb site stageName model temperature prompt) roles) r
    = (r', o) →
  ∃ new,
    effect cb r r' new ∧
    Forall (stage_call site model temperature) new ∧
    match o with
    | Fulfilled vs =>
        role <$> vs = role_name <$> roles ∧
        calls_fulfilled provider (length (calls r)) new ∧
        new = (fun role_ => mkLlmCall site (prompt role_) model temperature)
                <$> roles
    | Rejected e =>
        call_rejects provider (length (calls r)) new e ∨ callback_rejects cb e
    end.
Proof.
  unfold await_all. destruct (run_all _ r) as [r1 outs] eqn:Hrun.
  intros [= <- <-].
  destruct (run_all_ask _ _ _ _ _ _ _ _ _ _ Hrun)
    as (new & Heff & Hst & Hroles & Hrej & Hful).
  exists new. split_and!; [done | done |].
  destruct (promise_all lat outs) as [vs | e] eqn:Hp.
  - apply promise_all_Fulfilled_iff in Hp as ->.
    destruct Hful as [Hf Hnew].
    { intros o' (v & -> & _)%list_elem_of_fmap. done. }
    split_and!; [| done | done].
    clear -Hroles. revert vs Hroles.
    induction roles as [|role_ roles IH]; intros [|v vs] Hroles;
      inversion Hroles; subst; simpl; [done |].
    f_equal; [by eauto | by apply IH].
  - apply Hrej. by eapply promise_all_Rejected.
Qed.

End EngineFacts.

Section ReviewFacts.

Variable provider : nat → Provider → string → string → Q → ProviderReply.
Variable latency : nat → nat → nat.
Context {S : Type}.

Abbreviation Callback' := (option (string → string → S → S * Outcome unit)).
Implicit Types (cb : Callback') (r : Run S) (new : list LlmCall).

Lemma bind_inv {A B} (m : Eng S A) (k : A → Eng S B) r r' o :
  bind m k r = (r', o) →
  ∃ r1 o1, m r = (r1, o1) ∧
    match o1 with
    | Fulfilled a => k a r1 = (r', o)
    | Rejected e => r' = r1 ∧ o = Rejected e
    end.
Proof.
  unfold bind. destruct (m r) as [r1 [a | e]]; intros H; exists r1.
  - by exists (Fulfilled a).
  - exists (Rejected e). by injection H as <- <-.
Qed.

Lemma effect_length cb r r' new :
  effect cb r r' new → length (calls r') = length (calls r) + length new.
Proof. intros [-> _]. by rewrite length_app. Qed.

Lemma lift_rejects cb r r1 n1 n2 e :
  effect cb r r1 n1 →
  call_rejects provider (length (calls r1)) n2 e →
  call_rejects provider (length (calls r)) (n1 ++ n2) e.
Proof.
  intros He Hr. apply call_rejects_app_r.
  by rewrite <- (effect_length _ _ _ _ He).
Qed.

Lemma lift_fulfilled cb r r1 n1 n2 :
  effect cb r r1 n1 →
  calls_fulfilled provider (length (calls r)) n1 →
  calls_fulfilled provider (length (calls r1)) n2 →
  calls_fulfilled provider (length (calls r)) (n1 ++ n2).
Proof.
  intros He H1 H2. apply calls_fulfilled_app; [done |].
  by rewrite <- (effect_length _ _ _ _ He).
Qed.

Lemma stage_call_conforms config site model temperature new :
  (site = 1 ∧ model = executive_model config ∧ temperature = 0.7%Q) ∨
  (site = 2 ∧ model = executive_model config ∧ temperature = 0.6%Q) ∨
  (site = 3 ∧ model = executive_model config ∧ temperature = 0.7%Q) ∨
  (site = 4 ∧ model = ceo_model config ∧ temperature = 0.7%Q) →
  Forall (stage_call site model temperature) new →
  Forall (call_conforms config) new.
Proof.
  intros Hsite Hall. eapply Forall_impl; [exact Hall |].
  intros c Hc. unfold call_conforms.
  destruct Hsite as [(-> & -> & ->) | [(-> & -> & ->) | [(-> & -> & ->) | (-> & -> & ->)]]];
    tauto.
Qed.

Lemma llm_query_spec cb site prompt model temperature r r' o :
  @llm_query provider S site prompt model temperature r = (r', o) →
  let c := mkLlmCall site prompt model temperature in
  effect cb r r' [c] ∧ o = call_outcome provider (length (calls r)) c.
Proof. unfold llm_query. intros [= <- <-]. split; [split |]; done. Qed.

Theorem reviewDocument_spec config documentContent cb r r' o :
  reviewDocument provider latency config documentContent cb r = (r', o) →
  review_post provider config documentContent cb r r' o.
Proof.
  unfold reviewDocument. intros H.
  (* stage 1 *)
  apply bind_inv in H as (ra & oa & Ha & H).
  apply report_spec in Ha as [Ea Ra].
  destruct oa as [[] | e].
  2: { destruct H as [-> ->]. exists []. split_and!; [done | done |].
       right. by apply Ra. }
  apply bind_inv in H as (rb & ob & Hb & H).
  apply await_all_ask in Hb as (n1 & Eb & C1 & Pb).
  pose proof (effect_trans _ _ _ _ _ _ Ea Eb) as E1.
  change ([] ++ n1) with n1 in E1.
  apply (stage_call_conforms config) in C1; [| by left].
  destruct ob as [s1 | e].
  2: { destruct H as [-> ->]. exists n1. split_and!; [done | done |].
       destruct Pb as [Pb | Pb]; [left | by right].
       by apply (lift_rejects _ _ _ [] _ _ Ea). }
  destruct Pb as (R1 & F1 & Hn1).
  apply (lift_fulfilled _ _ _ [] _ Ea (calls_fulfilled_nil _ _)) in F1.
  change ([] ++ n1) with n1 in F1.
  (* stage 2 *)
  apply bind_inv in H as (rc & oc & Hc & H).
  apply report_spec in Hc as [Ec Rc].
  pose proof (effect_trans _ _ _ _ _ _ E1 Ec) as E1'.
  rewrite app_nil_r in E1'.
  destruct oc as [[] | e].
  2: { destruct H as [-> ->]. eexists. split_and!; [done | done |].
       right. by apply Rc. }
  apply bind_inv in H as (rd & od & Hd & H).
  apply await_all_ask in Hd as (n2 & Ed & C2 & Pd).
  pose proof (effect_trans _ _ _ _ _ _ E1' Ed) as E2.
  apply (stage_call_conforms config) in C2; [| by right; left].
  assert (Forall (call_conforms config) (n1 ++ n2)) as C12
    by (apply Forall_app; split; [exact C1 | exact C2]).
  destruct od as [s2 | e].
  2: { destruct H as [-> ->]. eexists. split_and!; [done | done |].
       destruct Pd as [Pd | Pd]; [left | by right].
       by apply (lift_rejects _ _ _ _ _ _ E1'). }
  destruct Pd as (R2 & F2 & Hn2).
  pose proof (lift_fulfilled _ _ _ _ _ E1' F1 F2) as F12.
  (* stage 3 *)
  apply bind_inv in H as (re & oe & He & H).
  assert (∃ n3,
    effect cb rd re n3 ∧ Forall (call_conforms config) n3 ∧
    match oe with
    | Fulfilled s3 =>
        role <$> s3 = role_name <$> getExecutivesWithQuestions s2 ∧
        calls_fulfilled provider (length (calls rd)) n3 ∧
        n3 = (fun role_ =>
                mkLlmCall 3
                  (stage3Prompt config (formatStage1Responses s1)
                     (extractDirectedQuestions s2 (role_name role_)) role_)
                  (executive_model config) 0.7)
               <$> getExecutivesWithQuestions s2
    | Rejected e =>
        call_rejects provider (length (calls rd)) n3 e
        ∨ callback_rejects cb e
    end) as (n3 & E3 & C3 & P3).
  { destruct (0 <? length (getExecutivesWithQuestions s2))%nat eqn:Hq.
    - apply bind_inv in He as (rx & ox & Hx & He).
      apply report_spec in Hx as [Ex Rx].
      destruct ox as [[] | e].
      2: { destruct He as [-> ->]. exists []. split_and!; [done | done |].
           right. by apply Rx. }
      apply await_all_ask in He as (n3 & Ey & C3 & Py).
      exists n3. split; [| split].
      + by eapply (effect_trans _ _ _ _ [] n3).
      + apply (stage_call_conforms config) in C3; [done |].
        right; right; left. done.
      + destruct oe as [s3 | e].
        * destruct Py as (R3 & F3 & ->). split_and!; [done | | done].
          apply (lift_fulfilled _ _ _ [] _ Ex (calls_fulfilled_nil _ _)) in F3.
          done.
        * destruct Py as [Py | Py]; [left | by right].
          by apply (lift_rejects _ _ _ [] _ _ Ex).
    - apply bind_inv in He as (rx & ox & Hx & He).
      apply report_spec in Hx as [Ex Rx].
      destruct ox as [[] | e].
      2: { destruct He as [-> ->]. exists []. split_and!; [done | done |].
           right. by apply Rx. }
      injection He as <- <-. exists []. split; [done |]. split; [done |].
      apply Nat.ltb_ge in Hq.
      destruct (getExecutivesWithQuestions s2); [| simpl in Hq; lia].
      split_and!; [done | apply calls_fulfilled_nil | done]. }
  pose proof (effect_trans _ _ _ _ _ _ E2 E3) as E123.
  assert (Forall (call_conforms config) ((n1 ++ n2) ++ n3)) as C123
    by (apply Forall_app; split; [exact C12 | exact C3]).
  destruct oe as [s3 | e].
  2: { destruct H as [-> ->]. eexists. split_and!; [done | done |].
       destruct P3 as [P3 | P3]; [left | by right].
       by apply (lift_rejects _ _ _ _ _ _ E2). }
  destruct P3 as (R3 & F3 & Hn3).
  pose proof (lift_fulfilled _ _ _ _ _ E2 F12 F3) as F123.
  (* stage 4 *)
  apply bind_inv in H as (rf & of_ & Hf & H).
  apply report_spec in Hf as [Ef Rf].
  pose proof (effect_trans _ _ _ _ _ _ E123 Ef) as E123'.
  rewrite app_nil_r in E123'.
  destruct of_ as [[] | e].
  2: { destruct H as [-> ->]. eexists. split_and!; [done | done |].
       right. by apply Rf. }
  apply bind_inv in H as (rg & og & Hg & H).
  apply (llm_query_spec cb) in Hg as [Eg ->].
  pose proof (effect_trans _ _ _ _ _ _ E123' Eg) as E4.
  fold (stage3Text s3) in *.
  set (c4 := mkLlmCall 4 _ (ceo_model config) 0.7) in *.
  assert (Forall (call_conforms config) (((n1 ++ n2) ++ n3) ++ [c4])) as C4.
  { apply Forall_app; split; [exact C123 |].
    apply Forall_singleton. unfold call_conforms. do 3 right. done. }
  destruct (call_outcome provider (length (calls rf)) c4) as [text | e] eqn:Ho4.
  2: { destruct H as [-> ->]. eexists. split_and!; [done | done |].
       left. apply (lift_rejects _ _ _ _ _ _ E123').
       exists 0, c4. split; [done |]. by rewrite Nat.add_0_r. }
  apply bind_inv in H as (rh & oh & Hh & H).
  apply report_spec in Hh as [Eh Rh].
  pose proof (effect_trans _ _ _ _ _ _ E4 Eh) as E5.
  rewrite app_nil_r in E5.
  destruct oh as [[] | e].
  2: { destruct H as [-> ->]. eexists. split_and!; [done | done |].
       right. by apply Rh. }
  injection H as <- <-.
  eexists. split; [exact E5 |]. split; [exact C4 |]. simpl.
  split_and!; [done | done | done | |].
  - apply (lift_fulfilled _ _ _ _ _ E123' F123).
    intros [|i] c Hi; [| by destruct i]. injection Hi as <-.
    by rewrite Nat.add_0_r, Ho4.
  - subst n1 n2 n3. by rewrite <- !app_assoc.
Qed.

End ReviewFacts.

(** ** The completion order does not show in a result *)

Section CompletionOrder.

Variable provider : nat → Provider → string → string → Q → ProviderReply.
Context {S : Type}.

Lemma await_all_any_latency {A} (lat1 lat2 : nat → nat)
    (tasks : list (Eng S A)) (r r' : Run S) (vs : list A) :
  await_all lat1 tasks r = (r', Fulfilled vs) →
  await_all lat2 tasks r = (r', Fulfilled vs).
Proof.
  unfold await_all. destruct (run_all tasks r) as [r1 outs].
  intros [= <- H]. apply promise_all_Fulfilled_iff in H as ->.
  by rewrite promise_all_fulfilled.
Qed.

Lemma bind_Fulfilled_inv {A B} (m : Eng S A) (k : A → Eng S B) r r' b :
  bind m k r = (r', Fulfilled b) →
  ∃ r1 a, m r = (r1, Fulfilled a) ∧ k a r1 = (r', Fulfilled b).
Proof.
  intros (r1 & [a | e] & Hm & Hk)%bind_inv; [by eauto |].
  by destruct Hk as [_ [=]].
Qed.

Lemma bind_Fulfilled {A B} (m : Eng S A) (k : A → Eng S B) r r1 a x :
  m r = (r1, Fulfilled a) → k a r1 = x → bind m k r = x.
Proof. intros Hm <-. unfold bind. by rewrite Hm. Qed.

(** A result obtained under some completion order is obtained, with the
    same final state, under any other. *)
Lemma reviewDocument_any_latency (lat1 lat2 : nat → nat → nat)
    (config : Config) (documentContent : string)
    (cb : option (string → string → S → S * Outcome unit))
    (r r' : Run S) (res : ReviewResult) :
  reviewDocument provider lat1 config documentContent cb r
    = (r', Fulfilled res) →
  reviewDocument provider lat2 config documentContent cb r
    = (r', Fulfilled res).
Proof.
  unfold reviewDocument. intros H.
  apply bind_Fulfilled_inv in H as (ra & [] & Ha & H).
  eapply bind_Fulfilled; [exact Ha |].
  apply bind_Fulfilled_inv in H as (rb & s1 & Hb & H).
  eapply bind_Fulfilled; [eapply await_all_any_latency; exact Hb |].
  apply bind_Fulfilled_inv in H as (rc & [] & Hc & H).
  eapply bind_Fulfilled; [exact Hc |].
  apply bind_Fulfilled_inv in H as (rd & s2 & Hd & H).
  eapply bind_Fulfilled; [eapply await_all_any_latency; exact Hd |].
  apply bind_Fulfilled_inv in H as (re & s3 & He & H).
  eapply bind_Fulfilled; [| exact H].
  destruct (0 <? length (getExecutivesWithQuestions s2))%nat; [| exact He].
  apply bind_Fulfilled_inv in He as (rx & [] & Hx & He).
  eapply bind_Fulfilled; [exact Hx |].
  eapply await_all_any_latency; exact He.
Qed.

End CompletionOrder.

(** * The queue consumer *)

Section ConsumerFacts.

Variable provider : nat → Provider → string → string → Q → ProviderReply.
Variable latency : nat → nat → nat.
Variable toISOString : nat → string.
Variable webhook_delivers : nat → string → bool.
Variable JSON_stringify : Blob → string.

Abbreviation process :=
  (process_message provider latency toISOString webhook_delivers
     JSON_stringify).

(** *** Single updates of the status record *)

Lemma updateJobStatus_spec jobId st extra w :
  let w' := updateJobStatus toISOString jobId st extra w in
  let u := merged_status (JOBS w !! job_key jobId) jobId st
             (toISOString (clock w)) extra in
  JOBS w' = <[job_key jobId := u]> (JOBS w) ∧
  kv_history w' = kv_history w ++ [(job_key jobId, u)] ∧
  STORAGE w' = STORAGE w ∧
  dispositions w' = dispositions w ∧
  webhook_posts w' = webhook_posts w.
Proof.
  unfold updateJobStatus. by destruct (needs_now _).
Qed.

Lemma updateJobProgress_Some jobId stage_ step_ w e :
  JOBS w !! job_key jobId = Some e →
  let w' := updateJobProgress jobId stage_ step_ w in
  let u := mkJobStatus (job_id e) (status e) (created_at e) (started_at e)
             (completed_at e) (failed_at e) (error e) (webhook_url e)
             (Some (mkProgress stage_ step_)) in
  JOBS w' = <[job_key jobId := u]> (JOBS w) ∧
  kv_history w' = kv_history w ++ [(job_key jobId, u)] ∧
  STORAGE w' = STORAGE w ∧
  dispositions w' = dispositions w ∧
  webhook_posts w' = webhook_posts w ∧
  clock w' = clock w.
Proof. intros He. unfold updateJobProgress. by rewrite He. Qed.

Lemma updateJobProgress_None jobId stage_ step_ w :
  JOBS w !! job_key jobId = None →
  updateJobProgress jobId stage_ step_ w = w.
Proof. intros He. unfold updateJobProgress. by rewrite He. Qed.

(** The progress callback of the consumer never rejects. *)
Lemma progressCallback_total jobId e :
  ¬ callback_rejects (Some (progressCallback jobId)) e.
Proof. by intros (f & stage_ & step_ & s & [= <-] & Hrej). Qed.

(** Progress updates keep a job in review. *)
Lemma reviewing_progress jobId st w0 w w' :
  rtc (callback_step (Some (progressCallback jobId))) w w' →
  reviewing (job_key jobId) st w0 w → reviewing (job_key jobId) st w0 w'.
Proof.
  induction 1 as [w | w w1 w' Hstep _ IH]; [done |].
  intros (middle & e & Hh & Hm & He & Hst & Hs & Hd & Hw & Hc). apply IH.
  destruct Hstep as (f & stage_ & step_ & [= <-] & ->).
  unfold progressCallback. simpl.
  destruct (updateJobProgress_Some jobId stage_ step_ w e He)
    as (HJ & HH & HS & HD & HW & HC).
  eexists (middle ++ [_]), _. split_and!.
  - by rewrite HH, Hh, app_assoc.
  - apply Forall_app. split; [done |]. by apply Forall_singleton.
  - rewrite HJ. apply lookup_insert_eq.
  - done.
  - congruence.
  - congruence.
  - congruence.
  - congruence.
Qed.

(** *** One delivery of a message *)

Lemma notify_completed_frame jobId url r r' o :
  notify_completed toISOString webhook_delivers jobId url r = (r', o) →
  o = Fulfilled tt ∧ calls r' = calls r ∧
  JOBS (sink r') = JOBS (sink r) ∧
  kv_history (sink r') = kv_history (sink r) ∧
  STORAGE (sink r') = STORAGE (sink r) ∧
  dispositions (sink r') = dispositions (sink r).
Proof.
  unfold notify_completed. destruct (truthy url) as [u|].
  - unfold try_catch, bind, now, fetch_webhook, on_sink, ret. simpl.
    destruct (webhook_delivers _ u); by intros [= <- <-].
  - by intros [= <- <-].
Qed.

Lemma notify_failed_frame jobId url message r r' o :
  notify_failed toISOString webhook_delivers jobId url message r = (r', o) →
  o = Fulfilled tt ∧ calls r' = calls r ∧
  JOBS (sink r') = JOBS (sink r) ∧
  kv_history (sink r') = kv_history (sink r) ∧
  STORAGE (sink r') = STORAGE (sink r) ∧
  dispositions (sink r') = dispositions (sink r).
Proof.
  unfold notify_failed. destruct (truthy url) as [u|].
  - unfold try_catch, bind, now, fetch_webhook, on_sink, ret. simpl.
    destruct (webhook_delivers _ u); by intros [= <- <-].
  - by intros [= <- <-].
Qed.

Ltac step_total H :=
  let Hstep := fresh "Hstep" in
  apply bind_inv in H as (? & ? & Hstep & H);
  unfold now, act, r2_get, on_sink in Hstep;
  cbn [sink calls] in Hstep;
  injection Hstep as <- <-;
  cbn [sink calls] in H.

Lemma attempt_spec message r r' o :
  attempt provider latency toISOString webhook_delivers JSON_stringify
    message r = (r', o) →
  attempt_post provider latency JSON_stringify message r r' o.
Proof.
  unfold attempt. intros H.
  step_total H. step_total H.
  match type of H with
  | context [updateJobStatus _ ?j ?st ?ex ?w] =>
      pose proof (updateJobStatus_spec j st ex w) as (HJ & HH & HS & HD & HW);
      remember (updateJobStatus toISOString j st ex w) as w1 eqn:Hw1;
      remember (job_key j, merged_status (JOBS w !! job_key j) j st
                             (toISOString (clock w)) ex) as first eqn:Hf1
  end.
  set (key := job_key (jobId message)) in *.
  assert (put_of key processing first) as Hfirst by (by rewrite Hf1).
  assert (JOBS w1 !! key = Some first.2) as Hcur1.
  { rewrite HJ, Hf1. apply lookup_insert_eq. }
  assert (∀ e,
    attempt_post provider latency JSON_stringify message r
      (mkRun w1 (calls r)) (Rejected e))
    as Hearly.
  { intros e. exists first, [], []. cbn [sink calls].
    split_and!.
    - done.
    - done.
    - by rewrite app_nil_r.
    - exact HH.
    - exists first.2. split; [exact Hcur1 | apply Hfirst].
    - exact HS.
    - exact HD.
    - by left. }
  step_total H. step_total H.
  destruct (STORAGE w1 !! documentKey message) as [documentObj|] eqn:Hdoc;
    [| unfold throw in H; injection H as <- <-; apply Hearly].
  destruct (STORAGE w1 !! configKey message) as [configObj|] eqn:Hcfg;
    [| unfold throw in H; injection H as <- <-; apply Hearly].
  apply bind_inv in H as (re & oe & He & H).
  destruct configObj as [text | config | result];
    [injection He as <- <-; destruct H as [-> ->]; apply Hearly
    | | injection He as <- <-; destruct H as [-> ->]; apply Hearly].
  injection He as <- <-. clear Hearly.
  apply bind_inv in H as (rf & of_ & Hf & H).
  pose proof (reviewDocument_spec _ _ _ _ _ _ _ _ Hf)
    as (new & [Hcalls Hsteps] & _ & Hpost).
  cbn [sink calls] in Hcalls, Hsteps.
  assert (reviewing key processing w1 w1) as Hrev0.
  { exists [], first.2. split_and!; try done;
      [by rewrite app_nil_r | apply Hfirst]. }
  pose proof (reviewing_progress _ processing w1 w1 (sink rf) Hsteps Hrev0)
    as (middle & e & Hh & Hm & Hcur & Hst & Hsto & Hdis & Hwh & Hclk).
  assert (kv_history (sink rf) = kv_history (sink r) ++ [first] ++ middle)
    as Hhist.
  { rewrite Hh, HH. cbn [tick kv_history]. by rewrite <- app_assoc. }
  exists first, middle, new. split; [done |]. split; [done |].
  destruct of_ as [res | err].
  - (* the review succeeded *)
    destruct Hpost as (_ & _ & _ & Hful & _).
    step_total H. step_total H. step_total H. step_total H.
    match type of H with
    | context [updateJobStatus _ ?j ?st ?ex ?w] =>
        pose proof (updateJobStatus_spec j st ex w)
          as (HJ2 & HH2 & HS2 & HD2 & HW2);
        remember (updateJobStatus toISOString j st ex w) as w3 eqn:Hw3
    end.
    apply bind_inv in H as (rk & ok & Hk & H).
    apply notify_completed_frame in Hk as (-> & Kc & KJ & KH & KS & KD).
    unfold act, on_sink in H. injection H as <- <-.
    cbn [sink calls] in *. split; [by rewrite Kc |].
    eexists (key, _), res.
    cbn [dispose kv_history JOBS STORAGE dispositions].
    split_and!.
    + rewrite KH, HH2. cbn [tick r2_put kv_history]. rewrite Hhist.
      by rewrite <- !app_assoc.
    + done.
    + rewrite KJ, HJ2. apply lookup_insert_eq.
    + done.
    + rewrite KS, HS2. cbn [tick r2_put STORAGE].
      by rewrite Hsto, HS.
    + rewrite KD, HD2.
      cbn [tick r2_put dispositions]. by rewrite Hdis, HD.
  - (* the review failed *)
    destruct H as [-> ->]. split; [done |]. split_and!.
    + done.
    + by exists e.
    + by rewrite Hsto, HS.
    + by rewrite Hdis, HD.
    + right. destruct Hpost as [Hrej | Hcb];
        [| by apply progressCallback_total in Hcb].
      split; [done |].
      exists documentObj, config, (mkRun w1 (calls r)), rf.
      rewrite HS in Hdoc, Hcfg. by split_and!.
Qed.

(** What the [catch] block does. *)
Lemma on_failure_spec message e r r' o :
  on_failure toISOString webhook_delivers message e r = (r', o) →
  let key := job_key (jobId message) in
  ∃ last,
    kv_history (sink r') = kv_history (sink r) ++ [last] ∧
    put_of key failed last ∧
    error last.2 = Some e ∧ is_Some (failed_at last.2) ∧
    JOBS (sink r') !! key = Some last.2 ∧
    calls r' = calls r ∧
    STORAGE (sink r') = STORAGE (sink r) ∧
    dispositions (sink r')
      = dispositions (sink r) ++ [(jobId message, Retry)].
Proof.
  unfold on_failure. intros H.
  step_total H. step_total H.
  match type of H with
  | context [updateJobStatus _ ?j ?st ?ex ?w] =>
      pose proof (updateJobStatus_spec j st ex w) as (HJ & HH & HS & HD & HW);
      remember (updateJobStatus toISOString j st ex w) as w1 eqn:Hw1
  end.
  apply bind_inv in H as (rk & ok & Hk & H).
  apply notify_failed_frame in Hk as (-> & Kc & KJ & KH & KS & KD).
  unfold act, on_sink in H. injection H as <- <-.
  cbn [sink calls] in *. eexists (_, _).
  cbn [dispose kv_history JOBS STORAGE dispositions].
  split_and!.
  - rewrite KH. exact HH.
  - done.
  - done.
  - by eexists.
  - rewrite KJ, HJ. apply lookup_insert_eq.
  - done.
  - rewrite KS. exact HS.
  - rewrite KD. by rewrite HD.
Qed.

Lemma process_message_spec message r :
  delivery_post provider latency JSON_stringify message r
    (process message r).1.
Proof.
  unfold process_message, try_catch.
  destruct (attempt _ _ _ _ _ message r) as [r1 o1] eqn:Hatt.
  apply attempt_spec in Hatt as (first & middle & new & Hf & Hm & Hc & Hpost).
  destruct o1 as [[] | e].
  - destruct Hpost as (last & res & Hh & Hl & Hcur & Hful & Hsto & Hdis).
    exists first, middle, last, new. cbn [fst].
    split_and!; try done; [apply Hl |].
    left. split_and!; [apply Hl | done | by exists res | done].
  - destruct Hpost as (Hh & _ & Hsto & Hdis & Hwhy).
    destruct (on_failure _ _ message e r1) as [r2 o2] eqn:Hfail.
    apply on_failure_spec in Hfail
      as (last & Lh & Ll & Le & Lf & Lcur & Lc & Ls & Ld).
    exists first, middle, last, new. cbn [fst].
    split_and!.
    + rewrite Lh, Hh. by rewrite <- !app_assoc.
    + done.
    + done.
    + apply Ll.
    + done.
    + by rewrite Lc.
    + right. exists e. split_and!.
      * apply Ll.
      * done.
      * done.
      * by rewrite Ls.
      * by rewrite Ld, Hdis.
      * done.
Qed.

End ConsumerFacts.

(** * The ingress *)

Section IngressFacts.

Variable is_url : string → bool.
Variable toISOString : nat → string.

Lemma rejected_both {A B} (a : Parsed A) (b : Parsed B) :
  rejected (both a b) = rejected a || rejected b.
Proof. by destruct a, b. Qed.

Lemma rejected_pmap {A B} (f : A → B) (a : Parsed A) :
  rejected (pmap f a) = rejected a.
Proof. by destruct a. Qed.

Lemma rejected_inl {A} (a : Parsed A) :
  rejected a = true → ∃ issues, a = inl issues.
Proof. destruct a; [by eauto | done]. Qed.

Lemma document_long_rejected path s :
  (100000 < Z.of_nat (String.length s))%Z →
  rejected (z_string_min_max 1 100000 path (Some (JString s))) = true.
Proof.
  intros Hlen. unfold z_string_min_max, z_string.
  destruct (Z.of_nat (String.length s) <? 1)%Z eqn:Hs; [lia |].
  assert ((100000 <? Z.of_nat (String.length s))%Z = true) as ->
    by by apply Z.ltb_lt.
  done.
Qed.

Lemma roleInstructions_missing path ri :
  member "CTO" ri = None ∨ member "CPO" ri = None ∨
  member "COO" ri = None ∨ member "CISO" ri = None ∨
  member "CEO" ri = None →
  rejected (roleInstructionsSchema path (Some (JObject ri))) = true.
Proof.
  unfold roleInstructionsSchema, z_object.
  rewrite rejected_pmap, !rejected_both.
  intros [H | [H | [H | [H | H]]]]; rewrite H; cbn [z_string rejected];
    by rewrite ?orb_true_r.
Qed.

Lemma config_missing path members :
  missing_config_field members →
  rejected (configSchema path (member "config" members)) = true.
Proof.
  unfold missing_config_field, configSchema, z_object.
  destruct (member "config" members) as [[| | | | | c] |]; try done.
  rewrite rejected_pmap, !rejected_both.
  intros [H | [H | [H | H]]].
  - rewrite H. cbn [z_string rejected]. by rewrite ?orb_true_r.
  - rewrite H. cbn [z_string rejected]. by rewrite ?orb_true_r.
  - rewrite H. cbn [z_string rejected]. by rewrite ?orb_true_r.
  - destruct (member "custom_role_instructions" c) as [[| | | | | ri] |];
      try done.
    + rewrite roleInstructions_missing by done. by rewrite ?orb_true_r.
    + cbn [roleInstructionsSchema z_object rejected]. by rewrite ?orb_true_r.
Qed.

Lemma webhook_malformed path u :
  is_url u = false →
  rejected (z_optional_url is_url path (Some (JString u))) = true.
Proof. intros H. unfold z_optional_url, z_string. by rewrite H. Qed.

(** Each of the listed failures makes the schema report issues. *)
Lemma listed_failure_rejected body :
  listed_failure is_url body →
  rejected (reviewRequestSchema is_url body) = true.
Proof.
  intros (members & -> & Hcase).
  unfold reviewRequestSchema, z_object.
  rewrite rejected_pmap, !rejected_both.
  destruct Hcase as [H | [(s & H & Hlen) | [H | (u & H & Hu)]]].
  - by rewrite H.
  - rewrite H, document_long_rejected by done. done.
  - rewrite config_missing by done. by rewrite ?orb_true_r.
  - rewrite H, webhook_malformed by done. by rewrite ?orb_true_r.
Qed.

(** A rejected body changes nothing. *)
Lemma post_review_rejected body uuid w :
  rejected (reviewRequestSchema is_url body) = true →
  ∃ issues,
    post_review is_url toISOString (inr body) uuid w
    = (w, InvalidRequest issues).
Proof.
  intros (issues & H)%rejected_inl. exists issues.
  unfold post_review. by rewrite H.
Qed.

(** An accepted body creates the two blobs, the status record and the
    queue message of the new job, and touches no other key. *)
Lemma post_review_accepted body uuid w validated :
  reviewRequestSchema is_url body = inr validated →
  let w' := (post_review is_url toISOString (inr body) uuid w).1 in
  STORAGE w' !! document_key uuid = Some (DocumentBlob (document validated)) ∧
  STORAGE w' !! config_key uuid = Some (ConfigBlob (config validated)) ∧
  (∃ j, JOBS w' !! job_key uuid = Some j ∧ status j = queued) ∧
  (∃ m, REVIEW_QUEUE w' = REVIEW_QUEUE w ++ [m] ∧ jobId m = uuid) ∧
  ∀ k, k ≠ job_key uuid → JOBS w' !! k = JOBS w !! k.
Proof.
  intros H. unfold post_review. rewrite H. cbn.
  split_and!.
  - rewrite lookup_insert_ne; [apply lookup_insert_eq |].
    unfold config_key, document_key. intros [=].
  - apply lookup_insert_eq.
  - eexists. split; [apply lookup_insert_eq | done].
  - by eexists.
  - intros k Hk. by rewrite lookup_insert_ne.
Qed.


End IngressFacts.

(** * The claims about the router *)

Section RouterClaims.

Import JsStringFacts.

Lemma extract_no_questions_iff records targetRole :
  extractDirectedQuestions records targetRole = no_questions
  ↔ captured_questions records targetRole = [].
Proof.
  rewrite extract_unfold.
  destruct (captured_questions records targetRole) as [|q qs] eqn:Hc;
    [done |].
  split; [| done]. intros Hj.
  destruct (join_From (nl +:+ nl) q qs) as [rest Hrest].
  { apply (captured_From records targetRole). rewrite Hc. left. }
  rewrite Hrest in Hj. discriminate Hj.
Qed.



(** The direction of C1 that holds: a reviewer role for which
    [extractDirectedQuestions] returns something other than the sentinel is
    in the set [getExecutivesWithQuestions] returns. *)
Lemma extracted_role_in_set (records : list StageResponse) (r : Role) :
  extractDirectedQuestions records (role_name r) ≠ no_questions →
  r ∈ getExecutivesWithQuestions records.
Proof.
  rewrite extract_no_questions_iff. apply extracted_role_is_addressed.
Qed.

End RouterClaims.

(** The scenario of a question from one role to another: the addressee is
    in the set, and the question is extracted with its attribution. *)
Example directed_question_scenario :
  getExecutivesWithQuestions
    [mkStageResponse "CPO" "Question to CTO: will this scale?";
     mkStageResponse "COO" "Nothing to ask."] = [CTO]
  ∧ extractDirectedQuestions
      [mkStageResponse "CPO" "Question to CTO: will this scale?";
       mkStageResponse "COO" "Nothing to ask."] "CTO"
    = "From CPO: Question to CTO: will this scale?".
Proof. split; vm_compute; reflexivity. Qed.

(** C1 (the code departs from the claim).  The two functions do not agree
    on which roles have a directed question: for the single stage-2 record
    of CPO whose text is a bare mention of the CTO, without a colon after the
    role, [getExecutivesWithQuestions] returns the set holding CTO while
    [extractDirectedQuestions] for CTO returns the sentinel.  Only the
    direction from extraction to membership holds
    ([extracted_role_in_set]). *)
Theorem bare_mention_in_set_but_not_extracted :
  getExecutivesWithQuestions
    [mkStageResponse "CPO" "@CTO please confirm the capacity plan"] = [CTO]
  ∧ extractDirectedQuestions
      [mkStageResponse "CPO" "@CTO please confirm the capacity plan"]
      (role_name CTO)
    = no_questions.
Proof. split; vm_compute; reflexivity. Qed.

(** * The claims about the deliberation engine *)

#[local] Instance role_name_inj : Inj (=) (=) role_name.
Proof. intros [] [] H; done. Qed.

Lemma role_names : role_name <$> ROLES = ["CPO"; "CTO"; "COO"; "CISO"].
Proof. reflexivity. Qed.

Lemma roles_at_most_four (l : list Role) : NoDup l → length l ≤ 4.
Proof.
  intros Hl. change 4 with (length ROLES).
  apply submseteq_length, NoDup_submseteq; [done |].
  intros x _. apply all_roles.
Qed.

(** C4.  In the result of every successful run the stage-1 and stage-2
    arrays hold one record per reviewer role, in the order CPO, CTO, COO,
    CISO, whatever the latencies of the concurrent calls, that is whatever
    the order in which they complete; and the same result is obtained under
    any other completion order. *)
Theorem stage_arrays_in_role_order
    (provider : nat → Provider → string → string → Q → ProviderReply)
    (latency : nat → nat → nat) {S : Type} (config : Config)
    (documentContent : string)
    (cb : option (string → string → S → S * Outcome unit))
    (r r' : Run S) (res : ReviewResult) :
  reviewDocument provider latency config documentContent cb r
    = (r', Fulfilled res) →
  role <$> stage1 res = ["CPO"; "CTO"; "COO"; "CISO"]
  ∧ role <$> stage2 res = ["CPO"; "CTO"; "COO"; "CISO"]
  ∧ length (stage1 res) = 4 ∧ length (stage2 res) = 4
  ∧ ∀ latency' : nat → nat → nat,
      reviewDocument provider latency' config documentContent cb r
      = (r', Fulfilled res).
Proof.
  intros Hrun.
  pose proof (reviewDocument_spec _ _ _ _ _ _ _ _ Hrun)
    as (new & _ & _ & R1 & R2 & _).
  rewrite role_names in R1, R2. split_and!; [done | done | | |].
  - by rewrite <- (length_fmap role), R1.
  - by rewrite <- (length_fmap role), R2.
  - intros latency'. by eapply reviewDocument_any_latency.
Qed.

Lemma stage_arrays_in_role_order_witness :
  role <$> stage1 (result_of (ex_review provider_asking).2)
    = ["CPO"; "CTO"; "COO"; "CISO"]
  ∧ role <$> stage2 (result_of (ex_review provider_asking).2)
    = ["CPO"; "CTO"; "COO"; "CISO"]
  ∧ length (stage1 (result_of (ex_review provider_asking).2)) = 4
  ∧ length (stage2 (result_of (ex_review provider_asking).2)) = 4
  ∧ ∀ latency' : nat → nat → nat,
      reviewDocument provider_asking latency' ex_config "Launch plan." None
        (mkRun tt [])
      = ((ex_review provider_asking).1,
         Fulfilled (result_of (ex_review provider_asking).2)).
Proof.
  apply (stage_arrays_in_role_order provider_asking ex_latency ex_config
           "Launch plan." None (mkRun tt [])
           (ex_review provider_asking).1).
  vm_compute. reflexivity.
Defined.

(** C10.  In the result of every successful run the stage-3 array holds at
    most one record per role, every role in it is one of the four reviewer
    roles CPO, CTO, COO and CISO and none is the synthesizer role CEO, and
    so it has at most four entries. *)
Theorem stage3_roles_distinct_reviewers
    (provider : nat → Provider → string → string → Q → ProviderReply)
    (latency : nat → nat → nat) {S : Type} (config : Config)
    (documentContent : string)
    (cb : option (string → string → S → S * Outcome unit))
    (r r' : Run S) (res : ReviewResult) :
  reviewDocument provider latency config documentContent cb r
    = (r', Fulfilled res) →
  NoDup (role <$> stage3 res)
  ∧ (∀ name, name ∈ (role <$> stage3 res) →
       name ∈ ["CPO"; "CTO"; "COO"; "CISO"])
  ∧ ("CEO" ∉ (role <$> stage3 res))
  ∧ length (stage3 res) ≤ 4.
Proof.
  intros (new & _ & _ & _ & _ & R3 & _)%reviewDocument_spec.
  pose proof (NoDup_getExecutives (stage2 res)) as Hnd.
  assert (∀ name, name ∈ (role <$> stage3 res) →
            name ∈ ["CPO"; "CTO"; "COO"; "CISO"]) as Hin.
  { intros name. rewrite R3. intros (x & -> & _)%list_elem_of_fmap.
    rewrite <- role_names. apply list_elem_of_fmap_2, all_roles. }
  split_and!.
  - rewrite R3. apply (NoDup_fmap_2 role_name). exact Hnd.
  - exact Hin.
  - intros Hceo%Hin.
    repeat (apply elem_of_cons in Hceo as [Hceo | Hceo]; [discriminate Hceo |]).
    by apply elem_of_nil in Hceo.
  - rewrite <- (length_fmap role), R3, length_fmap.
    by apply roles_at_most_four.
Qed.

Lemma stage3_roles_distinct_reviewers_witness :
  NoDup (role <$> stage3 (result_of (ex_review provider_asking).2))
  ∧ (∀ name,
       name ∈ (role <$> stage3 (result_of (ex_review provider_asking).2)) →
       name ∈ ["CPO"; "CTO"; "COO"; "CISO"])
  ∧ ("CEO" ∉ (role <$> stage3 (result_of (ex_review provider_asking).2)))
  ∧ length (stage3 (result_of (ex_review provider_asking).2)) ≤ 4.
Proof.
  apply (stage3_roles_distinct_reviewers provider_asking ex_latency ex_config
           "Launch plan." None (mkRun tt [])
           (ex_review provider_asking).1).
  vm_compute. reflexivity.
Defined.

(** * The claims about the queue consumer and the ingress *)


(** The same holds of a job that is [completed]. *)
Example redelivery_reopens_completed_job :
  status <$> JOBS (sink ex_recovered) !! job_key "job-1" = Some completed
  ∧ head ((fun p => status p.2) <$>
          drop (length (kv_history (sink ex_recovered)))
            (kv_history
               (sink (process_message provider_plain ex_latency ex_clock
                        ex_webhooks ex_stringify ex_message ex_recovered).1)))
    = Some processing.
Proof. split; vm_compute; reflexivity. Qed.

(** The record of the example job after a failed and then a successful
    attempt: completed, and still carrying the error of the first attempt. *)
Example completed_job_keeps_old_error :
  ∃ u,
    JOBS (sink ex_recovered) !! job_key "job-1" = Some u ∧
    status u = completed ∧
    error u = Some "OpenAI API error (503): overloaded" ∧
    is_Some (failed_at u) ∧ is_Some (completed_at u).
Proof.
  eexists. split; [vm_compute; reflexivity |].
  split_and!; try (vm_compute; reflexivity); by eexists.
Qed.

(** C8.  A submission that fails validation, be it by an empty document, a
    document of more than 100000 characters, a missing configuration field,
    a malformed webhook URL or any other issue the schema reports, is
    answered at once with status 400 and the issues, and leaves the world as
    it was: no document blob, no configuration blob, no status record and no
    queue message is created. *)
Theorem invalid_submission_creates_nothing
    (is_url : string → bool) (toISOString : nat → string)
    (body : json) (uuid : string) (w : World) :
  listed_failure is_url body
  ∨ rejected (reviewRequestSchema is_url body) = true →
  ∃ issues,
    post_review is_url toISOString (inr body) uuid w
    = (w, InvalidRequest issues) ∧
    http_status (InvalidRequest issues) = 400 ∧
    STORAGE (post_review is_url toISOString (inr body) uuid w).1
    = STORAGE w ∧
    JOBS (post_review is_url toISOString (inr body) uuid w).1 = JOBS w ∧
    REVIEW_QUEUE (post_review is_url toISOString (inr body) uuid w).1
    = REVIEW_QUEUE w.
Proof.
  intros H.
  assert (rejected (reviewRequestSchema is_url body) = true) as Hrej.
  { destruct H as [H | H]; [by apply listed_failure_rejected | done]. }
  destruct (post_review_rejected is_url toISOString body uuid w Hrej)
    as [issues Hpost].
  exists issues. rewrite Hpost. done.
Qed.

Lemma invalid_submission_creates_nothing_witness :
  ∃ issues,
    post_review ex_is_url ex_clock (inr ex_empty_body) "job-2" ex_submitted
    = (ex_submitted, InvalidRequest issues) ∧
    http_status (InvalidRequest issues) = 400 ∧
    STORAGE (post_review ex_is_url ex_clock (inr ex_empty_body) "job-2"
               ex_submitted).1
    = STORAGE ex_submitted ∧
    JOBS (post_review ex_is_url ex_clock (inr ex_empty_body) "job-2"
            ex_submitted).1 = JOBS ex_submitted ∧
    REVIEW_QUEUE (post_review ex_is_url ex_clock (inr ex_empty_body) "job-2"
                    ex_submitted).1
    = REVIEW_QUEUE ex_submitted.
Proof.
  apply (invalid_submission_creates_nothing ex_is_url ex_clock ex_empty_body
           "job-2" ex_submitted).
  left. eexists. split; [reflexivity |]. left. reflexivity.
Defined.

(** * Further properties of the code *)

(** * Further properties of the router *)

Section RouterMore.

Import JsStringFacts.

Lemma filter_ext_in {A} (P1 P2 : A → Prop)
    `{!∀ x, Decision (P1 x), !∀ x, Decision (P2 x)} (l : list A) :
  (∀ x, x ∈ l → P1 x ↔ P2 x) → filter P1 l = filter P2 l.
Proof.
  induction l as [|x l IH]; intros Hext; [done |].
  rewrite !filter_cons.
  rewrite IH by (intros y Hy; apply Hext; by right).
  pose proof (Hext x (ltac:(left))) as Hx.
  destruct (decide (P1 x)), (decide (P2 x)); tauto.
Qed.

Lemma add_addressed_filter (resp : StageResponse) (roles set : list Role) :
  NoDup roles →
  add_addressed resp roles set
  = set ++ filter (fun r => addresses resp r = true ∧ r ∉ set) roles.
Proof.
  unfold add_addressed. rewrite or_else_empty.
  change (fun p => includes (toUpperCase (response resp)) p)
    with (includes (toUpperCase (response resp))).
  revert set. induction roles as [|r roles IH]; intros set Hnd;
    cbn [fold_left].
  - by rewrite filter_nil, app_nil_r.
  - apply NoDup_cons in Hnd as [Hr Hnd].
    rewrite IH by done. rewrite filter_cons.
    change (existsb (includes (toUpperCase (response resp))) (addressPatterns r))
      with (addresses resp r).
    destruct (addresses resp r) eqn:Ha.
    + unfold set_add. destruct (decide (r ∈ set)) as [Hin | Hnin].
      * rewrite decide_False by tauto. done.
      * rewrite decide_True by done. rewrite <- app_assoc. f_equal.
        cbn [app]. f_equal. apply filter_ext_in.
        intros x Hx. rewrite elem_of_app, list_elem_of_singleton.
        assert (x ≠ r) by (intros ->; done). tauto.
    + rewrite decide_False by (intros [? _]; done). done.
Qed.

(** X1.  [getExecutivesWithQuestions] builds its set record by record: the
    set of a list extended by one record is the set of the list followed by
    those of CPO, CTO, COO, CISO, in this order, that the new record
    addresses and that are not in the set yet.  So the set has no
    duplicates, and a role is in it exactly when the upper-cased text of
    some record contains one of the role's four patterns. *)
Theorem addressed_roles_record_by_record
    (records : list StageResponse) (resp : StageResponse) :
  getExecutivesWithQuestions (records ++ [resp])
  = getExecutivesWithQuestions records
    ++ filter (fun r => addresses resp r = true
                        ∧ r ∉ getExecutivesWithQuestions records) ROLES
  ∧ NoDup (getExecutivesWithQuestions (records ++ [resp]))
  ∧ ∀ r, r ∈ getExecutivesWithQuestions records
         ↔ ∃ record p, record ∈ records ∧ p ∈ addressPatterns r
                       ∧ includes (toUpperCase (response record)) p = true.
Proof.
  split_and!.
  - rewrite !getExecutives_fold, fold_left_app. cbn [fold_left].
    apply add_addressed_filter.
    apply (bool_decide_unpack _). reflexivity.
  - apply NoDup_getExecutives.
  - intros r. rewrite elem_of_getExecutives. unfold addresses. split.
    + intros (record & Hin & (p & Hp & Hinc)%existsb_exists).
      exists record, p. split_and!; [done | by apply list_elem_of_In | done].
    + intros (record & p & Hin & Hp & Hinc). exists record. split; [done |].
      apply existsb_exists. exists p. split; [by apply list_elem_of_In | done].
Qed.

(** ** Letter case *)

Lemma upper_char_newline (c : ascii) :
  Ascii.eqb (upper_char c) newline = Ascii.eqb c newline.
Proof. destruct c as [[] [] [] [] [] [] [] []]; reflexivity. Qed.

Lemma upper_char_idem (c : ascii) : upper_char (upper_char c) = upper_char c.
Proof. destruct c as [[] [] [] [] [] [] [] []]; reflexivity. Qed.

Lemma upper_char_not_sharp_s (c : ascii) :
  Ascii.eqb c sharp_s = false → Ascii.eqb (upper_char c) sharp_s = false.
Proof. destruct c as [[] [] [] [] [] [] [] []]; done. Qed.

Lemma toUpperCase_idem (s : string) :
  toUpperCase (toUpperCase s) = toUpperCase s.
Proof.
  induction s as [|c s IH]; simpl; [done |].
  destruct (Ascii.eqb c sharp_s) eqn:Hc; simpl.
  - by rewrite IH.
  - by rewrite upper_char_not_sharp_s, upper_char_idem, IH.
Qed.

(** The lines of the upper-cased text are the upper-cased lines. *)
Lemma split_toUpperCase (s : string) :
  split newline (toUpperCase s) = toUpperCase <$> split newline s.
Proof.
  induction s as [|c s IH]; simpl; [done |].
  pose proof (split_nonempty newline s).
  destruct (Ascii.eqb c sharp_s) eqn:Hc; simpl.
  - apply Ascii.eqb_eq in Hc as ->.
    change (Ascii.eqb sharp_s newline) with false. cbn iota.
    rewrite IH. destruct (split newline s) as [|l ls]; [done |].
    rewrite !fmap_cons. cbn [toUpperCase]. by rewrite Ascii.eqb_refl.
  - rewrite upper_char_newline, IH.
    destruct (Ascii.eqb c newline); [done |].
    destruct (split newline s) as [|l ls]; [done |].
    rewrite !fmap_cons. cbn [toUpperCase]. by rewrite Hc.
Qed.

(** A record is silent for a target role when none of its lines contains a
    pattern of the role; this depends on the upper-cased text alone. *)
Lemma silent_upper (resp : StageResponse) (targetRole : string) :
  (∀ line p, line ∈ split newline (response resp) →
             p ∈ targetPatterns targetRole →
             includes (toUpperCase line) (toUpperCase p) = false)
  ↔ (∀ upper p, upper ∈ split newline (toUpperCase (response resp)) →
                p ∈ targetPatterns targetRole →
                includes upper (toUpperCase p) = false).
Proof.
  rewrite split_toUpperCase. split.
  - intros H upper p (line & -> & Hline)%list_elem_of_fmap Hp. by apply H.
  - intros H line p Hline Hp. apply H; [| done].
    apply list_elem_of_fmap. by exists line.
Qed.

Lemma captured_nil_Forall records targetRole :
  captured_questions records targetRole = []
  ↔ Forall (fun resp =>
       ∀ upper p, upper ∈ split newline (toUpperCase (response resp)) →
                  p ∈ targetPatterns targetRole →
                  includes upper (toUpperCase p) = false) records.
Proof.
  rewrite captured_nil, Forall_forall. split.
  - intros H resp Hin. apply silent_upper. intros line p. by apply H.
  - intros H resp line p Hin. by apply silent_upper, H.
Qed.

Lemma targetPatterns_upper (t : string) :
  toUpperCase <$> targetPatterns (toUpperCase t)
  = toUpperCase <$> targetPatterns t.
Proof.
  unfold targetPatterns. cbn [fmap list_fmap].
  by rewrite !toUpperCase_app, toUpperCase_idem.
Qed.

Lemma add_addressed_upper (a b : StageResponse) roles set :
  toUpperCase (response a) = toUpperCase (response b) →
  add_addressed a roles set = add_addressed b roles set.
Proof.
  intros H. unfold add_addressed. by rewrite !or_else_empty, H.
Qed.

(** X2.  The router ignores letter case.  Text is a sequence of the
    characters U+0000 to U+00FF and [toUpperCase] is the JavaScript case
    mapping on them, under which the sharp s and SS agree.  Two lists of
    records whose texts have, record by record, the same upper-case form give
    the same set of addressed roles, and a target role has a directed
    question in the one exactly when it has one in the other; a target role
    and its upper-case form have a directed question in the same lists. *)
Theorem router_ignores_letter_case
    (records1 records2 : list StageResponse) (targetRole : string) :
  Forall2 (fun a b => toUpperCase (response a) = toUpperCase (response b))
    records1 records2 →
  getExecutivesWithQuestions records1 = getExecutivesWithQuestions records2
  ∧ (extractDirectedQuestions records1 targetRole = no_questions
     ↔ extractDirectedQuestions records2 targetRole = no_questions)
  ∧ (extractDirectedQuestions records1 (toUpperCase targetRole) = no_questions
     ↔ extractDirectedQuestions records1 targetRole = no_questions).
Proof.
  intros H. split_and!.
  - rewrite !getExecutives_fold.
    assert (∀ set,
      fold_left (fun set resp => add_addressed resp [CPO; CTO; COO; CISO] set)
        records1 set
      = fold_left (fun set resp => add_addressed resp [CPO; CTO; COO; CISO] set)
          records2 set) as Hfold; [| apply Hfold].
    induction H as [|a b l1 l2 Hab _ IH]; intros set; cbn [fold_left];
      [done |].
    rewrite (add_addressed_upper a b _ _ Hab). apply IH.
  - rewrite !extract_no_questions_iff, !captured_nil_Forall.
    induction H as [|a b l1 l2 Hab _ IH]; [done |].
    rewrite !Forall_cons, IH, Hab. done.
  - rewrite !extract_no_questions_iff, !captured_nil_Forall.
    apply Forall_proper; [| done]. intros resp.
    assert (∀ t upper,
      (∀ p, p ∈ targetPatterns t → includes upper (toUpperCase p) = false)
      ↔ (∀ q, q ∈ toUpperCase <$> targetPatterns t → includes upper q = false))
      as Hq.
    { intros t upper. split.
      - intros Hp q (p & -> & Hin)%list_elem_of_fmap. by apply Hp.
      - intros Hp p Hin. apply Hp, list_elem_of_fmap. by exists p. }
    split; intros Hs upper p Hu Hp.
    + revert p Hp. apply Hq. rewrite <- targetPatterns_upper. apply Hq.
      intros p Hp. by apply Hs.
    + revert p Hp. apply Hq. rewrite targetPatterns_upper. apply Hq.
      intros p Hp. by apply Hs.
Qed.

End RouterMore.

Lemma router_ignores_letter_case_witness :
  getExecutivesWithQuestions [mkStageResponse "CPO" "question to cto: why?"]
  = getExecutivesWithQuestions [mkStageResponse "CPO" "Question To CTO: why?"]
  ∧ (extractDirectedQuestions
       [mkStageResponse "CPO" "question to cto: why?"] "cto" = no_questions
     ↔ extractDirectedQuestions
         [mkStageResponse "CPO" "Question To CTO: why?"] "cto" = no_questions)
  ∧ (extractDirectedQuestions
       [mkStageResponse "CPO" "question to cto: why?"] (toUpperCase "cto")
     = no_questions
     ↔ extractDirectedQuestions
         [mkStageResponse "CPO" "question to cto: why?"] "cto" = no_questions).
Proof.
  apply (router_ignores_letter_case
           [mkStageResponse "CPO" "question to cto: why?"]
           [mkStageResponse "CPO" "Question To CTO: why?"] "cto").
  repeat constructor.
Defined.

(** * The prompts *)

Section Prompts.

Import JsStringFacts.

Lemma has_char_app (c : ascii) (a b : string) :
  has_char c (a +:+ b) = has_char c a || has_char c b.
Proof.
  induction a as [|d a IH]; simpl; [done |].
  by rewrite IH, orb_assoc.
Qed.

Lemma plain_spec (s : string) :
  plain s = true ↔ has_char "$" s = false ∧ has_char "{" s = false.
Proof.
  unfold plain. rewrite andb_true_iff, !negb_true_iff. done.
Qed.

(** A replacement text without a dollar sign is put in as it is. *)
Lemma getSubstitution_plain (matched before after repl : string) :
  has_char "$" repl = false →
  getSubstitution matched before after repl = repl.
Proof.
  induction repl as [|c repl IH]; [done |].
  cbn [has_char getSubstitution]. intros [Hc Hr]%orb_false_iff.
  rewrite Hc. f_equal. by apply IH.
Qed.

Lemma take_chars_app (pre s : string) :
  take_chars (String.length pre) (pre +:+ s) = pre.
Proof. induction pre as [|c pre IH]; simpl; [by destruct s | by f_equal]. Qed.

(** A text that starts somewhere inside [pre] starts with a character of
    [pre]. *)
Lemma drop_inside (c : ascii) (n : nat) (pre s : string) :
  n < String.length pre → has_char c pre = false →
  ∃ d tail, drop_chars n (pre +:+ s) = String d tail ∧ Ascii.eqb d c = false.
Proof.
  revert pre. induction n as [|n IH]; intros [|d pre]; simpl;
    try (intros; lia).
  - intros _ [Hd _]%orb_false_iff. by exists d, (pre +:+ s).
  - intros Hn [_ Hp]%orb_false_iff. apply IH; [lia | done].
Qed.

(** Replacing a placeholder that is not preceded by an opening brace. *)
Lemma replace_first (pre pat' repl post : string) :
  has_char "{" pre = false → has_char "$" repl = false →
  replace (pre +:+ (String "{" pat' +:+ post)) (String "{" pat') repl
  = pre +:+ (repl +:+ post).
Proof.
  intros Hpre Hrepl. set (pat := String "{"%char pat').
  unfold replace.
  assert (includes (pre +:+ (pat +:+ post)) pat = true) as Hinc.
  { apply includes_spec. by exists pre, post. }
  rewrite Hinc.
  destruct (indexOf_spec _ _ Hinc) as (n & -> & _ & Hat & Hmin).
  rewrite Nat2Z.id.
  assert (n = String.length pre) as ->.
  { destruct (Nat.lt_trichotomy n (String.length pre)) as [Hlt | [-> | Hgt]].
    - destruct (drop_inside "{" n pre (pat +:+ post) Hlt Hpre)
        as (d & tail & Hd & Hne).
      rewrite Hd in Hat. subst pat. cbn [startsWith] in Hat.
      rewrite Ascii.eqb_sym, Hne in Hat. done.
    - done.
    - specialize (Hmin _ Hgt). rewrite drop_chars_app in Hmin.
      assert (startsWith (pat +:+ post) pat = true) as Hs
        by (apply startsWith_spec; by exists post).
      congruence. }
  rewrite take_chars_app, getSubstitution_plain by done.
  f_equal. f_equal.
  rewrite <- append_assoc, <- length_append. apply drop_chars_app.
Qed.

(** One replacement of a chain: the text read so far is [acc], the rest of
    the template is a literal in which the placeholder is looked up. *)
Ltac fill_step :=
  match goal with
  | |- context [replace (?acc +:+ ?rest) ?pat ?v] =>
      let n := eval vm_compute in (Z.to_nat (indexOf rest pat)) in
      let mid := eval vm_compute in (take_chars n rest) in
      let post :=
        eval vm_compute in (drop_chars (n + String.length pat) rest) in
      change (replace (acc +:+ rest) pat v)
        with (replace (acc +:+ (mid +:+ (pat +:+ post))) pat v);
      rewrite <- (append_assoc acc mid (pat +:+ post));
      rewrite (replace_first (acc +:+ mid) _ v post);
      [ rewrite <- (append_assoc (acc +:+ mid) v post)
      | rewrite ?has_char_app, ?orb_false_iff; repeat split;
        first [assumption | reflexivity]
      | assumption ]
  end.

Ltac start_chain template :=
  let t := eval vm_compute in template in
  change template with (EmptyString +:+ t).

Ltac finish_chain :=
  rewrite !append_assoc; vm_compute; reflexivity.


(** X3.  When the texts put into a prompt hold no dollar sign and no
    opening brace, each prompt is its template with every placeholder
    replaced by the text meant for it and nothing else changed: the chain of
    first-occurrence replacements comes to one simultaneous substitution. *)
Theorem prompts_fill_their_templates
    (config : Config) (documentContent stage1Text stage2Text stage3Text
       questions : string) (r : Role) :
  plain (instructions_for (custom_role_instructions config) r) = true →
  plain (operational_context config) = true →
  plain documentContent = true →
  plain stage1Text = true → plain stage2Text = true →
  plain stage3Text = true → plain questions = true →
  stage1Prompt config documentContent r
  = fill [("role_instructions",
           instructions_for (custom_role_instructions config) r);
          ("operational_context", operational_context config);
          ("document_content", documentContent);
          ("role", role_name r)] STAGE1_PROMPT
  ∧ stage2Prompt config stage1Text r
    = fill [("role_instructions",
             instructions_for (custom_role_instructions config) r);
            ("operational_context", operational_context config);
            ("stage1_text", stage1Text)] STAGE2_PROMPT
  ∧ stage3Prompt config stage1Text questions r
    = fill [("role_instructions",
             instructions_for (custom_role_instructions config) r);
            ("operational_context", operational_context config);
            ("stage1_text", stage1Text);
            ("directed_questions", questions)] STAGE3_PROMPT
  ∧ synthesisPrompt config documentContent stage1Text stage2Text stage3Text
    = fill [("operational_context", operational_context config);
            ("document_content", documentContent);
            ("stage1_text", stage1Text);
            ("stage2_text", stage2Text);
            ("stage3_text", stage3Text)] STAGE4_PROMPT.
Proof.
  intros [Di Bi]%plain_spec [Dc Bc]%plain_spec [Dd Bd]%plain_spec
    [D1 B1]%plain_spec [D2 B2]%plain_spec [D3 B3]%plain_spec
    [Dq Bq]%plain_spec.
  unfold stage1Prompt, stage2Prompt, stage3Prompt, synthesisPrompt.
  generalize dependent (instructions_for (custom_role_instructions config) r).
  intros instructions Di Bi.
  generalize dependent (operational_context config). intros context Dc Bc.
  split_and!.
  - destruct r; cbn [role_name];
      match goal with
      | |- context [replace STAGE1_PROMPT ?pat ?v] =>
          start_chain (replace STAGE1_PROMPT pat v)
      end;
      do 3 fill_step; finish_chain.
  - start_chain STAGE2_PROMPT.
    do 3 fill_step. finish_chain.
  - start_chain STAGE3_PROMPT.
    do 4 fill_step. finish_chain.
  - start_chain STAGE4_PROMPT.
    do 5 fill_step. finish_chain.
Qed.

End Prompts.

Lemma prompts_fill_their_templates_witness :
  stage1Prompt ex_config "Launch plan." CTO
  = fill [("role_instructions", "Be the CTO.");
          ("operational_context", "A small company.");
          ("document_content", "Launch plan.");
          ("role", "CTO")] STAGE1_PROMPT
  ∧ stage2Prompt ex_config "### CPO" CTO
    = fill [("role_instructions", "Be the CTO.");
            ("operational_context", "A small company.");
            ("stage1_text", "### CPO")] STAGE2_PROMPT
  ∧ stage3Prompt ex_config "### CPO" "From CPO: @CTO: why?" CTO
    = fill [("role_instructions", "Be the CTO.");
            ("operational_context", "A small company.");
            ("stage1_text", "### CPO");
            ("directed_questions", "From CPO: @CTO: why?")] STAGE3_PROMPT
  ∧ synthesisPrompt ex_config "Launch plan." "### CPO" "### CTO"
      "No responses required."
    = fill [("operational_context", "A small company.");
            ("document_content", "Launch plan.");
            ("stage1_text", "### CPO");
            ("stage2_text", "### CTO");
            ("stage3_text", "No responses required.")] STAGE4_PROMPT.
Proof.
  apply (prompts_fill_their_templates ex_config "Launch plan." "### CPO"
           "### CTO" "No responses required." "From CPO: @CTO: why?" CTO);
    reflexivity.
Defined.

(** Without the condition the chain and the substitution part: a document
    that holds the placeholder of the stage-1 text receives the text meant
    for the template's own placeholder, which stays unfilled; and a dollar
    sign followed by an ampersand in the document brings the placeholder
    back. *)
Example placeholder_in_document_is_filled_first :
  includes
    (synthesisPrompt ex_config "See {stage1_text}." "REVIEWS" "Q" "A")
    "See REVIEWS." = true
  ∧ includes
      (synthesisPrompt ex_config "See {stage1_text}." "REVIEWS" "Q" "A")
      "Executive Reviews (Stage 1):
{stage1_text}" = true
  ∧ includes (synthesisPrompt ex_config "Costs $&." "REVIEWS" "Q" "A")
      "Costs {document_content}." = true.
Proof. split_and!; vm_compute; reflexivity. Qed.

Example fill_sample :
  fill [("a", "1"); ("b", "{a}")] "x{a}y{b}{c}{a}" = "x1y{a}{c}1".
Proof. reflexivity. Qed.

(** * Formatting of the stage records *)

Section Formatting.

Import JsStringFacts.

Lemma join_app (sep : string) (a b : list string) :
  a ≠ [] → b ≠ [] →
  join sep (a ++ b) = join sep a +:+ sep +:+ join sep b.
Proof.
  intros Ha Hb. induction a as [|x a IH]; [done |].
  destruct a as [|y a].
  - cbn [app]. by rewrite join_cons.
  - change ((x :: y :: a) ++ b) with (x :: ((y :: a) ++ b)).
    rewrite join_cons by done. rewrite IH by done.
    rewrite (join_cons sep x (y :: a)) by done.
    by rewrite !append_assoc.
Qed.

(** X4.  The formatters of the stage records work record by record, in the
    order of the list: the text of one record is its block (a heading with
    the role, then the response), and the text of a list made of two
    non-empty parts is the texts of the parts with the separator between
    them, a rule for stage 1 and a line break for stage 2.  The text put in
    place of the stage-3 placeholder is never empty, and it is the sentinel
    exactly when there is no stage-3 record. *)
Theorem formatters_work_record_by_record
    (a b : list StageResponse) (resp : StageResponse) :
  a ≠ [] → b ≠ [] →
  formatStage1Responses [resp] = format_block resp
  ∧ formatStage2Responses [resp] = format_block resp
  ∧ formatStage1Responses (a ++ b)
    = formatStage1Responses a +:+ (nl +:+ "---" +:+ nl)
      +:+ formatStage1Responses b
  ∧ formatStage2Responses (a ++ b)
    = formatStage2Responses a +:+ nl +:+ formatStage2Responses b
  ∧ stage3Text a ≠ "" ∧ stage3Text a ≠ no_responses
  ∧ stage3Text [] = no_responses.
Proof.
  intros Ha Hb.
  assert (∀ l : list StageResponse, l ≠ [] → map format_block l ≠ [])
    as Hmap by (intros [|x l]; done).
  split_and!; try done.
  - unfold formatStage1Responses. rewrite map_app. by apply join_app; apply Hmap.
  - unfold formatStage2Responses. rewrite map_app. by apply join_app; apply Hmap.
  - destruct a as [|x a]; [done |]. unfold stage3Text, formatStage2Responses.
    cbn [length Nat.ltb Nat.leb map]. by destruct a.
  - destruct a as [|x a]; [done |]. unfold stage3Text, formatStage2Responses.
    cbn [length Nat.ltb Nat.leb map]. by destruct a.
Qed.

End Formatting.

Lemma formatters_work_record_by_record_witness :
  formatStage1Responses [mkStageResponse "COO" "Fine."]
  = format_block (mkStageResponse "COO" "Fine.")
  ∧ formatStage2Responses [mkStageResponse "COO" "Fine."]
    = format_block (mkStageResponse "COO" "Fine.")
  ∧ formatStage1Responses
      ([mkStageResponse "CPO" "Good."] ++ [mkStageResponse "" "Risky."])
    = formatStage1Responses [mkStageResponse "CPO" "Good."]
      +:+ (nl +:+ "---" +:+ nl)
      +:+ formatStage1Responses [mkStageResponse "" "Risky."]
  ∧ formatStage2Responses
      ([mkStageResponse "CPO" "Good."] ++ [mkStageResponse "" "Risky."])
    = formatStage2Responses [mkStageResponse "CPO" "Good."] +:+ nl
      +:+ formatStage2Responses [mkStageResponse "" "Risky."]
  ∧ stage3Text [mkStageResponse "CPO" "Good."] ≠ ""
  ∧ stage3Text [mkStageResponse "CPO" "Good."] ≠ no_responses
  ∧ stage3Text [] = no_responses.
Proof.
  apply (formatters_work_record_by_record [mkStageResponse "CPO" "Good."]
           [mkStageResponse "" "Risky."] (mkStageResponse "COO" "Fine."));
    discriminate.
Defined.

(** * The generation client *)

Section Client.

Variable provider : nat → Provider → string → string → Q → ProviderReply.

Lemma query_unknown n prompt model temperature :
  known_provider model = false →
  query provider n prompt model temperature
  = Rejected ("Unknown model provider: " +:+ model).
Proof.
  unfold known_provider, query.
  intros [[-> ->]%orb_false_iff ->]%orb_false_iff. done.
Qed.

Lemma query_known_reply n prompt model temperature :
  known_provider model = true →
  (∀ n p m pr t, ∃ content, provider n p m pr t = Reply content) →
  ∃ content, query provider n prompt model temperature = Fulfilled content.
Proof.
  unfold known_provider, query, queryOpenRouter, queryAnthropic, queryOpenAI,
    exchange.
  intros Hk Hreply.
  destruct (startsWith model "openrouter:");
    [| destruct (startsWith model "anthropic:");
       [| destruct (startsWith model "openai:"); [| done]]];
    match goal with
    | |- context [provider ?a ?b ?c ?d ?e] =>
        destruct (Hreply a b c d e) as [content ->]
    end; by eexists.
Qed.

(** X5.  [LLMClient.query] chooses the provider by the prefix of the model
    id and sends it the model id without that prefix; its outcome is the
    reply of that provider, or an error naming the provider, the status and
    the body when the provider answers with an error status.  A model id
    with none of the three prefixes is rejected and no provider is
    contacted. *)
Theorem query_dispatches_on_prefix
    (n : nat) (prompt name model : string) (temperature : Q) :
  query provider n prompt ("openrouter:" +:+ name) temperature
  = exchange provider n OpenRouter name prompt temperature
  ∧ query provider n prompt ("anthropic:" +:+ name) temperature
    = exchange provider n Anthropic name prompt temperature
  ∧ query provider n prompt ("openai:" +:+ name) temperature
    = exchange provider n OpenAI name prompt temperature
  ∧ (∀ status errorText,
       provider n OpenAI name prompt temperature
       = ErrorStatus status errorText →
       query provider n prompt ("openai:" +:+ name) temperature
       = Rejected ("OpenAI API error (" +:+ status +:+ "): " +:+ errorText))
  ∧ (known_provider model = false →
     query provider n prompt model temperature
     = Rejected ("Unknown model provider: " +:+ model)).
Proof.
  split_and!.
  - reflexivity.
  - reflexivity.
  - reflexivity.
  - intros status errorText H.
    change (query provider n prompt ("openai:" +:+ name) temperature)
      with (exchange provider n OpenAI name prompt temperature).
    unfold exchange. by rewrite H.
  - apply query_unknown.
Qed.

End Client.

(** * Runs of the engine: success, failure and progress *)

Section EngineMore.

Variable provider : nat → Provider → string → string → Q → ProviderReply.
Variable latency : nat → nat → nat.
Context {S : Type}.

Implicit Types (cb : option (string → string → S → S * Outcome unit))
  (r : Run S).

(** X6.  A run can succeed only with model ids the client knows: if
    [reviewDocument] returns a result, the executive model id and the CEO
    model id both begin with one of the prefixes [openrouter:],
    [anthropic:], [openai:]. *)
Theorem success_needs_known_models config documentContent cb r r' res :
  reviewDocument provider latency config documentContent cb r
    = (r', Fulfilled res) →
  known_provider (executive_model config) = true
  ∧ known_provider (ceo_model config) = true.
Proof.
  intros (new & _ & _ & _ & _ & _ & Hful & Hnew)%reviewDocument_spec.
  assert (∀ c, c ∈ new → known_provider (call_model c) = true) as Hknown.
  { intros c (i & Hi)%list_elem_of_lookup_1. specialize (Hful i c Hi).
    destruct (known_provider (call_model c)) eqn:Hk; [done |].
    unfold call_outcome in Hful. rewrite query_unknown in Hful by done.
    discriminate Hful. }
  split.
  - apply (Hknown (mkLlmCall 1 (stage1Prompt config documentContent CPO)
                     (executive_model config) 0.7)).
    rewrite Hnew. apply elem_of_app. left. unfold ROLES. left.
  - apply (Hknown (synthesis_call config documentContent res)).
    rewrite Hnew, !elem_of_app. do 3 right. left.
Qed.

Lemma successful_run_call_count config documentContent cb r r' res :
  reviewDocument provider latency config documentContent cb r
    = (r', Fulfilled res) →
  length (calls r') = length (calls r) + 9 + length (stage3 res)
  ∧ length (stage3 res) = length (getExecutivesWithQuestions (stage2 res))
  ∧ length (stage3 res) ≤ 4.
Proof.
  intros (new & [Hcalls _] & _ & _ & _ & R3 & _ & Hnew)%reviewDocument_spec.
  assert (length (stage3 res)
          = length (getExecutivesWithQuestions (stage2 res))) as Hlen
    by (by rewrite <- (length_fmap role), R3, length_fmap).
  split_and!.
  - rewrite Hcalls, Hnew, !length_app, !length_fmap, Hlen. cbn [length ROLES].
    lia.
  - done.
  - rewrite Hlen. apply roles_at_most_four, NoDup_getExecutives.
Qed.

Lemma review_succeeds config documentContent cb r :
  known_provider (executive_model config) = true →
  known_provider (ceo_model config) = true →
  (∀ n p m pr t, ∃ content, provider n p m pr t = Reply content) →
  (∀ e, ¬ callback_rejects cb e) →
  ∃ r' res,
    reviewDocument provider latency config documentContent cb r
      = (r', Fulfilled res).
Proof.
  intros Hexec Hceo Hreply Hcb.
  destruct (reviewDocument provider latency config documentContent cb r)
    as [r' [res | e]] eqn:Hrun; [by eauto |].
  exfalso.
  apply reviewDocument_spec in Hrun as (new & _ & Hconf & [Hrej | Hrej]).
  - destruct Hrej as (i & c & Hi & Ho).
    rewrite Forall_lookup in Hconf. specialize (Hconf i c Hi).
    unfold call_outcome in Ho.
    assert (known_provider (call_model c) = true) as Hk.
    { destruct Hconf as [(_ & -> & _) | [(_ & -> & _) | [(_ & -> & _) | (_ & -> & _)]]];
        done. }
    destruct (query_known_reply provider (length (calls r) + i)
                (call_prompt c) (call_model c) (call_temperature c) Hk Hreply)
      as [content Hq].
    congruence.
  - by apply Hcb in Hrej.
Qed.

(** X7.  When every call to a provider is answered with a reply, the two
    model ids are known to the client and the progress callback does not
    reject, [reviewDocument] returns a result; the run has made four calls in
    stage 1, four in stage 2, one per stage-3 record and one in stage 4, so
    between nine and thirteen. *)
Theorem review_succeeds_when_providers_reply config documentContent cb r :
  known_provider (executive_model config) = true →
  known_provider (ceo_model config) = true →
  (∀ n p m pr t, ∃ content, provider n p m pr t = Reply content) →
  (∀ e, ¬ callback_rejects cb e) →
  ∃ r' res,
    reviewDocument provider latency config documentContent cb r
      = (r', Fulfilled res)
    ∧ length (calls r') = length (calls r) + 9 + length (stage3 res)
    ∧ length (stage3 res) ≤ 4.
Proof.
  intros Hexec Hceo Hreply Hcb.
  destruct (review_succeeds config documentContent cb r Hexec Hceo Hreply Hcb)
    as (r' & res & Hrun).
  exists r', res. split; [done |].
  by destruct (successful_run_call_count _ _ _ _ _ _ Hrun) as (? & _ & ?).
Qed.

(** With a progress callback that does not reject, every callback of a
    stage logs its call. *)
Lemma run_all_ask_calls cb site stageName model temperature prompt roles r r'
    outs :
  (∀ e, ¬ callback_rejects cb e) →
  run_all (map (ask provider cb site stageName model temperature prompt) roles)
    r = (r', outs) →
  calls r'
  = calls r
    ++ ((fun role_ => mkLlmCall site (prompt role_) model temperature)
          <$> roles)
  ∧ length outs = length roles
  ∧ ∀ o, o ∈ outs →
      ∃ n role_,
        o = match query provider n (prompt role_) model temperature with
            | Fulfilled text =>
                Fulfilled (mkStageResponse (role_name role_) text)
            | Rejected e => Rejected e
            end.
Proof.
  intros Hcb. revert r r' outs.
  induction roles as [|role_ roles IH]; intros r r' outs; cbn [run_all map].
  - intros [= <- <-]. split_and!; [by rewrite app_nil_r | done |].
    by intros o ?%elem_of_nil.
  - destruct (ask provider cb _ _ _ _ _ role_ r) as [r1 o] eqn:Hask.
    destruct (run_all _ r1) as [r2 os] eqn:Hrest.
    intros [= <- <-].
    destruct (IH _ _ _ Hrest) as (Hc2 & Hl2 & Ho2).
    apply ask_spec in Hask as [[_ (e & _ & Hrej)] | [[Hc1 _] Ho]];
      [by apply Hcb in Hrej |].
    split_and!.
    + rewrite Hc2, Hc1, <- app_assoc. done.
    + cbn [length]. by rewrite Hl2.
    + intros o' [-> | Hin]%elem_of_cons; [| by apply Ho2].
      by exists (length (calls r)), role_.
Qed.

(** X8.  With an executive model id the client does not know (and a
    progress callback that does not reject), a run is rejected in stage 1
    with the message "Unknown model provider: " followed by the id, whatever
    the providers would answer; the four stage-1 calls are the only ones it
    has made. *)
Theorem unknown_executive_model_rejects config documentContent cb r :
  known_provider (executive_model config) = false →
  (∀ e, ¬ callback_rejects cb e) →
  (reviewDocument provider latency config documentContent cb r).2
  = Rejected ("Unknown model provider: " +:+ executive_model config)
  ∧ calls (reviewDocument provider latency config documentContent cb r).1
    = calls r
      ++ ((fun role_ =>
             mkLlmCall 1 (stage1Prompt config documentContent role_)
               (executive_model config) 0.7) <$> ROLES).
Proof.
  intros Hk Hcb.
  destruct (reviewDocument provider latency config documentContent cb r)
    as [r' o] eqn:Hrun.
  cbn [fst snd]. unfold reviewDocument in Hrun.
  apply bind_inv in Hrun as (ra & oa & Ha & Hrun).
  apply report_spec in Ha as [[Hca _] Ra].
  destruct oa as [[] | e]; [| exfalso; by apply (Hcb e), Ra].
  rewrite app_nil_r in Hca.
  apply bind_inv in Hrun as (rb & ob & Hb & Hrun).
  unfold await_all in Hb.
  destruct (run_all _ ra) as [rb' outs] eqn:Hall.
  injection Hb as -> <-.
  apply run_all_ask_calls in Hall as (Hcb' & Hlen & Houts); [| done].
  assert (∀ out, out ∈ outs →
            out = Rejected ("Unknown model provider: " +:+ executive_model config))
    as Hrejected.
  { intros out (n & role_ & ->)%Houts. by rewrite query_unknown. }
  destruct (promise_all (latency 1) outs) as [vs | e] eqn:Hp.
  - apply promise_all_Fulfilled_iff in Hp as ->.
    destruct vs as [|v vs]; [done |].
    specialize (Hrejected (Fulfilled v) (ltac:(left))). done.
  - destruct Hrun as [-> ->].
    apply promise_all_Rejected, Hrejected in Hp. injection Hp as ->.
    split; [done |]. by rewrite Hcb', Hca.
Qed.

(** *** The reports of a successful run *)

Lemma report_Fulfilled_sink f stageName step r r' :
  report (Some f) stageName step r = (r', Fulfilled tt) →
  sink r' = fire f (sink r) (stageName, step).
Proof.
  unfold report, on_sink, fire. cbn [fst snd].
  destruct (f stageName step (sink r)) as [s' o']. by intros [= <- _].
Qed.

Lemma ask_Fulfilled_sink f site stageName model temperature prompt role_ r r'
    v :
  ask provider (Some f) site stageName model temperature prompt role_ r
    = (r', Fulfilled v) →
  sink r' = fire f (sink r) (querying stageName role_).
Proof.
  unfold ask. intros (r1 & [] & Hrep & H)%bind_Fulfilled_inv.
  apply report_Fulfilled_sink in Hrep.
  apply bind_Fulfilled_inv in H as (r2 & text & Hq & H).
  unfold llm_query in Hq. injection Hq as <- _.
  unfold ret in H. injection H as <- _. done.
Qed.

Lemma run_all_Fulfilled_sink f site stageName model temperature prompt roles
    r r' vs :
  run_all
    (map (ask provider (Some f) site stageName model temperature prompt) roles)
    r = (r', Fulfilled <$> vs) →
  sink r' = foldl (fire f) (sink r) (querying stageName <$> roles).
Proof.
  revert r vs. induction roles as [|role_ roles IH]; intros r vs;
    cbn [run_all map].
  - by intros [= <- _].
  - destruct (ask provider _ _ _ _ _ _ role_ r) as [r1 o] eqn:Hask.
    destruct (run_all _ r1) as [r2 os] eqn:Hrest.
    intros [= <- Houts]. destruct vs as [|v vs]; [done |].
    injection Houts as -> ->.
    apply ask_Fulfilled_sink in Hask. apply IH in Hrest.
    cbn [fmap list_fmap foldl]. by rewrite <- Hask.
Qed.

Lemma await_all_Fulfilled_sink lat f site stageName model temperature prompt
    roles r r' vs :
  await_all lat
    (map (ask provider (Some f) site stageName model temperature prompt) roles)
    r = (r', Fulfilled vs) →
  sink r' = foldl (fire f) (sink r) (querying stageName <$> roles).
Proof.
  unfold await_all. destruct (run_all _ r) as [r1 outs] eqn:Hrun.
  intros [= <- Hp]. apply promise_all_Fulfilled_iff in Hp as ->.
  by eapply run_all_Fulfilled_sink.
Qed.

Lemma reviewDocument_reports config documentContent f r r' res :
  reviewDocument provider latency config documentContent (Some f) r
    = (r', Fulfilled res) →
  sink r'
  = foldl (fire f) (sink r)
      (reported_steps (getExecutivesWithQuestions (stage2 res))).
Proof.
  intros H.
  unfold reviewDocument in H.
  apply bind_Fulfilled_inv in H as (ra & [] & Ha & H).
  apply report_Fulfilled_sink in Ha.
  apply bind_Fulfilled_inv in H as (rb & s1 & Hb & H).
  apply await_all_Fulfilled_sink in Hb.
  apply bind_Fulfilled_inv in H as (rc & [] & Hc & H).
  apply report_Fulfilled_sink in Hc.
  apply bind_Fulfilled_inv in H as (rd & s2 & Hd & H).
  apply await_all_Fulfilled_sink in Hd.
  apply bind_Fulfilled_inv in H as (re & s3 & He & H).
  apply bind_Fulfilled_inv in H as (rf & [] & Hf & H).
  apply report_Fulfilled_sink in Hf.
  apply bind_Fulfilled_inv in H as (rg & text & Hg & H).
  unfold llm_query in Hg. injection Hg as <- _. cbn [sink] in *.
  apply bind_Fulfilled_inv in H as (rh & [] & Hh & H).
  apply report_Fulfilled_sink in Hh. cbn [sink] in Hh.
  unfold ret in H. injection H as <- <-. cbn [stage2].
  assert (sink re
          = foldl (fire f) (sink rd)
              (if (0 <? length (getExecutivesWithQuestions s2))%nat
               then ("stage3", "Starting question responses")
                      :: (querying "stage3"
                            <$> getExecutivesWithQuestions s2)
               else [("stage3", "No directed questions - skipping")]))
    as H3.
  { destruct (0 <? length (getExecutivesWithQuestions s2))%nat.
    - apply bind_Fulfilled_inv in He as (rx & [] & Hx & He).
      apply report_Fulfilled_sink in Hx.
      apply await_all_Fulfilled_sink in He. cbn [foldl]. by rewrite <- Hx.
    - apply bind_Fulfilled_inv in He as (rx & [] & Hx & He).
      apply report_Fulfilled_sink in Hx.
      unfold ret in He. injection He as <- _. done. }
  unfold reported_steps. rewrite !foldl_app. cbn [foldl].
  by rewrite <- Ha, <- Hb, <- Hc, <- Hd, <- H3, <- Hf.
Qed.

Lemma reported_steps_count (addressed : list Role) :
  length (reported_steps addressed) = 13 + length addressed
  ∧ last (reported_steps addressed) = Some ("stage4", "Synthesis complete").
Proof.
  unfold reported_steps. split.
  - rewrite !length_app, !length_fmap. unfold ROLES.
    destruct addressed as [|x l]; cbn [length Nat.ltb Nat.leb];
      rewrite ?length_fmap; cbn [length]; lia.
  - rewrite !app_assoc.
    change [("stage4", "Starting CEO synthesis");
            ("stage4", "Synthesis complete")]
      with ([("stage4", "Starting CEO synthesis")]
            ++ [("stage4", "Synthesis complete")]).
    rewrite app_assoc. apply last_snoc.
Qed.

(** X9.  In a successful run the progress callback has been called with
    these reports, in this order when the callbacks of a stage run in role
    order: the start of stage 1 and "Querying" for each of the four roles,
    the same for stage 2, then either the start of stage 3 and "Querying"
    for each role with questions or the note that stage 3 is skipped, then
    the start of the synthesis and last "Synthesis complete".  The sink
    state the run ends in is the one these calls lead to. *)
Theorem successful_run_reports_every_step config documentContent f r r' res :
  reviewDocument provider latency config documentContent (Some f) r
    = (r', Fulfilled res) →
  sink r'
  = foldl (fire f) (sink r)
      (reported_steps (getExecutivesWithQuestions (stage2 res)))
  ∧ last (reported_steps (getExecutivesWithQuestions (stage2 res)))
    = Some ("stage4", "Synthesis complete").
Proof.
  intros H. split; [by eapply reviewDocument_reports |].
  apply reported_steps_count.
Qed.

(** X10.  No directed question is lost between the stages: in a successful
    run, every reviewer role for which the stage-2 records hold a directed
    question (one that [extractDirectedQuestions] extracts) has a stage-3
    record in the result, and the run has made a stage-3 call for that role
    whose prompt is built from these questions. *)
Theorem extracted_questions_are_answered config documentContent cb r r' res
    (ro : Role) :
  reviewDocument provider latency config documentContent cb r
    = (r', Fulfilled res) →
  extractDirectedQuestions (stage2 res) (role_name ro) ≠ no_questions →
  role_name ro ∈ (role <$> stage3 res)
  ∧ mkLlmCall 3
      (stage3Prompt config (formatStage1Responses (stage1 res))
         (extractDirectedQuestions (stage2 res) (role_name ro)) ro)
      (executive_model config) 0.7 ∈ calls r'.
Proof.
  intros (new & [Hcalls _] & _ & _ & _ & R3 & _ & Hnew)%reviewDocument_spec
    Hq.
  assert (ro ∈ getExecutivesWithQuestions (stage2 res)) as Hin.
  { apply extracted_role_is_addressed.
    by rewrite <- extract_no_questions_iff. }
  split.
  - rewrite R3. by apply list_elem_of_fmap_2.
  - rewrite Hcalls, Hnew, !elem_of_app. right. right. right. left.
    by apply (list_elem_of_fmap_2
                (fun role_ =>
                   mkLlmCall 3
                     (stage3Prompt config (formatStage1Responses (stage1 res))
                        (extractDirectedQuestions (stage2 res)
                           (role_name role_)) role_)
                     (executive_model config) 0.7)).
Qed.

End EngineMore.

Lemma success_needs_known_models_witness :
  known_provider (executive_model ex_config) = true
  ∧ known_provider (ceo_model ex_config) = true.
Proof.
  apply (success_needs_known_models provider_plain ex_latency ex_config
           "Launch plan." None (mkRun tt []) (ex_review provider_plain).1
           (result_of (ex_review provider_plain).2)).
  vm_compute. reflexivity.
Defined.

Lemma review_succeeds_when_providers_reply_witness :
  ∃ r' res,
    reviewDocument provider_plain ex_latency ex_config "Launch plan." None
      (mkRun tt []) = (r', Fulfilled res)
    ∧ length (calls r') = length (calls (mkRun tt [])) + 9 + length (stage3 res)
    ∧ length (stage3 res) ≤ 4.
Proof.
  apply (review_succeeds_when_providers_reply provider_plain ex_latency
           ex_config "Launch plan." None (mkRun tt [])).
  - reflexivity.
  - reflexivity.
  - intros n p m pr t. by eexists.
  - intros e (f & stage_ & step_ & s & Hf & _). discriminate Hf.
Defined.

Lemma unknown_executive_model_rejects_witness :
  (reviewDocument provider_plain ex_latency ex_config_unprefixed
     "Launch plan." None (mkRun tt [])).2
  = Rejected ("Unknown model provider: "
              +:+ executive_model ex_config_unprefixed)
  ∧ calls (reviewDocument provider_plain ex_latency ex_config_unprefixed
             "Launch plan." None (mkRun tt [])).1
    = calls (mkRun tt [])
      ++ ((fun role_ =>
             mkLlmCall 1 (stage1Prompt ex_config_unprefixed "Launch plan." role_)
               (executive_model ex_config_unprefixed) 0.7) <$> ROLES).
Proof.
  apply (unknown_executive_model_rejects provider_plain ex_latency
           ex_config_unprefixed "Launch plan." None (mkRun tt [])).
  - reflexivity.
  - intros e (f & stage_ & step_ & s & Hf & _). discriminate Hf.
Defined.

Lemma successful_run_reports_every_step_witness :
  sink ex_logged_review.1
  = foldl (fire ex_logger) []
      (reported_steps
         (getExecutivesWithQuestions (stage2 (result_of ex_logged_review.2))))
  ∧ last (reported_steps
            (getExecutivesWithQuestions
               (stage2 (result_of ex_logged_review.2))))
    = Some ("stage4", "Synthesis complete").
Proof.
  apply (successful_run_reports_every_step provider_asking ex_latency
           ex_config "Launch plan." ex_logger (mkRun [] [])
           ex_logged_review.1 (result_of ex_logged_review.2)).
  vm_compute. reflexivity.
Defined.

(** The reports of the example run, as the logging callback received
    them. *)
Example reports_of_the_example_run :
  sink ex_logged_review.1
  = [("stage1", "Starting independent reviews");
     ("stage1", "Querying CPO"); ("stage1", "Querying CTO");
     ("stage1", "Querying COO"); ("stage1", "Querying CISO");
     ("stage2", "Starting cross-domain questions");
     ("stage2", "Querying CPO"); ("stage2", "Querying CTO");
     ("stage2", "Querying COO"); ("stage2", "Querying CISO");
     ("stage3", "Starting question responses");
     ("stage3", "Querying CTO"); ("stage3", "Querying CISO");
     ("stage4", "Starting CEO synthesis"); ("stage4", "Synthesis complete")].
Proof. vm_compute. reflexivity. Qed.

Lemma extracted_questions_are_answered_witness :
  role_name CTO ∈ (role <$> stage3 (result_of (ex_review provider_asking).2))
  ∧ mkLlmCall 3
      (stage3Prompt ex_config
         (formatStage1Responses
            (stage1 (result_of (ex_review provider_asking).2)))
         (extractDirectedQuestions
            (stage2 (result_of (ex_review provider_asking).2)) (role_name CTO))
         CTO)
      (executive_model ex_config) 0.7 ∈ calls (ex_review provider_asking).1.
Proof.
  apply (extracted_questions_are_answered provider_asking ex_latency ex_config
           "Launch plan." None (mkRun tt []) (ex_review provider_asking).1
           (result_of (ex_review provider_asking).2) CTO).
  - vm_compute. reflexivity.
  - vm_compute. discriminate.
Defined.

(** * Deliveries of the queue consumer *)

Section ConsumerMore.

Variable provider : nat → Provider → string → string → Q → ProviderReply.
Variable latency : nat → nat → nat.
Variable toISOString : nat → string.
Variable webhook_delivers : nat → string → bool.
Variable JSON_stringify : Blob → string.

Abbreviation deliver :=
  (process_message provider latency toISOString webhook_delivers
     JSON_stringify).

(** *** The pieces of a delivery *)

Lemma started_spec message w :
  let w' := started toISOString message w in
  let u := merged_status (JOBS w !! job_key (jobId message)) (jobId message)
             processing (toISOString (Datatypes.S (clock w)))
             (mkPartial None None None (Some (toISOString (clock w))) None
                None None None None) in
  JOBS w' = <[job_key (jobId message) := u]> (JOBS w) ∧
  kv_history w' = kv_history w ++ [(job_key (jobId message), u)] ∧
  STORAGE w' = STORAGE w ∧
  dispositions w' = dispositions w ∧
  webhook_posts w' = webhook_posts w.
Proof. apply (updateJobStatus_spec toISOString _ _ _ (tick w)). Qed.

(** The webhook call of a completed job: one POST when the message carries
    a URL, whose failure is swallowed. *)
Lemma notify_completed_eq jobId url w cs :
  notify_completed toISOString webhook_delivers jobId url (mkRun w cs)
  = (mkRun
       (match truthy url with
        | Some u =>
            record_post
              (mkWebhookPost u jobId completed (toISOString (clock w)) None
                 (Some ("/api/result/" +:+ jobId)))
              (tick w)
        | None => w
        end) cs,
     Fulfilled tt).
Proof.
  unfold notify_completed. destruct (truthy url) as [u|]; [| done].
  unfold try_catch, bind, now, fetch_webhook, on_sink, ret. cbn [sink calls].
  match goal with
  | |- context [webhook_delivers ?n ?v] => destruct (webhook_delivers n v)
  end; by try destruct a.
Qed.

Lemma notify_failed_eq jobId url e w cs :
  notify_failed toISOString webhook_delivers jobId url e (mkRun w cs)
  = (mkRun
       (match truthy url with
        | Some u =>
            record_post
              (mkWebhookPost u jobId failed (toISOString (clock w)) (Some e)
                 None)
              (tick w)
        | None => w
        end) cs,
     Fulfilled tt).
Proof.
  unfold notify_failed. destruct (truthy url) as [u|]; [| done].
  unfold try_catch, bind, now, fetch_webhook, on_sink, ret. cbn [sink calls].
  match goal with
  | |- context [webhook_delivers ?n ?v] => destruct (webhook_delivers n v)
  end; by try destruct a.
Qed.

(** The [try] block, by the blobs it finds and the outcome of the review. *)
Lemma attempt_eq message r :
  attempt provider latency toISOString webhook_delivers JSON_stringify message r
  = match STORAGE (sink r) !! documentKey message,
          STORAGE (sink r) !! configKey message with
    | Some d, Some (ConfigBlob config) =>
        match reviewDocument provider latency config
                (blob_text JSON_stringify d)
                (Some (progressCallback (jobId message)))
                (mkRun (started toISOString message (sink r)) (calls r)) with
        | (rf, Fulfilled res) =>
            (mkRun (finished toISOString webhook_delivers message res (sink rf))
               (calls rf), Fulfilled tt)
        | (rf, Rejected e) => (rf, Rejected e)
        end
    | Some d, Some _ =>
        (mkRun (started toISOString message (sink r)) (calls r),
         Rejected "Stored config is not a configuration object")
    | _, _ =>
        (mkRun (started toISOString message (sink r)) (calls r),
         Rejected ("Document or config not found for job " +:+ jobId message))
    end.
Proof.
  unfold attempt, bind at 1 2 3 4, now at 1, act at 1, r2_get, on_sink.
  cbn [sink calls].
  change (updateJobStatus toISOString (jobId message) processing _ _)
    with (started toISOString message (sink r)).
  destruct (started_spec message (sink r)) as (_ & _ & -> & _).
  destruct (STORAGE (sink r) !! documentKey message) as [d|]; [| by destruct (STORAGE (sink r) !! configKey message)].
  destruct (STORAGE (sink r) !! configKey message) as [[text | config | result] |];
    [done | | done | done].
  unfold bind, blob_config, ret.
  destruct (reviewDocument _ _ _ _ _ _) as [rf [res | e]]; [| done].
  unfold now, act, on_sink. cbn [sink calls].
  destruct rf as [wf cf]. cbn [sink calls].
  rewrite notify_completed_eq. unfold finished.
  cbn [sink calls fst]. rewrite notify_completed_eq. done.
Qed.

Lemma on_failure_eq message e r :
  on_failure toISOString webhook_delivers message e r
  = (mkRun (gave_up toISOString webhook_delivers message e (sink r)) (calls r),
     Fulfilled tt).
Proof.
  unfold on_failure, bind, now, act, on_sink. cbn [sink calls].
  rewrite notify_failed_eq. unfold gave_up. by rewrite notify_failed_eq.
Qed.

Lemma finished_spec message res w :
  let j := jobId message in
  let w' := finished toISOString webhook_delivers message res w in
  ∃ t at_,
    let u := merged_status (JOBS w !! job_key j) j completed t
               (mkPartial None None None None
                  (Some (toISOString (Datatypes.S (clock w)))) None None None
                  None) in
    JOBS w' = <[job_key j := u]> (JOBS w) ∧
    kv_history w' = kv_history w ++ [(job_key j, u)] ∧
    STORAGE w' = <[result_key j := ResultBlob res]> (STORAGE w) ∧
    dispositions w' = dispositions w ++ [(j, Ack)] ∧
    webhook_posts w' = webhook_posts w ++ webhook_of message completed at_ None ∧
    REVIEW_QUEUE w' = REVIEW_QUEUE w.
Proof.
  intros j w'. subst w'. unfold finished. rewrite notify_completed_eq.
  cbn [fst sink]. fold j.
  match goal with
  | |- context [updateJobStatus _ j ?st ?ex ?w0] =>
      pose proof (updateJobStatus_spec toISOString j st ex w0)
        as (HJ & HH & HS & HD & HW);
      assert (REVIEW_QUEUE (updateJobStatus toISOString j st ex w0)
              = REVIEW_QUEUE w0) as HQ
        by (unfold updateJobStatus; by destruct (needs_now _));
      remember (updateJobStatus toISOString j st ex w0) as w2 eqn:Hw2
  end.
  cbn [tick r2_put JOBS kv_history STORAGE dispositions webhook_posts clock
       REVIEW_QUEUE] in HJ, HH, HS, HD, HW, HQ.
  eexists _, (toISOString (clock w2)). unfold webhook_of.
  destruct (truthy (webhookUrl message)) as [url|];
    cbn [dispose record_post tick JOBS kv_history STORAGE dispositions
         webhook_posts REVIEW_QUEUE];
    rewrite ?app_nil_r; split_and!; try done; try congruence; by rewrite HW.
Qed.

Lemma gave_up_spec message e w :
  let j := jobId message in
  let w' := gave_up toISOString webhook_delivers message e w in
  ∃ t at_,
    let u := merged_status (JOBS w !! job_key j) j failed t
               (mkPartial None None None None None
                  (Some (toISOString (clock w))) (Some e) None None) in
    JOBS w' = <[job_key j := u]> (JOBS w) ∧
    kv_history w' = kv_history w ++ [(job_key j, u)] ∧
    STORAGE w' = STORAGE w ∧
    dispositions w' = dispositions w ++ [(j, Retry)] ∧
    webhook_posts w' = webhook_posts w ++ webhook_of message failed at_ (Some e) ∧
    REVIEW_QUEUE w' = REVIEW_QUEUE w.
Proof.
  intros j w'. subst w'. unfold gave_up. rewrite notify_failed_eq.
  cbn [fst sink]. fold j.
  match goal with
  | |- context [updateJobStatus _ j ?st ?ex ?w0] =>
      pose proof (updateJobStatus_spec toISOString j st ex w0)
        as (HJ & HH & HS & HD & HW);
      assert (REVIEW_QUEUE (updateJobStatus toISOString j st ex w0)
              = REVIEW_QUEUE w0) as HQ
        by (unfold updateJobStatus; by destruct (needs_now _));
      remember (updateJobStatus toISOString j st ex w0) as w2 eqn:Hw2
  end.
  cbn [tick r2_put JOBS kv_history STORAGE dispositions webhook_posts clock
       REVIEW_QUEUE] in HJ, HH, HS, HD, HW, HQ.
  eexists _, (toISOString (clock w2)). unfold webhook_of.
  destruct (truthy (webhookUrl message)) as [url|];
    cbn [dispose record_post tick JOBS kv_history STORAGE dispositions
         webhook_posts REVIEW_QUEUE];
    rewrite ?app_nil_r; split_and!; try done; try congruence; by rewrite HW.
Qed.

(** A delivery, by the blobs it finds and the outcome of the review. *)
Lemma process_message_eq message r :
  deliver message r
  = match attempt provider latency toISOString webhook_delivers JSON_stringify
            message r with
    | (r1, Fulfilled _) => (r1, Fulfilled tt)
    | (r1, Rejected e) =>
        (mkRun (gave_up toISOString webhook_delivers message e (sink r1))
           (calls r1), Fulfilled tt)
    end.
Proof.
  unfold process_message, try_catch.
  destruct (attempt _ _ _ _ _ message r) as [r1 [[] | e]]; [done |].
  apply on_failure_eq.
Qed.

Lemma process_message_total message r : (deliver message r).2 = Fulfilled tt.
Proof.
  rewrite process_message_eq.
  by destruct (attempt _ _ _ _ _ message r) as [r1 [[] | e]].
Qed.

(** *** What the progress updates of a review leave as it was *)

(** *** What the progress updates of a review leave as it was *)

Lemma same_but_progress_refl e : same_but_progress e e.
Proof. by repeat split. Qed.

Lemma same_but_progress_trans e1 e2 e3 :
  same_but_progress e1 e2 → same_but_progress e2 e3 →
  same_but_progress e1 e3.
Proof.
  unfold same_but_progress. intros H1 H2.
  destruct_and!. split_and!; congruence.
Qed.

Lemma updateJobProgress_frame j stage_ step_ w :
  let w' := updateJobProgress j stage_ step_ w in
  STORAGE w' = STORAGE w ∧ dispositions w' = dispositions w ∧
  webhook_posts w' = webhook_posts w ∧ clock w' = clock w ∧
  REVIEW_QUEUE w' = REVIEW_QUEUE w ∧
  (∀ k, k ≠ job_key j → JOBS w' !! k = JOBS w !! k) ∧
  match JOBS w !! job_key j with
  | Some e =>
      ∃ e', JOBS w' !! job_key j = Some e' ∧ same_but_progress e e' ∧
            progress e' = Some (mkProgress stage_ step_) ∧
            kv_history w' = kv_history w ++ [(job_key j, e')]
  | None => w' = w
  end.
Proof.
  unfold updateJobProgress.
  destruct (JOBS w !! job_key j) as [e|] eqn:He; cbn.
  - split_and!; try done.
    + intros k Hk. by rewrite lookup_insert_ne.
    + eexists. split; [apply lookup_insert_eq |]. by repeat split.
  - by split_and!.
Qed.

Lemma progress_steps_frame j w w' :
  rtc (callback_step (Some (progressCallback j))) w w' →
  STORAGE w' = STORAGE w ∧ dispositions w' = dispositions w ∧
  webhook_posts w' = webhook_posts w ∧ clock w' = clock w ∧
  REVIEW_QUEUE w' = REVIEW_QUEUE w ∧
  (∀ k, k ≠ job_key j → JOBS w' !! k = JOBS w !! k) ∧
  (∀ e, JOBS w !! job_key j = Some e →
        ∃ e', JOBS w' !! job_key j = Some e' ∧ same_but_progress e e').
Proof.
  induction 1 as [w | w w1 w' Hstep _ IH].
  - split_and!; try done. intros e He. exists e.
    split; [done | apply same_but_progress_refl].
  - destruct Hstep as (f & stage_ & step_ & [= <-] & ->).
    unfold progressCallback in IH. cbn [fst] in IH.
    pose proof (updateJobProgress_frame j stage_ step_ w)
      as (HS & HD & HW & HC & HQ & HK & HJ).
    destruct IH as (IS & ID & IW & IC & IQ & IK & IJ).
    split_and!; try congruence.
    + intros k Hk. by rewrite IK, HK.
    + intros e He. rewrite He in HJ. destruct HJ as (e1 & H1 & Hsame & _).
      destruct (IJ e1 H1) as (e' & H' & Hsame').
      exists e'. split; [done |]. by eapply same_but_progress_trans.
Qed.

(** The reports of a successful review, written to the status record. *)
Lemma progress_fold j steps w e :
  JOBS w !! job_key j = Some e →
  ∃ e',
    JOBS (foldl (fire (progressCallback j)) w steps) !! job_key j = Some e' ∧
    same_but_progress e e' ∧
    progress e'
    = match last steps with
      | Some s => Some (mkProgress s.1 s.2)
      | None => progress e
      end ∧
    length (kv_history (foldl (fire (progressCallback j)) w steps))
    = length (kv_history w) + length steps.
Proof.
  intros He. induction steps as [|s steps IH] using rev_ind.
  - exists e. cbn. split_and!; [done | apply same_but_progress_refl | done | lia].
  - destruct IH as (e1 & H1 & Hsame & _ & Hlen).
    rewrite foldl_app, last_snoc. cbn [foldl].
    remember (foldl (fire (progressCallback j)) w steps) as wm eqn:Hwm.
    change (fire (progressCallback j) wm s)
      with (updateJobProgress j s.1 s.2 wm).
    pose proof (updateJobProgress_frame j s.1 s.2 wm)
      as (_ & _ & _ & _ & _ & _ & HJ).
    rewrite H1 in HJ. destruct HJ as (e' & H' & Hsame' & Hp & Hh).
    exists e'. split_and!.
    + done.
    + by eapply same_but_progress_trans.
    + done.
    + rewrite Hh, !length_app, Hlen. cbn [length]. lia.
Qed.

(** A delivery goes one of three ways. *)
Lemma delivery_cases message r :
  let w1 := started toISOString message (sink r) in
  (∃ e,
     deliver message r
     = (mkRun (gave_up toISOString webhook_delivers message e w1) (calls r),
        Fulfilled tt) ∧
     ((e = "Document or config not found for job " +:+ jobId message ∧
       (STORAGE (sink r) !! documentKey message = None ∨
        STORAGE (sink r) !! configKey message = None)) ∨
      (e = "Stored config is not a configuration object" ∧
       ∃ d b, STORAGE (sink r) !! documentKey message = Some d ∧
              STORAGE (sink r) !! configKey message = Some b ∧
              ∀ config, b ≠ ConfigBlob config)))
  ∨ (∃ d config rf e,
       STORAGE (sink r) !! documentKey message = Some d ∧
       STORAGE (sink r) !! configKey message = Some (ConfigBlob config) ∧
       reviewDocument provider latency config (blob_text JSON_stringify d)
         (Some (progressCallback (jobId message))) (mkRun w1 (calls r))
       = (rf, Rejected e) ∧
       deliver message r
       = (mkRun (gave_up toISOString webhook_delivers message e (sink rf))
            (calls rf), Fulfilled tt))
  ∨ (∃ d config rf res,
       STORAGE (sink r) !! documentKey message = Some d ∧
       STORAGE (sink r) !! configKey message = Some (ConfigBlob config) ∧
       reviewDocument provider latency config (blob_text JSON_stringify d)
         (Some (progressCallback (jobId message))) (mkRun w1 (calls r))
       = (rf, Fulfilled res) ∧
       deliver message r
       = (mkRun (finished toISOString webhook_delivers message res (sink rf))
            (calls rf), Fulfilled tt)).
Proof.
  intros w1. rewrite process_message_eq, attempt_eq. fold w1.
  destruct (STORAGE (sink r) !! documentKey message) as [d|] eqn:Hd.
  2: { left. eexists. split; [done |]. left. split; [done | by left]. }
  destruct (STORAGE (sink r) !! configKey message) as [[text | config | result] |]
    eqn:Hc.
  - left. eexists. split; [done |]. right. split; [done |]. by eexists _, _.
  - destruct (reviewDocument _ _ _ _ _ _) as [rf [res | e]] eqn:Hrev.
    + right; right. by exists d, config, rf, res.
    + right; left. by exists d, config, rf, e.
  - left. eexists. split; [done |]. right. split; [done |]. by eexists _, _.
  - left. eexists. split; [done |]. left. split; [done | by right].
Qed.

(** The world a review ends in, whatever its outcome. *)
Lemma review_frame config documentText j w cs rf o :
  reviewDocument provider latency config documentText
    (Some (progressCallback j)) (mkRun w cs) = (rf, o) →
  STORAGE (sink rf) = STORAGE w ∧ dispositions (sink rf) = dispositions w ∧
  webhook_posts (sink rf) = webhook_posts w ∧ clock (sink rf) = clock w ∧
  REVIEW_QUEUE (sink rf) = REVIEW_QUEUE w ∧
  (∀ k, k ≠ job_key j → JOBS (sink rf) !! k = JOBS w !! k) ∧
  (∀ e, JOBS w !! job_key j = Some e →
        ∃ e', JOBS (sink rf) !! job_key j = Some e' ∧ same_but_progress e e').
Proof.
  intros (new & [_ Hsteps] & _)%reviewDocument_spec.
  by apply progress_steps_frame.
Qed.

Lemma started_frame message w :
  let w' := started toISOString message w in
  REVIEW_QUEUE w' = REVIEW_QUEUE w ∧
  ∀ k, k ≠ job_key (jobId message) → JOBS w' !! k = JOBS w !! k.
Proof.
  cbn zeta. destruct (started_spec message w) as (HJ & _). split.
  - unfold started, updateJobStatus. by destruct (needs_now _).
  - intros k Hk. by rewrite HJ, lookup_insert_ne.
Qed.

End ConsumerMore.

Lemma finished_any_webhook (toISOString : nat → string)
    (wd1 wd2 : nat → string → bool) message res w :
  finished toISOString wd1 message res w
  = finished toISOString wd2 message res w.
Proof. unfold finished. by rewrite !notify_completed_eq. Qed.

Lemma gave_up_any_webhook (toISOString : nat → string)
    (wd1 wd2 : nat → string → bool) message e w :
  gave_up toISOString wd1 message e w = gave_up toISOString wd2 message e w.
Proof. unfold gave_up. by rewrite !notify_failed_eq. Qed.

Section Deliveries.

Variable provider : nat → Provider → string → string → Q → ProviderReply.
Variable latency : nat → nat → nat.
Variable toISOString : nat → string.
Variable webhook_delivers : nat → string → bool.
Variable JSON_stringify : Blob → string.

Abbreviation delivery :=
  (process_message provider latency toISOString webhook_delivers
     JSON_stringify).

(** X11.  A delivery for a job whose document blob or configuration blob
    is not in the bucket makes no generation call: the job is marked
    processing and then failed with the error "Document or config not found
    for job " followed by the job id (two writes of the status record), the
    bucket is left as it was and the message is given back for a retry. *)
Theorem missing_blob_fails_job message r :
  STORAGE (sink r) !! documentKey message = None
  ∨ STORAGE (sink r) !! configKey message = None →
  ∃ u,
    JOBS (sink (delivery message r).1) !! job_key (jobId message) = Some u ∧
    status u = failed ∧
    error u
    = Some ("Document or config not found for job " +:+ jobId message) ∧
    calls (delivery message r).1 = calls r ∧
    STORAGE (sink (delivery message r).1) = STORAGE (sink r) ∧
    dispositions (sink (delivery message r).1)
    = dispositions (sink r) ++ [(jobId message, Retry)] ∧
    length (kv_history (sink (delivery message r).1))
    = length (kv_history (sink r)) + 2.
Proof.
  intros Hmissing.
  destruct (delivery_cases provider latency toISOString webhook_delivers
              JSON_stringify message r)
    as [(e & -> & Hwhy) | [(d & config & rf & e & Hd & Hc & _)
                          | (d & config & rf & res & Hd & Hc & _)]];
    [| destruct Hmissing; congruence | destruct Hmissing; congruence].
  destruct Hwhy as [[-> _] | (_ & d & b & Hd & Hc & _)];
    [| destruct Hmissing; congruence].
  cbn [fst sink calls].
  destruct (started_spec toISOString message (sink r))
    as (SJ & SH & SS & SD & SW).
  destruct (gave_up_spec toISOString webhook_delivers message
              ("Document or config not found for job " +:+ jobId message)
              (started toISOString message (sink r)))
    as (t & at_ & GJ & GH & GS & GD & GW & GQ).
  eexists. split_and!.
  - rewrite GJ. apply lookup_insert_eq.
  - done.
  - done.
  - done.
  - by rewrite GS, SS.
  - by rewrite GD, SD.
  - rewrite GH, SH, !length_app. cbn [length]. lia.
Qed.

Lemma delivery_disposition message r :
  (delivery message r).2 = Fulfilled tt
  ∧ ∃ d, dispositions (sink (delivery message r).1)
         = dispositions (sink r) ++ [(jobId message, d)].
Proof.
  split; [apply process_message_total |].
  destruct (process_message_spec provider latency toISOString webhook_delivers
              JSON_stringify message r)
    as (first & middle & last & new & _ & _ & _ & _ & _ & _ & Hend).
  destruct Hend as [(_ & _ & _ & Hd) | (e & _ & _ & _ & _ & Hd & _)];
    by eexists.
Qed.

(** The batch handler of the sequential model returns normally and settles
    every message of the batch once, in the order of the batch. *)
Lemma queue_settles_sequential (batch : list QueueMessage) (r : Run World) :
  (queue provider latency toISOString webhook_delivers JSON_stringify batch r).2
  = Fulfilled tt
  ∧ ∃ settled,
      dispositions
        (sink (queue provider latency toISOString webhook_delivers
                 JSON_stringify batch r).1)
      = dispositions (sink r) ++ settled
      ∧ settled.*1 = jobId <$> batch.
Proof.
  revert r. induction batch as [|message batch IH]; intros r.
  - split; [done |]. exists []. by rewrite app_nil_r.
  - cbn [queue]. unfold bind.
    destruct (delivery_disposition message r) as (Ho & d & Hd).
    destruct (process_message _ _ _ _ _ message r) as [r1 o].
    cbn [fst snd] in Ho, Hd. subst o.
    destruct (IH r1) as (Hout & settled & Hs & Hids).
    split; [done |].
    exists ((jobId message, d) :: settled). split.
    + by rewrite Hs, Hd, <- app_assoc.
    + cbn [fmap list_fmap fst]. by rewrite Hids.
Qed.

(** The webhook calls of a delivery in the sequential model. *)
Lemma webhook_once_sequential message r :
  (∃ st at_ err d,
     webhook_posts (sink (delivery message r).1)
     = webhook_posts (sink r) ++ webhook_of message st at_ err ∧
     dispositions (sink (delivery message r).1)
     = dispositions (sink r) ++ [(jobId message, d)] ∧
     ((st = completed ∧ err = None ∧ d = Ack)
      ∨ (st = failed ∧ d = Retry ∧
         ∃ e u, err = Some e ∧
                (job_key (jobId message), u)
                  ∈ kv_history (sink (delivery message r).1) ∧
                status u = failed ∧ error u = Some e)))
  ∧ ∀ webhook_delivers' : nat → string → bool,
      process_message provider latency toISOString webhook_delivers'
        JSON_stringify message r
      = delivery message r.
Proof.
  split.
  - destruct (started_spec toISOString message (sink r))
      as (SJ & SH & SS & SD & SW).
    destruct (delivery_cases provider latency toISOString webhook_delivers
                JSON_stringify message r)
      as [(e & -> & _) | [(d & config & rf & e & _ & _ & Hrev & ->)
                         | (d & config & rf & res & _ & _ & Hrev & ->)]];
      cbn [fst sink calls].
    + destruct (gave_up_spec toISOString webhook_delivers message e
                  (started toISOString message (sink r)))
        as (t & at_ & _ & GH & _ & GD & GW & _).
      eexists failed, at_, (Some e), Retry. split_and!.
      * by rewrite GW, SW.
      * by rewrite GD, SD.
      * right. split_and!; [done | done |]. eexists e, _. split_and!.
        -- done.
        -- rewrite GH. apply elem_of_app. right. left.
        -- done.
        -- done.
    + apply review_frame in Hrev as (_ & RD & RW & _). cbn [sink] in RW, RD.
      destruct (gave_up_spec toISOString webhook_delivers message e (sink rf))
        as (t & at_ & _ & GH & _ & GD & GW & _).
      eexists failed, at_, (Some e), Retry. split_and!.
      * by rewrite GW, RW, SW.
      * by rewrite GD, RD, SD.
      * right. split_and!; [done | done |]. eexists e, _. split_and!.
        -- done.
        -- rewrite GH. apply elem_of_app. right. left.
        -- done.
        -- done.
    + apply review_frame in Hrev as (_ & RD & RW & _). cbn [sink] in RW, RD.
      destruct (finished_spec toISOString webhook_delivers message res (sink rf))
        as (t & at_ & _ & _ & _ & FD & FW & _).
      eexists completed, at_, None, Ack. split_and!.
      * by rewrite FW, RW, SW.
      * by rewrite FD, RD, SD.
      * by left.
  - intros webhook_delivers'.
    rewrite !process_message_eq, !attempt_eq.
    destruct (STORAGE (sink r) !! documentKey message) as [d|];
      [| by destruct (STORAGE (sink r) !! configKey message);
           rewrite (gave_up_any_webhook _ webhook_delivers' webhook_delivers)].
    destruct (STORAGE (sink r) !! configKey message)
      as [[text | config | result] |];
      try by rewrite (gave_up_any_webhook _ webhook_delivers' webhook_delivers).
    destruct (reviewDocument _ _ _ _ _ _) as [rf [res | e]].
    + by rewrite (finished_any_webhook _ webhook_delivers' webhook_delivers).
    + by rewrite (gave_up_any_webhook _ webhook_delivers' webhook_delivers).
Qed.

Lemma delivery_success message r d config :
  STORAGE (sink r) !! documentKey message = Some d →
  STORAGE (sink r) !! configKey message = Some (ConfigBlob config) →
  known_provider (executive_model config) = true →
  known_provider (ceo_model config) = true →
  (∀ n p m pr t, ∃ content, provider n p m pr t = Reply content) →
  ∃ res u rf,
    reviewDocument provider latency config (blob_text JSON_stringify d)
      (Some (progressCallback (jobId message)))
      (mkRun (started toISOString message (sink r)) (calls r))
    = (rf, Fulfilled res) ∧
    (delivery message r).2 = Fulfilled tt ∧
    STORAGE (sink (delivery message r).1)
    = <[result_key (jobId message) := ResultBlob res]> (STORAGE (sink r)) ∧
    JOBS (sink (delivery message r).1) !! job_key (jobId message) = Some u ∧
    status u = completed ∧
    started_at u = Some (toISOString (clock (sink r))) ∧
    is_Some (completed_at u) ∧
    progress u = Some (mkProgress "stage4" "Synthesis complete") ∧
    dispositions (sink (delivery message r).1)
    = dispositions (sink r) ++ [(jobId message, Ack)] ∧
    length (kv_history (sink (delivery message r).1))
    = length (kv_history (sink r)) + 15 + length (stage3 res) ∧
    length (calls (delivery message r).1)
    = length (calls r) + 9 + length (stage3 res).
Proof.
  intros Hd Hc Hexec Hceo Hreply.
  destruct (started_spec toISOString message (sink r))
    as (SJ & SH & SS & SD & SW).
  destruct (delivery_cases provider latency toISOString webhook_delivers
              JSON_stringify message r)
    as [(e & _ & Hwhy) | [(d' & config' & rf & e & Hd' & Hc' & Hrev & _)
                         | (d' & config' & rf & res & Hd' & Hc' & Hrev & Heq)]].
  - exfalso. destruct Hwhy as [[_ [? | ?]] | (_ & d' & b & _ & Hb & Hne)];
      [congruence | congruence |].
    rewrite Hc in Hb. injection Hb as <-. by apply (Hne config).
  - exfalso. rewrite Hd in Hd'. rewrite Hc in Hc'.
    injection Hd' as <-. injection Hc' as <-.
    destruct (review_succeeds provider latency config
                (blob_text JSON_stringify d)
                (Some (progressCallback (jobId message)))
                (mkRun (started toISOString message (sink r)) (calls r))
                Hexec Hceo Hreply (progressCallback_total (jobId message)))
      as (r' & res & Hok).
    congruence.
  - rewrite Hd in Hd'. rewrite Hc in Hc'.
    injection Hd' as <-. injection Hc' as <-.
    rewrite Heq. cbn [fst snd sink calls].
    destruct (successful_run_call_count _ _ _ _ _ _ _ _ Hrev)
      as (Hcalls & Hlen3 & _).
    pose proof (reviewDocument_reports _ _ _ _ _ _ _ _ Hrev) as Hsink.
    cbn [sink calls] in Hcalls, Hsink.
    eassert (JOBS (started toISOString message (sink r))
               !! job_key (jobId message) = Some _) as Hcur
      by (rewrite SJ; apply lookup_insert_eq).
    destruct (progress_fold (jobId message)
                (reported_steps (getExecutivesWithQuestions (stage2 res)))
                (started toISOString message (sink r)) _ Hcur)
      as (e' & He' & Hsame & Hprog & Hhist).
    rewrite <- Hsink in He', Hhist.
    destruct (reported_steps_count (getExecutivesWithQuestions (stage2 res)))
      as (Hcount & Hlast).
    rewrite Hlast in Hprog. rewrite Hcount in Hhist.
    pose proof Hrev as Hrev'.
    apply review_frame in Hrev as (RS & RD & _). cbn [sink] in RS, RD.
    destruct (finished_spec toISOString webhook_delivers message res (sink rf))
      as (t & at_ & FJ & FH & FS & FD & _).
    rewrite He' in FJ, FH.
    destruct Hsame as (_ & _ & _ & Hst & _).
    exists res. eexists. exists rf. split_and!.
    + done.
    + done.
    + by rewrite FS, RS, SS.
    + rewrite FJ. apply lookup_insert_eq.
    + done.
    + cbn. by rewrite Hst.
    + by eexists.
    + cbn. by rewrite Hprog.
    + by rewrite FD, RD, SD.
    + rewrite FH, length_app, Hhist, SH, length_app. cbn [length]. lia.
    + done.
Qed.

(** X14.  A delivery for a job whose blobs are stored, with model ids the
    client knows and providers that answer every call, completes the job:
    the result of the review is stored under the result key of the job, the
    status record is left completed with the time of start, a time of
    completion and the last progress report "Synthesis complete", and the
    message is acknowledged.  The delivery has written the status record
    once to start, once per progress report and once to complete, fifteen
    times plus the number of stage-3 records, and made nine generation calls
    plus one per stage-3 record. *)
Theorem delivery_completes_job message r d config :
  STORAGE (sink r) !! documentKey message = Some d →
  STORAGE (sink r) !! configKey message = Some (ConfigBlob config) →
  known_provider (executive_model config) = true →
  known_provider (ceo_model config) = true →
  (∀ n p m pr t, ∃ content, provider n p m pr t = Reply content) →
  ∃ res u,
    (delivery message r).2 = Fulfilled tt ∧
    STORAGE (sink (delivery message r).1)
    = <[result_key (jobId message) := ResultBlob res]> (STORAGE (sink r)) ∧
    JOBS (sink (delivery message r).1) !! job_key (jobId message) = Some u ∧
    status u = completed ∧
    started_at u = Some (toISOString (clock (sink r))) ∧
    is_Some (completed_at u) ∧
    progress u = Some (mkProgress "stage4" "Synthesis complete") ∧
    dispositions (sink (delivery message r).1)
    = dispositions (sink r) ++ [(jobId message, Ack)] ∧
    length (kv_history (sink (delivery message r).1))
    = length (kv_history (sink r)) + 15 + length (stage3 res) ∧
    length (calls (delivery message r).1)
    = length (calls r) + 9 + length (stage3 res).
Proof.
  intros Hd Hc Hexec Hceo Hreply.
  destruct (delivery_success message r d config Hd Hc Hexec Hceo Hreply)
    as (res & u & rf & _ & H).
  by exists res, u.
Qed.

(** X15.  A delivery touches only its own job: the status records of the
    other jobs, every object of the bucket other than the result of the job,
    and the queue are left as they were, however the delivery ends. *)
Theorem delivery_touches_only_its_job message r :
  (∀ key, key ≠ job_key (jobId message) →
     JOBS (sink (delivery message r).1) !! key = JOBS (sink r) !! key)
  ∧ (∀ key, key ≠ result_key (jobId message) →
       STORAGE (sink (delivery message r).1) !! key = STORAGE (sink r) !! key)
  ∧ REVIEW_QUEUE (sink (delivery message r).1) = REVIEW_QUEUE (sink r).
Proof.
  destruct (started_spec toISOString message (sink r))
    as (_ & _ & SS & _).
  destruct (started_frame toISOString message (sink r)) as (SQ & SK).
  destruct (delivery_cases provider latency toISOString webhook_delivers
              JSON_stringify message r)
    as [(e & -> & _) | [(d & config & rf & e & _ & _ & Hrev & ->)
                       | (d & config & rf & res & _ & _ & Hrev & ->)]];
    cbn [fst sink calls].
  - destruct (gave_up_spec toISOString webhook_delivers message e
                (started toISOString message (sink r)))
      as (t & at_ & GJ & _ & GS & _ & _ & GQ).
    split_and!.
    + intros key Hkey. by rewrite GJ, lookup_insert_ne, SK.
    + intros key _. by rewrite GS, SS.
    + by rewrite GQ, SQ.
  - apply review_frame in Hrev as (RS & _ & _ & _ & RQ & RK & _).
    cbn [sink] in RS, RQ, RK.
    destruct (gave_up_spec toISOString webhook_delivers message e (sink rf))
      as (t & at_ & GJ & _ & GS & _ & _ & GQ).
    split_and!.
    + intros key Hkey. by rewrite GJ, lookup_insert_ne, RK, SK.
    + intros key _. by rewrite GS, RS, SS.
    + by rewrite GQ, RQ, SQ.
  - apply review_frame in Hrev as (RS & _ & _ & _ & RQ & RK & _).
    cbn [sink] in RS, RQ, RK.
    destruct (finished_spec toISOString webhook_delivers message res (sink rf))
      as (t & at_ & FJ & _ & FS & _ & _ & FQ).
    split_and!.
    + intros key Hkey. by rewrite FJ, lookup_insert_ne, RK, SK.
    + intros key Hkey. by rewrite FS, lookup_insert_ne, RS, SS.
    + by rewrite FQ, RQ, SQ.
Qed.

End Deliveries.

Lemma missing_blob_fails_job_witness :
  ∃ u,
    JOBS (sink (process_message provider_plain ex_latency ex_clock ex_webhooks
                  ex_stringify ex_lost_message (mkRun empty_world [])).1)
      !! job_key (jobId ex_lost_message) = Some u ∧
    status u = failed ∧
    error u
    = Some ("Document or config not found for job "
            +:+ jobId ex_lost_message) ∧
    calls (process_message provider_plain ex_latency ex_clock ex_webhooks
             ex_stringify ex_lost_message (mkRun empty_world [])).1
    = calls (mkRun empty_world []) ∧
    STORAGE (sink (process_message provider_plain ex_latency ex_clock
                     ex_webhooks ex_stringify ex_lost_message
                     (mkRun empty_world [])).1)
    = STORAGE (sink (mkRun empty_world [])) ∧
    dispositions (sink (process_message provider_plain ex_latency ex_clock
                          ex_webhooks ex_stringify ex_lost_message
                          (mkRun empty_world [])).1)
    = dispositions (sink (mkRun empty_world []))
      ++ [(jobId ex_lost_message, Retry)] ∧
    length (kv_history (sink (process_message provider_plain ex_latency
                                ex_clock ex_webhooks ex_stringify
                                ex_lost_message (mkRun empty_world [])).1))
    = length (kv_history (sink (mkRun empty_world []))) + 2.
Proof.
  apply (missing_blob_fails_job provider_plain ex_latency ex_clock ex_webhooks
           ex_stringify ex_lost_message (mkRun empty_world [])).
  left. reflexivity.
Defined.

(** The webhook of the example job without blobs is called once, with the
    failure. *)
Example webhook_of_a_lost_job :
  webhook_posts
    (sink (process_message provider_plain ex_latency ex_clock ex_webhooks
             ex_stringify ex_lost_message (mkRun empty_world [])).1)
  = [mkWebhookPost "https://example.com/hook" "job-9" failed
       "2024-05-01T12:00:00.000Z"
       (Some "Document or config not found for job job-9") None].
Proof. vm_compute. reflexivity. Qed.

Lemma delivery_completes_job_witness :
  ∃ res u,
    (process_message provider_asking ex_latency ex_clock ex_webhooks
       ex_stringify ex_message (mkRun ex_submitted [])).2 = Fulfilled tt ∧
    STORAGE (sink (process_message provider_asking ex_latency ex_clock
                     ex_webhooks ex_stringify ex_message
                     (mkRun ex_submitted [])).1)
    = <[result_key (jobId ex_message) := ResultBlob res]>
        (STORAGE (sink (mkRun ex_submitted []))) ∧
    JOBS (sink (process_message provider_asking ex_latency ex_clock
                  ex_webhooks ex_stringify ex_message
                  (mkRun ex_submitted [])).1)
      !! job_key (jobId ex_message) = Some u ∧
    status u = completed ∧
    started_at u = Some (ex_clock (clock (sink (mkRun ex_submitted [])))) ∧
    is_Some (completed_at u) ∧
    progress u = Some (mkProgress "stage4" "Synthesis complete") ∧
    dispositions (sink (process_message provider_asking ex_latency ex_clock
                          ex_webhooks ex_stringify ex_message
                          (mkRun ex_submitted [])).1)
    = dispositions (sink (mkRun ex_submitted []))
      ++ [(jobId ex_message, Ack)] ∧
    length (kv_history (sink (process_message provider_asking ex_latency
                                ex_clock ex_webhooks ex_stringify ex_message
                                (mkRun ex_submitted [])).1))
    = length (kv_history (sink (mkRun ex_submitted []))) + 15
      + length (stage3 res) ∧
    length (calls (process_message provider_asking ex_latency ex_clock
                     ex_webhooks ex_stringify ex_message
                     (mkRun ex_submitted [])).1)
    = length (calls (mkRun ex_submitted [])) + 9 + length (stage3 res).
Proof.
  apply (delivery_completes_job provider_asking ex_latency ex_clock
           ex_webhooks ex_stringify ex_message (mkRun ex_submitted [])
           (DocumentBlob "Launch plan.") ex_config).
  - vm_compute. reflexivity.
  - vm_compute. reflexivity.
  - reflexivity.
  - reflexivity.
  - intros n p m pr t. unfold provider_asking.
    destruct n as [|[|[|[|[|n]]]]]; by eexists.
Defined.

(** The example job once completed: seventeen writes of its status record
    since the submission, for two stage-3 records. *)
Example writes_of_the_example_job :
  length (kv_history (sink ex_completed)) = 1 + 15 + 2
  ∧ length (calls ex_completed) = 9 + 2.
Proof. split; vm_compute; reflexivity. Qed.

(** * The read and delete endpoints *)

Section Keys.

Import JsStringFacts.

Lemma append_inj_r (a b c : string) : a +:+ c = b +:+ c → a = b.
Proof.
  revert b. induction a as [|x a IH]; intros [|y b] H.
  - done.
  - apply (f_equal String.length) in H.
    cbn [String.append String.length] in H. rewrite length_append in H. lia.
  - apply (f_equal String.length) in H.
    cbn [String.append String.length] in H. rewrite length_append in H. lia.
  - cbn [String.append] in H. injection H as -> H. f_equal. by apply IH.
Qed.

Lemma job_key_inj (a b : string) : job_key a = job_key b → a = b.
Proof. unfold job_key. cbn [String.append]. by intros [=]. Qed.

Lemma document_key_inj (a b : string) :
  document_key a = document_key b → a = b.
Proof.
  unfold document_key. cbn [String.append]. intros [= H].
  by apply append_inj_r in H.
Qed.

Lemma config_key_inj (a b : string) : config_key a = config_key b → a = b.
Proof.
  unfold config_key. cbn [String.append]. intros [= H].
  by apply append_inj_r in H.
Qed.

Lemma result_key_inj (a b : string) : result_key a = result_key b → a = b.
Proof.
  unfold result_key. cbn [String.append]. intros [= H].
  by apply append_inj_r in H.
Qed.

(** The three kinds of object have keys apart from one another. *)
Lemma bucket_keys_apart (a b : string) :
  document_key a ≠ config_key b ∧ document_key a ≠ result_key b
  ∧ config_key a ≠ result_key b.
Proof.
  unfold document_key, config_key, result_key. cbn [String.append].
  split_and!; intros [=].
Qed.

End Keys.

Section Endpoints.

(** X16.  Right after a submission is accepted the status endpoint returns
    the record of the new job, with status queued, the time of the
    submission and the webhook URL of the request, and the two result
    endpoints answer 400 "Job not completed". *)
Theorem submitted_job_is_queued (is_url : string → bool)
    (toISOString : nat → string) (body : json) (uuid : string) (w : World)
    (validated : ReviewRequest) :
  reviewRequestSchema is_url body = inr validated →
  get_status uuid (post_review is_url toISOString (inr body) uuid w).1
  = StatusBody
      (mkJobStatus uuid queued (toISOString (clock w)) None None None None
         (request_webhook_url validated) None)
  ∧ get_result uuid (post_review is_url toISOString (inr body) uuid w).1
    = JobNotCompleted queued
  ∧ get_synthesis uuid (post_review is_url toISOString (inr body) uuid w).1
    = JobNotCompleted queued
  ∧ api_status (JobNotCompleted queued) = 400.
Proof.
  intros H. unfold post_review. rewrite H. cbn [fst].
  unfold get_status, get_result, get_synthesis.
  cbn [JOBS kv_put queue_send r2_put tick]. rewrite lookup_insert_eq.
  done.
Qed.

(** X17.  A result is served exactly when the status record of the job
    says completed and the bucket holds a result under the result key of the
    job; the synthesis endpoint then serves the synthesis of that same
    result.  For a failed job the two endpoints answer differently: 500 from
    the result endpoint, 400 from the synthesis endpoint. *)
Theorem result_served_iff_completed (jobId : string) (w : World) :
  (api_status (get_result jobId w) = 200
   ↔ ∃ u res, JOBS w !! job_key jobId = Some u ∧ status u = completed ∧
              STORAGE w !! result_key jobId = Some (ResultBlob res))
  ∧ (api_status (get_synthesis jobId w) = 200
     ↔ api_status (get_result jobId w) = 200)
  ∧ (∀ u res,
       JOBS w !! job_key jobId = Some u → status u = completed →
       STORAGE w !! result_key jobId = Some (ResultBlob res) →
       get_result jobId w = ResultBody jobId (completed_at u) res
       ∧ get_synthesis jobId w = SynthesisText (synthesis res))
  ∧ (∀ u,
       JOBS w !! job_key jobId = Some u → status u = failed →
       get_result jobId w = JobFailed (error_or_unknown (error u)) u
       ∧ api_status (get_result jobId w) = 500
       ∧ get_synthesis jobId w = JobNotCompleted failed
       ∧ api_status (get_synthesis jobId w) = 400).
Proof.
  unfold get_result, get_synthesis.
  destruct (JOBS w !! job_key jobId) as [u|] eqn:Hu.
  2: { split_and!; try done. split; [done | by intros (? & ? & ? & _)]. }
  destruct (decide (status u = failed)) as [Hf | Hf].
  { rewrite decide_True by congruence. cbn [api_status]. split_and!.
    - split; [done | intros (u' & res & [= <-] & Hc & _); congruence].
    - done.
    - intros u' res [= <-] Hc. congruence.
    - intros u' [= <-] _. by rewrite Hf. }
  destruct (decide (status u ≠ completed)) as [Hc | Hc].
  { cbn [api_status]. split_and!.
    - split; [done | intros (u' & res & [= <-] & Hc' & _); congruence].
    - done.
    - intros u' res [= <-] Hc'. congruence.
    - intros u' [= <-] Hf'. congruence. }
  apply dec_stable in Hc.
  destruct (STORAGE w !! result_key jobId) as [[text | config | res] |]
    eqn:Hres; cbn [blob_result api_status].
  - split_and!.
    + split; [done | by intros (? & ? & _ & _ & ?)].
    + done.
    + by intros u' res [= <-] _ ?.
    + intros u' [= <-] Hf'. congruence.
  - split_and!.
    + split; [done | by intros (? & ? & _ & _ & ?)].
    + done.
    + by intros u' res [= <-] _ ?.
    + intros u' [= <-] Hf'. congruence.
  - split_and!.
    + split; [intros _; by exists u, res | done].
    + done.
    + by intros u' res' [= <-] _ [= <-].
    + intros u' [= <-] Hf'. congruence.
  - split_and!.
    + split; [done | by intros (? & ? & _ & _ & ?)].
    + done.
    + by intros u' res [= <-] _ ?.
    + intros u' [= <-] Hf'. congruence.
Qed.

Lemma get_result_completed (jobId : string) (w : World) (u : JobStatus)
    (res : ReviewResult) :
  JOBS w !! job_key jobId = Some u → status u = completed →
  STORAGE w !! result_key jobId = Some (ResultBlob res) →
  get_status jobId w = StatusBody u
  ∧ get_result jobId w = ResultBody jobId (completed_at u) res
  ∧ get_synthesis jobId w = SynthesisText (synthesis res).
Proof.
  intros Hu Hst Hres. unfold get_status, get_result, get_synthesis.
  rewrite Hu, Hres, Hst. done.
Qed.

Lemma delete_job_spec (jobId : string) (w : World) :
  JOBS (delete_job jobId w).1 = delete (job_key jobId) (JOBS w)
  ∧ STORAGE (delete_job jobId w).1
    = delete (result_key jobId)
        (delete (config_key jobId) (delete (document_key jobId) (STORAGE w)))
  ∧ REVIEW_QUEUE (delete_job jobId w).1 = REVIEW_QUEUE w
  ∧ dispositions (delete_job jobId w).1 = dispositions w
  ∧ kv_history (delete_job jobId w).1 = kv_history w.
Proof. done. Qed.

(** X18.  Deleting a job removes its status record and its three objects
    (document, configuration, result), so that the read endpoints answer 404
    "Job not found" for it, and leaves the other jobs as they were: their
    status records, their objects and the answers of the read endpoints for
    them.  The queue is not touched: a message of the job that is still in
    it stays there. *)
Theorem delete_job_removes_only_that_job (jobId : string) (w : World) :
  (delete_job jobId w).2 = JobDeleted
  ∧ get_status jobId (delete_job jobId w).1 = JobNotFound
  ∧ get_result jobId (delete_job jobId w).1 = JobNotFound
  ∧ get_synthesis jobId (delete_job jobId w).1 = JobNotFound
  ∧ STORAGE (delete_job jobId w).1 !! document_key jobId = None
  ∧ STORAGE (delete_job jobId w).1 !! config_key jobId = None
  ∧ STORAGE (delete_job jobId w).1 !! result_key jobId = None
  ∧ REVIEW_QUEUE (delete_job jobId w).1 = REVIEW_QUEUE w
  ∧ ∀ other, other ≠ jobId →
      get_status other (delete_job jobId w).1 = get_status other w
      ∧ get_result other (delete_job jobId w).1 = get_result other w
      ∧ get_synthesis other (delete_job jobId w).1 = get_synthesis other w
      ∧ STORAGE (delete_job jobId w).1 !! document_key other
        = STORAGE w !! document_key other
      ∧ STORAGE (delete_job jobId w).1 !! config_key other
        = STORAGE w !! config_key other.
Proof.
  destruct (delete_job_spec jobId w) as (HJ & HS & HQ & _).
  pose proof (bucket_keys_apart jobId jobId) as (Hdc & Hdr & Hcr).
  unfold get_status, get_result, get_synthesis. rewrite HJ, HS.
  split_and!; try done.
  - by rewrite lookup_delete_eq.
  - by rewrite lookup_delete_eq.
  - by rewrite lookup_delete_eq.
  - rewrite !lookup_delete_ne by done. apply lookup_delete_eq.
  - rewrite lookup_delete_ne by done. apply lookup_delete_eq.
  - apply lookup_delete_eq.
  - intros other Hother.
    assert (job_key jobId ≠ job_key other) as Hk
      by (intros ?%job_key_inj; done).
    assert (result_key jobId ≠ result_key other) as Hr
      by (intros ?%result_key_inj; done).
    assert (document_key jobId ≠ document_key other) as Hd
      by (intros ?%document_key_inj; done).
    assert (config_key jobId ≠ config_key other) as Hc
      by (intros ?%config_key_inj; done).
    pose proof (bucket_keys_apart jobId other) as (Hdc' & Hdr' & Hcr').
    pose proof (bucket_keys_apart other jobId) as (Hdc'' & Hdr'' & Hcr'').
    rewrite !lookup_delete_ne by done. done.
Qed.

End Endpoints.

Section Submission.

Variable is_url : string → bool.
Variable toISOString : nat → string.

Lemma config_round_trip (path : list string) (c : Config) :
  configSchema path (Some (json_of_config c)) = inr c.
Proof. by destruct c as [em cm oc [cto cpo coo ciso ceo]]. Qed.

Lemma document_in_range (path : list string) (d : string) :
  (1 ≤ Z.of_nat (String.length d) ≤ 100000)%Z →
  z_string_min_max 1 100000 path (Some (JString d)) = inr d.
Proof.
  intros [Hlo Hhi]. unfold z_string_min_max, z_string.
  destruct (Z.ltb_spec (Z.of_nat (String.length d)) 1); [lia |].
  destruct (Z.ltb_spec 100000 (Z.of_nat (String.length d))); [lia |].
  done.
Qed.

(** X19.  What the client SDK sends for a review is accepted whenever the
    document has between 1 and 100000 characters and the webhook URL, if
    there is one, is a URL: the schema gives back the document, the
    configuration and the webhook URL as they were sent, the answer is 202
    with the new job id, the status queued and the two addresses of the job,
    and the document and the configuration are stored under the keys of the
    job. *)
Theorem submitted_request_is_accepted (document : string) (config : Config)
    (webhookUrl : option string) (uuid : string) (w : World) :
  (1 ≤ Z.of_nat (String.length document) ≤ 100000)%Z →
  (∀ u, webhookUrl = Some u → is_url u = true) →
  reviewRequestSchema is_url (submit_body document config webhookUrl)
  = inr (mkReviewRequest document config webhookUrl)
  ∧ (post_review is_url toISOString
       (inr (submit_body document config webhookUrl)) uuid w).2
    = Accepted uuid "queued" (toISOString (clock w))
        ("/api/status/" +:+ uuid) ("/api/result/" +:+ uuid)
  ∧ http_status
      (post_review is_url toISOString
         (inr (submit_body document config webhookUrl)) uuid w).2 = 202
  ∧ STORAGE
      (post_review is_url toISOString
         (inr (submit_body document config webhookUrl)) uuid w).1
      !! document_key uuid = Some (DocumentBlob document)
  ∧ STORAGE
      (post_review is_url toISOString
         (inr (submit_body document config webhookUrl)) uuid w).1
      !! config_key uuid = Some (ConfigBlob config).
Proof.
  intros Hlen Hurl.
  assert (reviewRequestSchema is_url (submit_body document config webhookUrl)
          = inr (mkReviewRequest document config webhookUrl)) as Hvalid.
  { unfold reviewRequestSchema, submit_body, z_object.
    destruct webhookUrl as [u|]; cbn [app member fold_left fst snd String.eqb
                                       Ascii.eqb Bool.eqb].
    - rewrite document_in_range, config_round_trip by done.
      unfold z_optional_url, z_string. by rewrite (Hurl u eq_refl).
    - by rewrite document_in_range, config_round_trip. }
  split; [done |].
  destruct (post_review_accepted is_url toISOString _ uuid w _ Hvalid)
    as (Hdoc & Hcfg & _).
  unfold post_review in *. rewrite Hvalid in *. done.
Qed.

End Submission.

Section EndToEnd.

Variable provider : nat → Provider → string → string → Q → ProviderReply.
Variable latency : nat → nat → nat.
Variable toISOString : nat → string.
Variable webhook_delivers : nat → string → bool.
Variable JSON_stringify : Blob → string.

(** X20.  Deleting a job does not cancel it.  When the message of a deleted
    job is delivered, the consumer finds no blobs, recreates the status
    record of the job and leaves it failed with the error "Document or
    config not found for job " followed by the job id, makes no generation
    call, and gives the message back for a retry; the status endpoint, which
    answered 404 after the deletion, returns that record again and the
    result endpoint answers 500. *)
Theorem deleted_job_comes_back_failed (id : string) (url : option string)
    (w : World) (cs : list LlmCall) :
  get_status id (delete_job id w).1 = JobNotFound
  ∧ ∃ u,
      get_status id
        (sink (process_message provider latency toISOString webhook_delivers
                 JSON_stringify
                 (mkQueueMessage id (document_key id) (config_key id) url)
                 (mkRun (delete_job id w).1 cs)).1)
      = StatusBody u
      ∧ status u = failed
      ∧ get_result id
          (sink (process_message provider latency toISOString webhook_delivers
                   JSON_stringify
                   (mkQueueMessage id (document_key id) (config_key id) url)
                   (mkRun (delete_job id w).1 cs)).1)
        = JobFailed ("Document or config not found for job " +:+ id) u
      ∧ calls (process_message provider latency toISOString webhook_delivers
                 JSON_stringify
                 (mkQueueMessage id (document_key id) (config_key id) url)
                 (mkRun (delete_job id w).1 cs)).1 = cs
      ∧ dispositions
          (sink (process_message provider latency toISOString webhook_delivers
                   JSON_stringify
                   (mkQueueMessage id (document_key id) (config_key id) url)
                   (mkRun (delete_job id w).1 cs)).1)
        = dispositions w ++ [(id, Retry)].
Proof.
  set (message := mkQueueMessage id (document_key id) (config_key id) url).
  destruct (delete_job_spec id w) as (HJ & HS & _ & HD & _).
  assert (STORAGE (delete_job id w).1 !! documentKey message = None) as Hdoc.
  { pose proof (bucket_keys_apart id id) as (Hdc & Hdr & _).
    rewrite HS. cbn [message documentKey].
    rewrite !lookup_delete_ne by done. apply lookup_delete_eq. }
  split.
  { unfold get_status. by rewrite HJ, lookup_delete_eq. }
  destruct (delivery_cases provider latency toISOString webhook_delivers
              JSON_stringify message (mkRun (delete_job id w).1 cs))
    as [(e & -> & Hwhy) | [(d & config & rf & e & Hd & _)
                          | (d & config & rf & res & Hd & _)]];
    cbn [sink calls] in *; [| congruence | congruence].
  destruct Hwhy as [[-> _] | (_ & d & b & Hd & _)]; [| congruence].
  cbn [fst sink calls].
  destruct (started_spec toISOString message (delete_job id w).1)
    as (_ & _ & _ & SD & _).
  destruct (gave_up_spec toISOString webhook_delivers message
              ("Document or config not found for job " +:+ jobId message)
              (started toISOString message (delete_job id w).1))
    as (t & at_ & GJ & _ & _ & GD & _).
  eexists. unfold get_status, get_result.
  change (jobId message) with id in *.
  rewrite GJ, lookup_insert_eq.
  split_and!; try done.
  by rewrite GD, SD, HD.
Qed.

(** X21.  From a submission to its result.  When a valid submission has
    been accepted and the message it put on the queue is delivered while
    the providers answer every call, with model ids the client knows, then
    the status endpoint returns a completed record for the job, the result
    endpoint returns the result with the time of completion, the synthesis
    endpoint returns the synthesis of that result, and the result is the one
    [reviewDocument] gives for the submitted document under the submitted
    configuration, with the four stage-1 reviews in role order. *)
Theorem submission_to_result (is_url : string → bool) (body : json)
    (uuid : string) (w : World) (cs : list LlmCall)
    (validated : ReviewRequest) :
  reviewRequestSchema is_url body = inr validated →
  known_provider (executive_model (config validated)) = true →
  known_provider (ceo_model (config validated)) = true →
  (∀ n p m pr t, ∃ content, provider n p m pr t = Reply content) →
  ∃ message res u rf,
    REVIEW_QUEUE (post_review is_url toISOString (inr body) uuid w).1
    = REVIEW_QUEUE w ++ [message]
    ∧ reviewDocument provider latency (config validated) (document validated)
        (Some (progressCallback uuid))
        (mkRun
           (started toISOString message
              (post_review is_url toISOString (inr body) uuid w).1) cs)
      = (rf, Fulfilled res)
    ∧ role <$> stage1 res = ["CPO"; "CTO"; "COO"; "CISO"]
    ∧ get_status uuid
        (sink (process_message provider latency toISOString webhook_delivers
                 JSON_stringify message
                 (mkRun (post_review is_url toISOString (inr body) uuid w).1
                    cs)).1)
      = StatusBody u
    ∧ status u = completed ∧ is_Some (completed_at u)
    ∧ get_result uuid
        (sink (process_message provider latency toISOString webhook_delivers
                 JSON_stringify message
                 (mkRun (post_review is_url toISOString (inr body) uuid w).1
                    cs)).1)
      = ResultBody uuid (completed_at u) res
    ∧ get_synthesis uuid
        (sink (process_message provider latency toISOString webhook_delivers
                 JSON_stringify message
                 (mkRun (post_review is_url toISOString (inr body) uuid w).1
                    cs)).1)
      = SynthesisText (synthesis res).
Proof.
  intros Hvalid Hexec Hceo Hreply.
  set (message := mkQueueMessage uuid (document_key uuid) (config_key uuid)
                    (request_webhook_url validated)).
  destruct (post_review_accepted is_url toISOString body uuid w validated
              Hvalid) as (Hdoc & Hcfg & _).
  assert (REVIEW_QUEUE (post_review is_url toISOString (inr body) uuid w).1
          = REVIEW_QUEUE w ++ [message]) as Hq
    by (unfold post_review; by rewrite Hvalid).
  remember (post_review is_url toISOString (inr body) uuid w).1 as w1 eqn:Hw1.
  destruct (delivery_success provider latency toISOString webhook_delivers
              JSON_stringify message (mkRun w1 cs)
              (DocumentBlob (document validated)) (config validated)
              Hdoc Hcfg Hexec Hceo Hreply)
    as (res & u & rf & Hrev & _ & HS & HJ & Hst & _ & Hat & _).
  cbn [blob_text message jobId sink calls] in Hrev, HS, HJ.
  exists message, res, u, rf.
  assert (STORAGE
            (sink (process_message provider latency toISOString
                     webhook_delivers JSON_stringify message (mkRun w1 cs)).1)
            !! result_key uuid = Some (ResultBlob res)) as Hres
    by (rewrite HS; apply lookup_insert_eq).
  destruct (get_result_completed uuid _ u res HJ Hst Hres) as (G1 & G2 & G3).
  split_and!; try done.
  apply reviewDocument_spec in Hrev as (new & _ & _ & R1 & _).
  by rewrite R1.
Qed.

End EndToEnd.

Lemma submitted_job_is_queued_witness :
  get_status "job-1" (post_review ex_is_url ex_clock (inr ex_body) "job-1"
                        empty_world).1
  = StatusBody
      (mkJobStatus "job-1" queued (ex_clock (clock empty_world)) None None
         None None
         (request_webhook_url
            (mkReviewRequest "Launch plan." ex_config None)) None)
  ∧ get_result "job-1" (post_review ex_is_url ex_clock (inr ex_body) "job-1"
                          empty_world).1
    = JobNotCompleted queued
  ∧ get_synthesis "job-1" (post_review ex_is_url ex_clock (inr ex_body)
                             "job-1" empty_world).1
    = JobNotCompleted queued
  ∧ api_status (JobNotCompleted queued) = 400.
Proof.
  apply (submitted_job_is_queued ex_is_url ex_clock ex_body "job-1"
           empty_world (mkReviewRequest "Launch plan." ex_config None)).
  reflexivity.
Defined.

Lemma submission_to_result_witness :
  ∃ message res u rf,
    REVIEW_QUEUE (post_review ex_is_url ex_clock (inr ex_body) "job-1"
                    empty_world).1
    = REVIEW_QUEUE empty_world ++ [message]
    ∧ reviewDocument provider_asking ex_latency
        (config (mkReviewRequest "Launch plan." ex_config None))
        (document (mkReviewRequest "Launch plan." ex_config None))
        (Some (progressCallback "job-1"))
        (mkRun
           (started ex_clock message
              (post_review ex_is_url ex_clock (inr ex_body) "job-1"
                 empty_world).1) [])
      = (rf, Fulfilled res)
    ∧ role <$> stage1 res = ["CPO"; "CTO"; "COO"; "CISO"]
    ∧ get_status "job-1"
        (sink (process_message provider_asking ex_latency ex_clock ex_webhooks
                 ex_stringify message
                 (mkRun (post_review ex_is_url ex_clock (inr ex_body) "job-1"
                           empty_world).1 [])).1)
      = StatusBody u
    ∧ status u = completed ∧ is_Some (completed_at u)
    ∧ get_result "job-1"
        (sink (process_message provider_asking ex_latency ex_clock ex_webhooks
                 ex_stringify message
                 (mkRun (post_review ex_is_url ex_clock (inr ex_body) "job-1"
                           empty_world).1 [])).1)
      = ResultBody "job-1" (completed_at u) res
    ∧ get_synthesis "job-1"
        (sink (process_message provider_asking ex_latency ex_clock ex_webhooks
                 ex_stringify message
                 (mkRun (post_review ex_is_url ex_clock (inr ex_body) "job-1"
                           empty_world).1 [])).1)
      = SynthesisText (synthesis res).
Proof.
  apply (submission_to_result provider_asking ex_latency ex_clock ex_webhooks
           ex_stringify ex_is_url ex_body "job-1" empty_world []
           (mkReviewRequest "Launch plan." ex_config None)).
  - reflexivity.
  - reflexivity.
  - reflexivity.
  - intros n p m pr t. unfold provider_asking.
    destruct n as [|[|[|[|[|n]]]]]; by eexists.
Defined.

(** The example job, from its submission to the answers of the read
    endpoints. *)
Example example_job_is_served :
  api_status (get_result "job-1" (sink ex_completed)) = 200
  ∧ get_synthesis "job-1" (sink ex_completed) = SynthesisText "No concerns."
  ∧ api_status (get_result "job-1" (sink ex_first_attempt)) = 500
  ∧ api_status (get_synthesis "job-1" (sink ex_first_attempt)) = 400
  ∧ api_status (get_status "job-1" (delete_job "job-1" (sink ex_completed)).1)
    = 404.
Proof. split_and!; vm_compute; reflexivity. Qed.

Lemma submitted_request_is_accepted_witness :
  reviewRequestSchema ex_is_url
    (submit_body "Launch plan." ex_config (Some "https://example.com/hook"))
  = inr (mkReviewRequest "Launch plan." ex_config
           (Some "https://example.com/hook"))
  ∧ (post_review ex_is_url ex_clock
       (inr (submit_body "Launch plan." ex_config
               (Some "https://example.com/hook"))) "job-3" empty_world).2
    = Accepted "job-3" "queued" (ex_clock (clock empty_world))
        ("/api/status/" +:+ "job-3") ("/api/result/" +:+ "job-3")
  ∧ http_status
      (post_review ex_is_url ex_clock
         (inr (submit_body "Launch plan." ex_config
                 (Some "https://example.com/hook"))) "job-3" empty_world).2
    = 202
  ∧ STORAGE
      (post_review ex_is_url ex_clock
         (inr (submit_body "Launch plan." ex_config
                 (Some "https://example.com/hook"))) "job-3" empty_world).1
      !! document_key "job-3" = Some (DocumentBlob "Launch plan.")
  ∧ STORAGE
      (post_review ex_is_url ex_clock
         (inr (submit_body "Launch plan." ex_config
                 (Some "https://example.com/hook"))) "job-3" empty_world).1
      !! config_key "job-3" = Some (ConfigBlob ex_config).
Proof.
  apply (submitted_request_is_accepted ex_is_url ex_clock "Launch plan."
           ex_config (Some "https://example.com/hook") "job-3" empty_world).
  - vm_compute. split; discriminate.
  - intros u [= <-]. reflexivity.
Defined.

#[local] Existing Instance role_name_inj.

(** * The calls of a run *)

Section CallsOfARun.

Variable provider : nat → Provider → string → string → Q → ProviderReply.
Variable latency : nat → nat → nat.
Context {S : Type}.

Implicit Types (cb : option (string → string → S → S * Outcome unit))
  (r : Run S).

Lemma grows_bind {A B} (m : Eng S A) (k : A → Eng S B) :
  grows m → (∀ a, grows (k a)) → grows (bind m k).
Proof.
  intros Hm Hk r. unfold bind. destruct (Hm r) as [new1 H1].
  destruct (m r) as [r1 [a | e]]; cbn [fst] in H1.
  - destruct (Hk a r1) as [new2 H2]. exists (new1 ++ new2).
    by rewrite H2, H1, app_assoc.
  - by exists new1.
Qed.

Lemma grows_ret {A} (a : A) : grows (ret (S := S) a).
Proof. intros r. exists []. by rewrite app_nil_r. Qed.

Lemma grows_on_sink {A} (f : S → S * Outcome A) : grows (on_sink f).
Proof.
  intros r. exists []. unfold on_sink. destruct (f (sink r)).
  by rewrite app_nil_r.
Qed.

Lemma grows_report cb stageName step : grows (report cb stageName step).
Proof. destruct cb; [apply grows_on_sink | apply grows_ret]. Qed.

Lemma grows_llm_query site prompt model temperature :
  grows (llm_query provider (S := S) site prompt model temperature).
Proof. intros r. by eexists. Qed.

Lemma grows_ask cb site stageName model temperature prompt role_ :
  grows (ask provider cb site stageName model temperature prompt role_).
Proof.
  apply grows_bind; [apply grows_report |]. intros _.
  apply grows_bind; [apply grows_llm_query |]. intros ?. apply grows_ret.
Qed.

Lemma grows_await_all {A} lat (tasks : list (Eng S A)) :
  Forall grows tasks → grows (await_all lat tasks).
Proof.
  intros Htasks r. unfold await_all.
  assert (∃ new, calls (run_all tasks r).1 = calls r ++ new) as [new Hnew].
  { revert r. induction Htasks as [|t tasks Ht _ IH]; intros r;
      cbn [run_all].
    - exists []. by rewrite app_nil_r.
    - destruct (Ht r) as [new1 H1]. destruct (t r) as [r1 o].
      destruct (IH r1) as [new2 H2]. destruct (run_all tasks r1) as [r2 os].
      cbn [fst] in *. exists (new1 ++ new2). by rewrite H2, H1, app_assoc. }
  exists new. by destruct (run_all tasks r).
Qed.

Lemma grows_stage lat cb site stageName model temperature prompt roles :
  grows (await_all lat
           (map (ask provider cb site stageName model temperature prompt)
              roles)).
Proof.
  apply grows_await_all, Forall_forall. intros t Ht.
  apply list_elem_of_In, in_map_iff in Ht as (role_ & <- & _).
  apply grows_ask.
Qed.

(** With a progress callback that does not reject, a run begins with the
    four calls of stage 1, whatever becomes of it. *)
Lemma reviewDocument_stage1_calls config documentContent cb r :
  (∀ e, ¬ callback_rejects cb e) →
  ∃ rest,
    calls (reviewDocument provider latency config documentContent cb r).1
    = calls r
      ++ ((fun role_ =>
             mkLlmCall 1 (stage1Prompt config documentContent role_)
               (executive_model config) 0.7) <$> ROLES)
      ++ rest.
Proof.
  intros Hcb. unfold reviewDocument.
  unfold bind at 1.
  destruct (report cb "stage1" "Starting independent reviews" r)
    as [ra oa] eqn:Ha.
  apply report_spec in Ha as [[Hca _] Ra].
  destruct oa as [[] | e]; [| exfalso; by apply (Hcb e), Ra].
  rewrite app_nil_r in Hca.
  unfold bind at 1. unfold await_all at 1.
  destruct (run_all _ ra) as [rb outs] eqn:Hall.
  apply run_all_ask_calls in Hall as (Hcb' & _ & _); [| done].
  rewrite Hca in Hcb'.
  destruct (promise_all (latency 1) outs) as [stage1Results | e].
  - match goal with
    | |- ∃ rest, calls (?k rb).1 = _ =>
        assert (grows k) as Hk
    end.
    { apply grows_bind; [apply grows_report |]. intros _.
      apply grows_bind; [apply grows_stage |]. intros stage2Results.
      apply grows_bind.
      - destruct (0 <? _)%nat;
          (apply grows_bind; [apply grows_report |]; intros _);
          [apply grows_stage | apply grows_ret].
      - intros stage3Results.
        apply grows_bind; [apply grows_report |]. intros _.
        apply grows_bind; [apply grows_llm_query |]. intros synthesis.
        apply grows_bind; [apply grows_report |]. intros _.
        apply grows_ret. }
    destruct (Hk rb) as [rest Hrest]. exists rest.
    by rewrite Hrest, Hcb', <- app_assoc.
  - exists []. cbn [fst]. by rewrite app_nil_r.
Qed.

End CallsOfARun.

(** C7.  The generation calls of a run, for every document, configuration,
    provider behaviour and completion order.  Whatever becomes of the run,
    every call it has made from the call sites of stages 1, 2 and 3 carries
    the configured executive model id and the temperature 0.7, 0.6 and 0.7
    respectively, and every call from the stage-4 call site the configured
    CEO model id and the temperature 0.7.  Unless the progress callback
    rejects, the run makes the four stage-1 calls, one per reviewer role,
    with the executive model at 0.7.  A run that returns a result has made
    exactly these calls, in this order: the four of stage 1, the four of
    stage 2 with the executive model at 0.6, one per addressed role in
    stage 3 with the executive model at 0.7, and last one stage-4 call with
    the CEO model at 0.7. *)
Theorem calls_carry_configured_models
    (provider : nat → Provider → string → string → Q → ProviderReply)
    (latency : nat → nat → nat) {S : Type} (config : Config)
    (documentContent : string)
    (cb : option (string → string → S → S * Outcome unit)) (r : Run S) :
  (∃ new,
     calls (reviewDocument provider latency config documentContent cb r).1
       = calls r ++ new
     ∧ Forall
         (fun c =>
            (call_stage c = 1 ∧ call_model c = executive_model config
             ∧ call_temperature c = 0.7%Q) ∨
            (call_stage c = 2 ∧ call_model c = executive_model config
             ∧ call_temperature c = 0.6%Q) ∨
            (call_stage c = 3 ∧ call_model c = executive_model config
             ∧ call_temperature c = 0.7%Q) ∨
            (call_stage c = 4 ∧ call_model c = ceo_model config
             ∧ call_temperature c = 0.7%Q))
         new
     ∧ ∀ res,
         (reviewDocument provider latency config documentContent cb r).2
           = Fulfilled res →
         new
         = ((fun role_ =>
               mkLlmCall 1 (stage1Prompt config documentContent role_)
                 (executive_model config) 0.7) <$> [CPO; CTO; COO; CISO])
           ++ ((fun role_ =>
                  mkLlmCall 2
                    (stage2Prompt config
                       (formatStage1Responses (stage1 res)) role_)
                    (executive_model config) 0.6) <$> [CPO; CTO; COO; CISO])
           ++ ((fun role_ =>
                  mkLlmCall 3
                    (stage3Prompt config
                       (formatStage1Responses (stage1 res))
                       (extractDirectedQuestions (stage2 res)
                          (role_name role_))
                       role_)
                    (executive_model config) 0.7)
                 <$> getExecutivesWithQuestions (stage2 res))
           ++ [mkLlmCall 4
                 (synthesisPrompt config documentContent
                    (formatStage1Responses (stage1 res))
                    (formatStage2Responses (stage2 res))
                    (if (0 <? length (stage3 res))%nat
                     then formatStage2Responses (stage3 res)
                     else "No responses required."))
                 (ceo_model config) 0.7])
  ∧ ((∀ f stage step s e, cb = Some f → (f stage step s).2 ≠ Rejected e) →
     ∃ rest,
       calls (reviewDocument provider latency config documentContent cb r).1
       = calls r
         ++ ((fun role_ =>
                mkLlmCall 1 (stage1Prompt config documentContent role_)
                  (executive_model config) 0.7) <$> [CPO; CTO; COO; CISO])
         ++ rest).
Proof.
  split.
  - destruct (reviewDocument provider latency config documentContent cb r)
      as [r' o] eqn:Hrun.
    apply reviewDocument_spec in Hrun as (new & [Hcalls _] & Hconf & Hpost).
    exists new. cbn [fst snd]. split_and!; [done | exact Hconf |].
    intros res ->. by destruct Hpost as (_ & _ & _ & _ & Hnew).
  - intros Hcb. apply reviewDocument_stage1_calls.
    intros e (f & stage & step & s & -> & Hrej). by eapply Hcb.
Qed.

(** The calls of the example run in which the CPO and the COO question the
    CTO and the CISO: call site, model and temperature. *)
Lemma calls_carry_configured_models_witness :
  (fun c => (call_stage c, call_model c, call_temperature c))
    <$> calls (ex_review provider_asking).1
  = [(1, "openai:gpt-4o", 0.7%Q); (1, "openai:gpt-4o", 0.7%Q);
     (1, "openai:gpt-4o", 0.7%Q); (1, "openai:gpt-4o", 0.7%Q);
     (2, "openai:gpt-4o", 0.6%Q); (2, "openai:gpt-4o", 0.6%Q);
     (2, "openai:gpt-4o", 0.6%Q); (2, "openai:gpt-4o", 0.6%Q);
     (3, "openai:gpt-4o", 0.7%Q); (3, "openai:gpt-4o", 0.7%Q);
     (4, "anthropic:claude", 0.7%Q)].
Proof.
  destruct (calls_carry_configured_models provider_asking ex_latency
              ex_config "Launch plan." None (mkRun tt []))
    as [(new & Hcalls & _ & Hnew) _].
  rewrite (Hcalls : calls (ex_review provider_asking).1 = _).
  rewrite (Hnew (result_of (ex_review provider_asking).2))
    by (vm_compute; reflexivity).
  vm_compute. reflexivity.
Defined.

(** * Where an extracted question starts *)

Section QuestionStart.

Import JsStringFacts.




End QuestionStart.

(** C5 (the code departs from the claim).  A captured line is not always
    rendered from the first occurrence of the matched pattern on: the
    position is looked up in the upper-cased line and the cut is made in the
    line as written, and the two differ after a sharp s, which upper-casing
    writes as two letters.  For the record of the CPO with the line
    "Stra", sharp s, "e first. Question to CTO: will this scale?" the pattern
    is found at position 15 of the upper-cased line, and the question
    extracted for the CTO begins one character late, with "uestion". *)
Theorem question_after_sharp_s_is_cut_late :
  toUpperCase ex_sharp_s_line
  = "STRASSE FIRST. QUESTION TO CTO: WILL THIS SCALE?"
  ∧ indexOf (toUpperCase ex_sharp_s_line) (toUpperCase "Question to CTO:")
    = 15%Z
  ∧ substring_from ex_sharp_s_line 14 = "Question to CTO: will this scale?"
  ∧ extractDirectedQuestions [ex_sharp_s_record] "CTO"
    = "From CPO: uestion to CTO: will this scale?"
  ∧ extractDirectedQuestions [ex_sharp_s_record] "CTO"
    ≠ "From CPO: Question to CTO: will this scale?".
Proof. split_and!; [vm_compute; reflexivity.. | vm_compute; discriminate]. Qed.


(** * The stage-3 section of the synthesis prompt *)

(** C6 (the code departs from the claim).  When no stage-2 record addresses
    a role, stage 3 makes no call and the stage-3 array is empty, but the
    stage-3 section of the synthesis prompt is not always the sentinel: the
    placeholders are filled by a chain of first-occurrence replacements, the
    document is put in before the stage-3 text, and so a document that
    itself holds [{stage3_text}] receives the sentinel while the stage-3
    section of the prompt keeps the raw placeholder.  The run on the
    document [ex_template_note] succeeds with nine calls, none from the
    stage-3 call site, and an empty stage-3 array; in its stage-4 prompt the
    heading of the stage-3 section is followed by [{stage3_text}] and not
    by "No responses required.", which stands in the quoted document. *)
Theorem placeholder_in_document_takes_the_sentinel :
  ∃ res c4,
    ex_template_review.2 = Fulfilled res
    ∧ (∀ resp ro, resp ∈ stage2 res → addresses resp ro = false)
    ∧ stage3 res = []
    ∧ length (calls ex_template_review.1) = 9
    ∧ Forall (fun c => call_stage c ≠ 3) (calls ex_template_review.1)
    ∧ last (calls ex_template_review.1) = Some c4
    ∧ call_stage c4 = 4
    ∧ includes (call_prompt c4) (stage3_section "{stage3_text}") = true
    ∧ includes (call_prompt c4) (stage3_section "No responses required.")
      = false
    ∧ includes (call_prompt c4)
        "Prompt design note: No responses required. is where the answers go."
      = true.
Proof.
  eexists _, _. split; [vm_compute; reflexivity |].
  split.
  { intros resp ro Hin. vm_compute in Hin.
    repeat (apply elem_of_cons in Hin as [-> | Hin];
            [destruct ro; vm_compute; reflexivity |]).
    by apply elem_of_nil in Hin. }
  split_and!; try (vm_compute; reflexivity).
  apply (bool_decide_unpack _). vm_compute. reflexivity.
Qed.

Section Stage3Section.

Variable provider : nat → Provider → string → string → Q → ProviderReply.
Variable latency : nat → nat → nat.
Context {S : Type}.



End Stage3Section.


(** * Every delivery comes to rest *)

Section ComesToRest.

















(** *** The points between two steps *)









(** *** The callbacks left in flight settle *)




End ComesToRest.

(** * Interleaved runs: the invariant of every schedule *)

Section LogicFacts.

Context `{conditions : Conditions}.

Hypothesis going_order : PreOrder going.
Hypothesis beside_order : PreOrder beside.
Hypothesis beside_going : ∀ r r', beside r r' → going r r'.
Hypothesis on_record_stays : ∀ e r r', going r r' → on_record e r → on_record e r'.

Lemma spoiled_stays r r' : going r r' → spoiled r → spoiled r'.
Proof. intros Hg [e He]. exists e. by eapply on_record_stays. Qed.

Lemma callbacks_ok_Forall {A} (tasks : list (Thread A)) r :
  callbacks_ok tasks r ↔ Forall (fun t => callback_ok t r) tasks.
Proof.
  induction tasks as [|t tasks IH]; cbn [callbacks_ok fold_right].
  - split; [constructor | done].
  - fold (callbacks_ok tasks r). rewrite Forall_cons, IH. done.
Qed.

Lemma callback_ok_later {A} (t : Thread A) r0 r1 :
  going r0 r1 → callback_ok t r0 → callback_ok t r1.
Proof.
  intros Hg. destruct t as [o | X f k | X io k]; cbn [callback_ok].
  - intros H e He. by eapply on_record_stays, H.
  - intros H r Hr. apply H. by etrans.
  - intros H r Hr. apply H. by etrans.
Qed.

Lemma callbacks_later {A} (tasks : list (Thread A)) r0 r1 :
  going r0 r1 →
  Forall (fun t => callback_ok t r0) tasks →
  Forall (fun t => callback_ok t r1) tasks.
Proof.
  intros Hg Hok. eapply Forall_impl; [exact Hok |].
  intros t. by apply callback_ok_later.
Qed.

(** The synchronous code of a callback. *)
Lemma advance_callback {A} (t : Thread A) r0 r :
  callback_ok t r0 → going r0 r → invariant r →
  beside r (advance t r).1 ∧ invariant (advance t r).1 ∧
  (¬ spoiled r → ¬ spoiled (advance t r).1) ∧
  callback_ok (advance t r).2 (advance t r).1 ∧
  (rejects t → ∃ e, (advance t r).2 = Settled (Rejected e)).
Proof.
  revert r0 r. induction t as [o | X f k IH | X io k _]; intros r0 r Hok Hg Hi.
  - cbn [advance fst snd]. split_and!; [done | done | done | |].
    + by eapply callback_ok_later.
    + destruct o; [done | by eexists].
  - cbn [advance]. cbn [callback_ok] in Hok.
    destruct (Hok r Hg Hi) as (Hb & Hi1 & Hs & Hok1).
    destruct (f r) as [r1 o] eqn:Hf. cbn [fst snd] in *.
    destruct (IH o r1 r1 Hok1 (reflexivity _) Hi1) as (Hb' & Hi' & Hs' & Hok' & Hrej).
    split_and!.
    + by etrans.
    + done.
    + intros Hn. by apply Hs', Hs.
    + done.
    + intros Hr. apply Hrej. cbn [rejects] in Hr. specialize (Hr r).
      by rewrite Hf in Hr.
  - cbn [advance fst snd]. split_and!; [done | done | done | | done].
    by eapply callback_ok_later.
Qed.

(** The start of the callbacks of a stage, and the restart after a step of
    one of them. *)
Lemma start_callbacks {A} (tasks : list (Thread A)) r0 r :
  Forall (fun t => callback_ok t r0) tasks → going r0 r → invariant r →
  beside r (start tasks r).1 ∧ invariant (start tasks r).1 ∧
  (¬ spoiled r → ¬ spoiled (start tasks r).1) ∧
  Forall (fun t => callback_ok t (start tasks r).1) (start tasks r).2 ∧
  (∀ i t, tasks !! i = Some t → rejects t →
          ∃ e, (start tasks r).2 !! i = Some (Settled (Rejected e))).
Proof.
  revert r0 r. induction tasks as [|t tasks IH]; intros r0 r Hok Hg Hi.
  - cbn [start fst snd]. split_and!; done.
  - apply Forall_cons in Hok as [Hok Hoks]. cbn [start].
    destruct (advance_callback t r0 r Hok Hg Hi) as (Hb & Hi1 & Hs & Hok1 & Hrej).
    destruct (advance t r) as [r1 t']. cbn [fst snd] in *.
    assert (going r0 r1) as Hg1 by (etrans; [done | by apply beside_going]).
    destruct (IH r0 r1 Hoks Hg1 Hi1) as (Hb' & Hi' & Hs' & Hok' & Hrej').
    destruct (start tasks r1) as [r2 rest]. cbn [fst snd] in *.
    split_and!.
    + by etrans.
    + done.
    + intros Hn. by apply Hs', Hs.
    + apply Forall_cons. split; [| done].
      eapply callback_ok_later; [| done]. by apply beside_going.
    + intros [|i] u Hu Hr.
      * injection Hu as <-. destruct (Hrej Hr) as [e ->]. by exists e.
      * by apply (Hrej' i u).
Qed.

(** What [Promise.all] settles to. *)
Lemma rejection_Some {A} (tasks : list (Thread A)) e :
  rejection tasks = Some e → Settled (Rejected e) ∈ tasks.
Proof.
  induction tasks as [|t tasks IH]; [done |]. cbn [rejection].
  destruct t as [[v | e'] | |]; try (intros H; right; by apply IH).
  intros [= ->]. left.
Qed.

Lemma rejection_None {A} (tasks : list (Thread A)) i e :
  rejection tasks = None → tasks !! i ≠ Some (Settled (Rejected e)).
Proof.
  revert i. induction tasks as [|t tasks IH]; intros i; [done |].
  cbn [rejection].
  destruct t as [[v | e'] | |]; try done;
    (intros H; destruct i as [|i]; [done | by apply IH]).
Qed.

Lemma fulfilments_Some {A} (tasks : list (Thread A)) values :
  fulfilments tasks = Some values → List.filter pending tasks = [].
Proof.
  revert values. induction tasks as [|t tasks IH]; intros values; [done |].
  cbn [fulfilments].
  destruct t as [[v | e'] | |]; try done.
  destruct (fulfilments tasks) as [vs|]; [| done].
  intros _. cbn. by eapply IH.
Qed.

Lemma Forall_filter_pending {A} (P : Thread A → Prop) (tasks : list (Thread A)) :
  Forall P tasks → Forall P (List.filter pending tasks).
Proof.
  induction 1 as [|t tasks Ht _ IH]; [constructor |].
  cbn. destruct (pending t); [by constructor | done].
Qed.

(** Beside callbacks, what holds of the handler goes on holding. *)
Lemma thread_survives_later {X} (t : Thread X) P r0 r1 :
  (∀ o, P o r0 → P o r1) →
  beside r0 r1 → thread_survives t P r0 → thread_survives t P r1.
Proof.
  intros HP Hb. destruct t as [o | Y f k | Y io k];
    cbn [thread_survives].
  - apply HP.
  - intros H r Hr. apply H. by etrans.
  - intros H r Hr. apply H. by etrans.
Qed.

Lemma survives_later {A} (m : Async A) Q r0 r1 :
  beside r0 r1 → survives m Q r0 → survives m Q r1.
Proof.
  revert r0 r1. induction m as [o | X t k IH | tasks k IH]; intros r0 r1 Hb;
    cbn [survives].
  - intros H r Hr. apply H. by etrans.
  - apply thread_survives_later; [| done]. intros o. by apply IH.
  - intros [Hok H]. split.
    + apply callbacks_ok_Forall. eapply callbacks_later;
        [by apply beside_going | by apply callbacks_ok_Forall].
    + intros o r Hr. apply H. by etrans.
Qed.

(** The synchronous code of a thread of the handler, beside callbacks. *)
Lemma advance_survives {X} (t : Thread X) P r0 r :
  thread_survives t P r0 → beside r0 r → invariant r →
  (∀ o r1 r2, beside r1 r2 → P o r1 → P o r2) →
  going r (advance t r).1 ∧ invariant (advance t r).1 ∧
  thread_survives (advance t r).2 P (advance t r).1.
Proof.
  intros Hs Hb Hi HP. revert r0 r Hs Hb Hi.
  induction t as [o | Y f k IH | Y io k _]; intros r0 r Hs Hb Hi.
  - cbn [advance fst snd]. split_and!; [done | done |].
    cbn [thread_survives] in *. by eapply HP.
  - cbn [advance]. cbn [thread_survives] in Hs.
    destruct (Hs r Hb Hi) as (Hg & Hi1 & Hs1).
    destruct (f r) as [r1 o]. cbn [fst snd] in *.
    destruct (IH o r1 r1 Hs1 (reflexivity _) Hi1) as (Hg' & Hi' & Hs').
    split_and!; [by etrans | done | done].
  - cbn [advance fst snd]. split_and!; [done | done |].
    eapply thread_survives_later; [| done | done]. intros o. by apply HP.
Qed.

(** The handler runs on, beside callbacks. *)
Lemma resume_survives {A} (m : Async A) Q r :
  survives m Q r → invariant r →
  going r (resume m r).1.1 ∧ invariant (resume m r).1.1 ∧
  survives (resume m r).1.2 Q (resume m r).1.1 ∧
  Forall (fun t => callback_ok t (resume m r).1.1) (resume m r).2.
Proof.
  revert r. induction m as [o | X t k IH | tasks k IH]; intros r Hs Hi.
  - cbn [resume fst snd]. split_and!; [done | done | done | constructor].
  - cbn [resume]. cbn [survives] in Hs.
    destruct (advance_survives t _ r r Hs (reflexivity _) Hi)
      as (Hg & Hi1 & Hs1).
    { intros o r1 r2 Hb. by apply survives_later. }
    destruct (advance t r) as [r1 t']. cbn [fst snd] in *.
    destruct t' as [o | Y f k' | Y io k'].
    + cbn [thread_survives] in Hs1.
      destruct (IH o r1 Hs1 Hi1) as (Hg' & Hi' & Hs' & Hl').
      split_and!; [by etrans | done | done | done].
    + cbn [fst snd]. split_and!; [done | done | done | constructor].
    + cbn [fst snd]. split_and!; [done | done | done | constructor].
  - cbn [resume]. cbn [survives] in Hs. destruct Hs as [Hok Hk].
    apply callbacks_ok_Forall in Hok.
    destruct (start_callbacks tasks r r Hok (reflexivity _) Hi)
      as (Hb & Hi1 & _ & Hok1 & _).
    destruct (start tasks r) as [r1 tasks']. cbn [fst snd] in *.
    destruct (all_settled tasks') as [o|] eqn:Hall.
    + destruct (IH o r1 (Hk o r1 Hb Hi1) Hi1) as (Hg' & Hi' & Hs' & Hl').
      destruct (resume (k o) r1) as [[r2 m'] rest]. cbn [fst snd] in *.
      split_and!.
      * etrans; [by apply beside_going | done].
      * done.
      * done.
      * apply Forall_app. split; [| done].
        apply Forall_filter_pending. by eapply callbacks_later.
    + cbn [fst snd]. split_and!.
      * by apply beside_going.
      * done.
      * cbn [survives]. split; [by apply callbacks_ok_Forall |].
        intros o r2 Hr2. apply Hk. by etrans.
      * constructor.
Qed.

(** The synchronous code of a thread of the handler running alone. *)
Lemma advance_holds {X} (t : Thread X) P F r :
  thread_holds t P F r → ¬ spoiled r → invariant r →
  going r (advance t r).1 ∧ invariant (advance t r).1 ∧
  ¬ spoiled (advance t r).1 ∧
  thread_holds (advance t r).2 P F (advance t r).1.
Proof.
  revert r. induction t as [o | Y f k IH | Y io k _]; intros r Hh Hn Hi.
  - cbn [advance fst snd]. done.
  - cbn [advance]. cbn [thread_holds] in Hh.
    destruct Hh as (Hg & Hi1 & Hn1 & Hh1).
    destruct (f r) as [r1 o]. cbn [fst snd] in *.
    destruct (IH o r1 Hh1 Hn1 Hi1) as (Hg' & Hi' & Hn' & Hh').
    split_and!; [by etrans | done | done | done].
  - cbn [advance fst snd]. done.
Qed.

(** The handler at a [Promise.all], when nothing is rejected or when one of
    the callbacks is about to be. *)
Lemma resume_all {A} tasks (k : Outcome (list StageResponse) → Async A)
    Q Q' r0 r :
  (∀ o r, holds (k o) Q Q' r → ¬ spoiled r → invariant r →
          resumed Q Q' r (resume (k o) r)) →
  Forall (fun t => callback_ok t r) tasks →
  (∀ r', beside r0 r' → invariant r' →
     (∀ values, ¬ spoiled r' → holds (k (Fulfilled values)) Q Q' r') ∧
     (∀ e, on_record e r' → survives (k (Rejected e)) Q' r')) →
  beside r0 r → invariant r →
  ¬ spoiled r ∨ (∃ i t, tasks !! i = Some t ∧ rejects t) →
  resumed Q Q' r (resume (All tasks k) r).
Proof.
  intros IH Hok Hk Hb Hi Hcase. unfold resumed. cbn [resume].
  destruct (start_callbacks tasks r r Hok (reflexivity _) Hi)
    as (Hb1 & Hi1 & Hn1 & Hok1 & Hrej).
  destruct (start tasks r) as [r1 tasks']. cbn [fst snd] in *.
  assert (beside r0 r1) as Hb01 by by etrans.
  destruct (Hk r1 Hb01 Hi1) as [Hful Hrejk].
  unfold all_settled. destruct (rejection tasks') as [e|] eqn:Hr.
  - (* one callback is rejected *)
    apply rejection_Some in Hr.
    assert (on_record e r1) as He.
    { rewrite Forall_forall in Hok1. by apply (Hok1 _ Hr e). }
    destruct (resume_survives (k (Rejected e)) Q' r1 (Hrejk e He) Hi1)
      as (Hg' & Hi' & Hs' & Hl').
    destruct (resume (k (Rejected e)) r1) as [[r2 m'] rest].
    cbn [fst snd] in *. split_and!.
    + etrans; [by apply beside_going | done].
    + done.
    + right. split; [done |]. apply Forall_app. split; [| done].
      apply Forall_filter_pending. by eapply callbacks_later.
  - assert (¬ spoiled r1) as Hn.
    { destruct Hcase as [Hn | (i & t & Hi' & Ht)]; [by apply Hn1 |].
      destruct (Hrej i t Hi' Ht) as [e He].
      by apply (rejection_None _ i e) in Hr. }
    destruct (fulfilments tasks') as [values|] eqn:Hv; cbn [fmap option_fmap option_map].
    + (* all callbacks are fulfilled *)
      apply fulfilments_Some in Hv.
      pose proof (IH (Fulfilled values) r1 (Hful values Hn) Hn Hi1)
        as (Hg' & Hi' & Hcases).
      destruct (resume (k (Fulfilled values)) r1) as [[r2 m'] rest].
      cbn [fst snd] in *. rewrite Hv. cbn [app].
      split_and!; [| done | done].
      etrans; [by apply beside_going | done].
    + (* some are pending *)
      cbn [fst snd]. split_and!; [by apply beside_going | done |].
      left. split_and!; [done | done |].
      cbn [holds]. split; [by apply callbacks_ok_Forall |].
      intros r' Hr' Hi'. apply Hk; [by etrans | done].
Qed.

(** The handler runs on alone. *)
Lemma resume_holds {A} (m : Async A) Q Q' r :
  holds m Q Q' r → ¬ spoiled r → invariant r →
  resumed Q Q' r (resume m r).
Proof.
  revert r. induction m as [o | X t k IH | tasks k IH]; intros r Hh Hn Hi.
  - unfold resumed. cbn [resume fst snd]. split_and!; [done | done |].
    by left.
  - unfold resumed. cbn [resume]. cbn [holds] in Hh.
    destruct (advance_holds t _ _ r Hh Hn Hi) as (Hg & Hi1 & Hn1 & Hh1).
    destruct (advance t r) as [r1 t']. cbn [fst snd] in *.
    destruct t' as [o | Y f k' | Y io k'].
    + cbn [thread_holds] in Hh1.
      destruct (IH o r1 Hh1 Hn1 Hi1) as (Hg' & Hi' & Hcases).
      split_and!; [by etrans | done | done].
    + cbn [fst snd]. split_and!; [done | done |]. by left.
    + cbn [fst snd]. split_and!; [done | done |]. by left.
  - cbn [holds] in Hh. destruct Hh as [Hok Hk].
    apply (resume_all tasks k Q Q' r r); try done.
    + by apply callbacks_ok_Forall.
    + by left.
Qed.

(** One step of a schedule keeps a running handler in order. *)
Lemma play_in_order {A} (Q Q' : Run World → Outcome A → Prop)
    (c : Running A) (choice : Choice) :
  in_order Q Q' c →
  in_order Q Q' (play c choice) ∧ going (state c) (state (play c choice)).
Proof.
  destruct c as [r m left]. unfold in_order. cbn [state main leftovers].
  intros [Hi Hmode].
  assert (∀ x : Run World * Async A * list (Thread StageResponse),
            going r x.1.1 → invariant x.1.1 →
            survives x.1.2 Q' x.1.1 →
            Forall (fun t => callback_ok t x.1.1) x.2 →
            Forall (fun t => callback_ok t r) left →
            (invariant x.1.1 ∧
             ((¬ spoiled x.1.1 ∧ left ++ x.2 = [] ∧ holds x.1.2 Q Q' x.1.1)
              ∨ (survives x.1.2 Q' x.1.1 ∧
                 Forall (fun t => callback_ok t x.1.1) (left ++ x.2))))
            ∧ going r x.1.1) as Hbeside.
  { intros x Hg Hi' Hs Hl Hold. split; [| done]. split; [done |]. right.
    split; [done |]. apply Forall_app. split; [| done].
    by eapply callbacks_later. }
  assert (∀ r1 (x : Run World * Async A * list (Thread StageResponse)),
            going r r1 → left = [] → resumed Q Q' r1 x →
            (invariant x.1.1 ∧
             ((¬ spoiled x.1.1 ∧ left ++ x.2 = [] ∧ holds x.1.2 Q Q' x.1.1)
              ∨ (survives x.1.2 Q' x.1.1 ∧
                 Forall (fun t => callback_ok t x.1.1) (left ++ x.2))))
            ∧ going r x.1.1) as Halone.
  { intros r1 x Hg -> (Hg' & Hi' & Hcases). cbn [app].
    split; [| by etrans]. split; [done |].
    destruct Hcases as [(? & ? & ?) | (? & ?)]; [by left | by right]. }
  destruct choice as [| i | i]; cbn [play state main leftovers].
  - (* the handler *)
    destruct m as [o | X [o | Y f k' | Y io k'] k | tasks k];
      try (cbn [state main leftovers]; split; [by split | done]).
    destruct (io r) as [r1 o] eqn:Hio.
    destruct Hmode as [(Hn & -> & Hh) | (Hs & Hl)].
    + cbn [holds thread_holds] in Hh. rewrite Hio in Hh. cbn [fst snd] in Hh.
      destruct Hh as (Hg & Hi1 & [[Hsp Hf] | [Hn1 Hh1]]).
      * destruct (resume_survives (Do (k' o) k) Q' r1 Hf Hi1)
          as (Hg' & Hi' & Hs' & Hl').
        destruct (resume (Do (k' o) k) r1) as [[r2 m'] rest].
        cbn [state main leftovers fst snd app] in *.
        split; [| by etrans]. split; [done |]. by right.
      * pose proof (resume_holds (Do (k' o) k) Q Q' r1 Hh1 Hn1 Hi1) as Hres.
        destruct (Halone r1 _ Hg eq_refl Hres) as [Hin Hgo].
        destruct (resume (Do (k' o) k) r1) as [[r2 m'] rest].
        cbn [state main leftovers fst snd app] in *. done.
    + cbn [survives thread_survives] in Hs.
      destruct (Hs r (reflexivity _) Hi) as (Hg & Hi1 & Hs1).
      rewrite Hio in Hg, Hi1, Hs1. cbn [fst snd] in Hg, Hi1, Hs1.
      destruct (resume_survives (Do (k' o) k) Q' r1 Hs1 Hi1)
        as (Hg' & Hi' & Hs' & Hl').
      assert (going r (resume (Do (k' o) k) r1).1.1) as Hg2 by by etrans.
      destruct (Hbeside _ Hg2 Hi' Hs' Hl' Hl) as [Hin Hgo].
      destruct (resume (Do (k' o) k) r1) as [[r2 m'] rest].
      cbn [state main leftovers fst snd] in *. done.
  - (* a callback of the stage *)
    destruct m as [o | X t k | tasks k];
      try (cbn [state main leftovers]; split; [by split | done]).
    destruct (tasks !! i) as [[o | Y f k' | Y io k'] |] eqn:Hti;
      try (cbn [state main leftovers]; split; [by split | done]).
    destruct (io r) as [r1 o] eqn:Hio.
    assert (i < length tasks) as Hlen by by eapply lookup_lt_Some.
    destruct Hmode as [(Hn & -> & Hh) | (Hs & Hl)].
    + cbn [holds] in Hh. destruct Hh as [Hok Hk].
      apply callbacks_ok_Forall in Hok.
      pose proof (proj1 (Forall_lookup _ _) Hok i _ Hti) as Hcb.
      cbn [callback_ok] in Hcb.
      destruct (Hcb r (reflexivity _) Hi) as (Hb & Hi1 & Hsp & Hcb1).
      rewrite Hio in Hb, Hi1, Hsp, Hcb1. cbn [fst snd] in Hb, Hi1, Hsp, Hcb1.
      assert (resumed Q Q' r1 (resume (All (<[i := k' o]> tasks) k) r1))
        as Hres.
      { apply (resume_all _ k Q Q' r r1); try done.
        - intros o' r' ?. by apply resume_holds.
        - apply Forall_insert; [| done].
          eapply callbacks_later; [by apply beside_going | done].
        - destruct (Hsp Hn) as [? | Hrej]; [by left |]. right.
          exists i, (k' o). split; [| done].
          by apply list_lookup_insert_eq. }
      destruct (Halone r1 _ (beside_going _ _ Hb) eq_refl Hres) as [Hin Hgo].
      destruct (resume (All (<[i := k' o]> tasks) k) r1) as [[r2 m'] rest].
      cbn [state main leftovers fst snd app] in *. done.
    + cbn [survives] in Hs. destruct Hs as [Hok Hk].
      apply callbacks_ok_Forall in Hok.
      pose proof (proj1 (Forall_lookup _ _) Hok i _ Hti) as Hcb.
      cbn [callback_ok] in Hcb.
      destruct (Hcb r (reflexivity _) Hi) as (Hb & Hi1 & _ & Hcb1).
      rewrite Hio in Hb, Hi1, Hcb1. cbn [fst snd] in Hb, Hi1, Hcb1.
      assert (survives (All (<[i := k' o]> tasks) k) Q' r1) as Hs1.
      { cbn [survives]. split.
        - apply callbacks_ok_Forall, Forall_insert; [| done].
          eapply callbacks_later; [by apply beside_going | done].
        - intros o' r' Hr'. apply Hk. by etrans. }
      destruct (resume_survives _ Q' r1 Hs1 Hi1) as (Hg' & Hi' & Hs' & Hl').
      assert (going r (resume (All (<[i := k' o]> tasks) k) r1).1.1) as Hg2
        by (etrans; [by apply beside_going | done]).
      destruct (Hbeside _ Hg2 Hi' Hs' Hl' Hl) as [Hin Hgo].
      destruct (resume (All (<[i := k' o]> tasks) k) r1) as [[r2 m'] rest].
      cbn [state main leftovers fst snd] in *. done.
  - (* a callback left in flight *)
    destruct (left !! i) as [[o | Y f k' | Y io k'] |] eqn:Hti;
      try (cbn [state main leftovers]; split; [by split | done]).
    destruct (io r) as [r1 o] eqn:Hio.
    destruct Hmode as [(Hn & -> & Hh) | (Hs & Hl)]; [done |].
    pose proof (proj1 (Forall_lookup _ _) Hl i _ Hti) as Hcb.
    cbn [callback_ok] in Hcb.
    destruct (Hcb r (reflexivity _) Hi) as (Hb & Hi1 & _ & Hcb1).
    rewrite Hio in Hb, Hi1, Hcb1. cbn [fst snd] in Hb, Hi1, Hcb1.
    destruct (advance_callback (k' o) r1 r1 Hcb1 (reflexivity _) Hi1)
      as (Hb' & Hi' & _ & Hcb' & _).
    destruct (advance (k' o) r1) as [r2 t']. cbn [state main leftovers fst snd] in *.
    assert (beside r r2) as Hb2 by by etrans.
    split; [| by apply beside_going]. split; [done |]. right. split.
    + by eapply survives_later.
    + apply Forall_insert; [| done].
      eapply callbacks_later; [by apply beside_going | done].
Qed.

Lemma exec_in_order {A} (Q Q' : Run World → Outcome A → Prop)
    (c : Running A) (schedule : list Choice) :
  in_order Q Q' c →
  in_order Q Q' (exec c schedule) ∧ going (state c) (state (exec c schedule)).
Proof.
  revert c. induction schedule as [|choice schedule IH]; intros c Hc.
  - done.
  - cbn [exec foldl]. destruct (play_in_order Q Q' c choice Hc) as [Hc1 Hg1].
    destruct (IH _ Hc1) as [Hc2 Hg2]. split; [done | by etrans].
Qed.

(** Soundness.  A handler that holds when it is entered is in order after
    every schedule: the invariant holds, the state has only gone on, and
    when the handler is done it has ended with [Q], nothing rejected, or
    with [Q']. *)
Theorem holds_after_every_schedule {A} (m : Async A)
    (Q Q' : Run World → Outcome A → Prop) (r0 : Run World)
    (schedule : list Choice) :
  holds m Q Q' r0 → ¬ spoiled r0 → invariant r0 →
  invariant (state (exec (enter m r0) schedule))
  ∧ going r0 (state (exec (enter m r0) schedule))
  ∧ ∀ o, main (exec (enter m r0) schedule) = Done o →
         (¬ spoiled (state (exec (enter m r0) schedule))
          ∧ leftovers (exec (enter m r0) schedule) = []
          ∧ Q (state (exec (enter m r0) schedule)) o)
         ∨ Q' (state (exec (enter m r0) schedule)) o.
Proof.
  intros Hh Hn Hi.
  pose proof (resume_holds m Q Q' r0 Hh Hn Hi) as (Hg & Hi' & Hcases).
  assert (in_order Q Q' (enter m r0) ∧ going r0 (state (enter m r0)))
    as [Hc Hg0].
  { unfold enter, in_order. destruct (resume m r0) as [[r1 m'] rest].
    cbn [state main leftovers fst snd] in *. done. }
  destruct (exec_in_order Q Q' _ schedule Hc) as [[Hi2 Hmode] Hg2].
  split_and!; [done | by etrans |].
  intros o Ho. rewrite Ho in Hmode.
  destruct Hmode as [(Hn2 & Hl & Hh2) | (Hs & _)].
  - left. done.
  - right. cbn [survives] in Hs. by apply Hs.
Qed.



(** *** Rules for sequencing and for [try] *)

Lemma thread_survives_impl {X} (t : Thread X)
    (P P' : Outcome X → Run World → Prop) r0 :
  (∀ o r, invariant r → P o r → P' o r) →
  invariant r0 → thread_survives t P r0 → thread_survives t P' r0.
Proof.
  intros HP. revert r0.
  induction t as [o | Y f k IH | Y io k IH]; intros r0 Hi0;
    cbn [thread_survives].
  - by apply HP.
  - intros Ht r Hb Hi. destruct (Ht r Hb Hi) as (Hg & Hi1 & Ht1).
    split_and!; [done | done |]. by apply IH.
  - intros Ht r Hb Hi. destruct (Ht r Hb Hi) as (Hg & Hi1 & Ht1).
    split_and!; [done | done |]. by apply IH.
Qed.

Lemma thread_survives_bind {X Y} (t : Thread X) (f : X → Thread Y)
    (P : Outcome Y → Run World → Prop) r0 :
  thread_survives t
    (fun o r =>
       match o with
       | Fulfilled a => thread_survives (f a) P r
       | Rejected e => P (Rejected e) r
       end) r0 →
  thread_survives (tbind t f) P r0.
Proof.
  revert r0. induction t as [[a | e] | Z g k IH | Z io k IH]; intros r0;
    cbn [tbind thread_survives]; try done.
  - intros Ht r Hb Hi. destruct (Ht r Hb Hi) as (Hg & Hi1 & Ht1).
    split_and!; [done | done |]. by apply IH.
  - intros Ht r Hb Hi. destruct (Ht r Hb Hi) as (Hg & Hi1 & Ht1).
    split_and!; [done | done |]. by apply IH.
Qed.

Lemma survives_bind {A B} (m : Async A) (f : A → Async B)
    (Q1 : Run World → Outcome A → Prop) (Q : Run World → Outcome B → Prop)
    r0 :
  survives m Q1 r0 → invariant r0 →
  (∀ a r, invariant r → Q1 r (Fulfilled a) → survives (f a) Q r) →
  (∀ e r, invariant r → Q1 r (Rejected e) → Q r (Rejected e)) →
  survives (abind m f) Q r0.
Proof.
  intros Hm Hi0 Hf He. revert r0 Hm Hi0.
  induction m as [[a | e] | X t k IH | tasks k IH]; intros r0 Hm Hi0;
    cbn [abind survives] in *.
  - apply Hf; [done |]. by apply Hm.
  - intros r Hb Hi. apply He; [done |]. by apply Hm.
  - eapply thread_survives_impl; [| done | exact Hm].
    intros o r Hi Hk. by apply IH.
  - destruct Hm as [Hok Hk]. split; [done |].
    intros o r Hb Hi. apply IH; [by apply Hk | done].
Qed.

Lemma survives_try {A} (m : Async A) (h : string → Async A)
    (Q1 Q : Run World → Outcome A → Prop) r0 :
  survives m Q1 r0 → invariant r0 →
  (∀ a r, invariant r → Q1 r (Fulfilled a) → Q r (Fulfilled a)) →
  (∀ e r, invariant r → Q1 r (Rejected e) → survives (h e) Q r) →
  survives (atry m h) Q r0.
Proof.
  intros Hm Hi0 Hf He. revert r0 Hm Hi0.
  induction m as [[a | e] | X t k IH | tasks k IH]; intros r0 Hm Hi0;
    cbn [atry survives] in *.
  - intros r Hb Hi. apply Hf; [done |]. by apply Hm.
  - apply He; [done |]. by apply Hm.
  - eapply thread_survives_impl; [| done | exact Hm].
    intros o r Hi Hk. by apply IH.
  - destruct Hm as [Hok Hk]. split; [done |].
    intros o r Hb Hi. apply IH; [by apply Hk | done].
Qed.

Lemma thread_holds_impl {X} (t : Thread X)
    (P P' : Outcome X → Run World → Prop)
    (F F' : Thread X → Run World → Prop) r0 :
  (∀ o r, invariant r → ¬ spoiled r → P o r → P' o r) →
  (∀ t' r, invariant r → F t' r → F' t' r) →
  invariant r0 → ¬ spoiled r0 →
  thread_holds t P F r0 → thread_holds t P' F' r0.
Proof.
  intros HP HF. revert r0.
  induction t as [o | Y f k IH | Y io k IH]; intros r0 Hi0 Hn0;
    cbn [thread_holds].
  - by apply HP.
  - intros (Hg & Hi1 & Hn1 & Ht1). split_and!; [done | done | done |].
    by apply IH.
  - intros (Hg & Hi1 & [[Hsp Hf] | [Hn1 Ht1]]);
      (split_and!; [done | done |]).
    + left. split; [done |]. by apply HF.
    + right. split; [done |]. by apply IH.
Qed.

Lemma holds_bind {A B} (m : Async A) (f : A → Async B)
    (Q1 Q1' : Run World → Outcome A → Prop)
    (Q Q' : Run World → Outcome B → Prop) r0 :
  holds m Q1 Q1' r0 → invariant r0 → ¬ spoiled r0 →
  (∀ a r, invariant r → ¬ spoiled r → Q1 r (Fulfilled a) →
          holds (f a) Q Q' r) →
  (∀ e r, invariant r → ¬ spoiled r → Q1 r (Rejected e) →
          Q r (Rejected e)) →
  (∀ a r, invariant r → Q1' r (Fulfilled a) → survives (f a) Q' r) →
  (∀ e r, invariant r → Q1' r (Rejected e) → Q' r (Rejected e)) →
  holds (abind m f) Q Q' r0.
Proof.
  intros Hm Hi0 Hn0 Hf He Hf' He'. revert r0 Hm Hi0 Hn0.
  induction m as [[a | e] | X t k IH | tasks k IH]; intros r0 Hm Hi0 Hn0;
    cbn [abind holds] in *.
  - by apply Hf.
  - by apply He.
  - eapply thread_holds_impl; [| | done | done | exact Hm].
    + intros o r Hi Hn Hk. by apply IH.
    + intros t' r Hi Ht. cbn beta in *.
      eapply thread_survives_impl; [| done | exact Ht].
      intros o r' Hi' Hk. by apply (survives_bind _ _ Q1').
  - destruct Hm as [Hok Hk]. split; [done |].
    intros r Hb Hi. destruct (Hk r Hb Hi) as [Hful Hrej]. split.
    + intros values Hn. by apply IH; [apply Hful | |].
    + intros e He0. apply (survives_bind _ _ Q1'); [by apply Hrej | done..].
Qed.

Lemma holds_try {A} (m : Async A) (h : string → Async A)
    (Q1 Q1' Q Q' : Run World → Outcome A → Prop) r0 :
  holds m Q1 Q1' r0 → invariant r0 → ¬ spoiled r0 →
  (∀ a r, invariant r → ¬ spoiled r → Q1 r (Fulfilled a) →
          Q r (Fulfilled a)) →
  (∀ e r, invariant r → ¬ spoiled r → Q1 r (Rejected e) →
          holds (h e) Q Q' r) →
  (∀ a r, invariant r → Q1' r (Fulfilled a) → Q' r (Fulfilled a)) →
  (∀ e r, invariant r → Q1' r (Rejected e) → survives (h e) Q' r) →
  holds (atry m h) Q Q' r0.
Proof.
  intros Hm Hi0 Hn0 Hf He Hf' He'. revert r0 Hm Hi0 Hn0.
  induction m as [[a | e] | X t k IH | tasks k IH]; intros r0 Hm Hi0 Hn0;
    cbn [atry holds] in *.
  - by apply Hf.
  - by apply He.
  - eapply thread_holds_impl; [| | done | done | exact Hm].
    + intros o r Hi Hn Hk. by apply IH.
    + intros t' r Hi Ht. cbn beta in *.
      eapply thread_survives_impl; [| done | exact Ht].
      intros o r' Hi' Hk. by apply (survives_try _ _ Q1').
  - destruct Hm as [Hok Hk]. split; [done |].
    intros r Hb Hi. destruct (Hk r Hb Hi) as [Hful Hrej]. split.
    + intros values Hn. by apply IH; [apply Hful | |].
    + intros e He0. apply (survives_try _ _ Q1'); [by apply Hrej | done..].
Qed.

End LogicFacts.

(** *** A handler that runs alone

    Alone, a handler runs as beside callbacks that do nothing.  [C1] are
    the conditions [C] with nothing rejected so far added to the invariant
    and with no step at all allowed beside. *)

Section Alone.

Variables C C1 : Conditions.

Hypothesis invariant_alone :
  ∀ r, @invariant C1 r ↔ @invariant C r ∧ ¬ @spoiled C r.
Hypothesis going_alone : ∀ r r', @going C1 r r' → @going C r r'.
Hypothesis beside_alone : ∀ r, @beside C1 r r.

Lemma thread_alone {X} (t : Thread X) (P : Outcome X → Run World → Prop)
    (F : Thread X → Run World → Prop) r :
  @thread_survives C1 X t P r → @invariant C1 r →
  @thread_holds C X t P F r.
Proof.
  revert r. induction t as [o | Y f k IH | Y io k IH]; intros r Ht Hi;
    cbn [thread_survives thread_holds] in *.
  - done.
  - destruct (Ht r (beside_alone r) Hi) as (Hg & Hi1 & Ht1).
    pose proof (proj1 (invariant_alone _) Hi1) as [Hi1' Hn1].
    split_and!; [by apply going_alone | done | done | by apply IH].
  - destruct (Ht r (beside_alone r) Hi) as (Hg & Hi1 & Ht1).
    pose proof (proj1 (invariant_alone _) Hi1) as [Hi1' Hn1].
    split_and!; [by apply going_alone | done |]. right.
    split; [done | by apply IH].
Qed.

Lemma alone_holds {A} (m : Async A) (Q Q' : Run World → Outcome A → Prop) r :
  @survives C1 A m Q r → @invariant C1 r → no_stage m →
  @holds C A m Q Q' r.
Proof.
  revert r. induction m as [o | X t k IH | tasks k IH]; intros r Hm Hi Hno;
    cbn [survives holds no_stage] in *.
  - by apply Hm.
  - pose proof (proj1 (invariant_alone _) Hi) as [Hi' Hn].
    eapply (thread_holds_impl (conditions := C));
      [| | done | done | by apply thread_alone].
    + intros o r' Hi1 Hn1 Hk. apply IH; [done | | done].
      by apply invariant_alone.
    + intros t' r' _ Hf. exact Hf.
  - done.
Qed.

End Alone.

(** * Interleaved deliveries *)

Section DeliveryFacts.

Variable provider : nat → Provider → string → string → Q → ProviderReply.
Variable toISOString : nat → string.
Variable webhook_delivers : nat → string → bool.
Variable JSON_stringify : Blob → string.
Variable message : QueueMessage.
Variable r0 : Run World.

Abbreviation C := (delivery_conditions provider toISOString message r0).
Abbreviation key := (job_key (jobId message)).
Abbreviation n0 := (length (kv_history (sink r0))).
Abbreviation inv := (delivery_invariant toISOString message r0).
Abbreviation failed_call := (rejected_call provider (length (calls r0))).

#[local] Instance goes_on_order : PreOrder goes_on.
Proof.
  split.
  - intros r. by split.
  - intros a b c [? ?] [? ?]. split; by etrans.
Qed.

#[local] Instance runs_beside_order : PreOrder runs_beside.
Proof.
  split.
  - intros r. split; [apply goes_on_order | done].
  - intros a b c (Hg1 & ? & ? & ?) (Hg2 & ? & ? & ?). split_and!;
      [by eapply goes_on_order | congruence..].
Qed.

Lemma beside_order alone : PreOrder (@beside (C alone)).
Proof.
  destruct alone; cbn [beside delivery_conditions].
  - split; [done | by intros a b c -> ->].
  - apply runs_beside_order.
Qed.

Lemma beside_runs alone r r' : @beside (C alone) r r' → runs_beside r r'.
Proof.
  destruct alone; cbn [beside delivery_conditions]; [| done].
  intros ->. apply runs_beside_order.
Qed.

Lemma beside_goes_on alone r r' : @beside (C alone) r r' → goes_on r r'.
Proof. by intros [? _]%beside_runs. Qed.

Lemma failed_call_stays e r r' : goes_on r r' → failed_call e r → failed_call e r'.
Proof.
  intros [[k Hk] _] (n & c & Hn & Hc & Ho). exists n, c.
  split_and!; [done | | done]. rewrite Hk. by apply lookup_app_l_Some.
Qed.

Lemma nothing_failed_yet : ¬ ∃ e, failed_call e r0.
Proof.
  intros (e & n & c & Hn & Hc & _). apply lookup_lt_Some in Hc. lia.
Qed.

Lemma invariant_at_entry alone : @invariant (C alone) r0.
Proof.
  split; [| intros _; apply nothing_failed_yet].
  split_and!.
  - done.
  - rewrite drop_all. by intros p ?%elem_of_nil.
  - lia.
  - intros p Hp. apply lookup_lt_Some in Hp. lia.
  - done.
Qed.

(** A step that leaves the status records, their log and the log of calls
    as they are. *)
Lemma keeps_records alone r r' :
  @invariant (C alone) r →
  JOBS (sink r') = JOBS (sink r) →
  kv_history (sink r') = kv_history (sink r) →
  calls r' = calls r →
  goes_on r r' ∧ @invariant (C alone) r'.
Proof.
  intros [(I0 & I1 & I2 & I3 & I4) In] HJ HH HC.
  assert (goes_on r r') as Hg by (split; [by rewrite HC | by rewrite HH]).
  split; [done |]. split.
    + unfold delivery_invariant, stamped. rewrite HH, HJ.
      split; [by etrans | done].
    + intros Ha (e & n & c & Hn & Hc & Ho). apply (In Ha).
      exists e, n, c. by rewrite <- HC.
Qed.

(** A write of the status record. *)
Lemma keeps_put alone r u :
  @invariant (C alone) r →
  status u ≠ queued →
  ((∀ n, toISOString n ≠ "") → stamped (sink r0) → created_at u ≠ "") →
  (length (kv_history (sink r)) = n0 →
   (key, u) = first_write toISOString message (sink r0)) →
  goes_on r (mkRun (kv_put key u (sink r)) (calls r))
  ∧ @invariant (C alone) (mkRun (kv_put key u (sink r)) (calls r))
  ∧ written message r0 (mkRun (kv_put key u (sink r)) (calls r)) u
  ∧ n0 < length (kv_history (kv_put key u (sink r))).
Proof.
  intros [(I0 & I1 & I2 & I3 & I4) In] Hst Hcr Hfirst.
  assert (n0 ≤ length (kv_history (sink r))) as Hlen
    by (destruct I0 as [_ H]; by apply prefix_length).
  assert (goes_on r (mkRun (kv_put key u (sink r)) (calls r))) as Hg
    by (split; [done |]; cbn; by apply prefix_app_r).
  split_and!.
  - done.
  - split; [| done]. split_and!; cbn.
    + by etrans.
    + rewrite drop_app_le by done.
      intros p [Hp | ->%list_elem_of_singleton]%elem_of_app; [by apply I1 | done].
    + intros _. exists u. split; [apply lookup_insert_eq | done].
    + intros p Hp.
      destruct (decide (length (kv_history (sink r)) = n0)) as [Heq | Hne].
      * rewrite <- Heq, list_lookup_middle in Hp by done.
        injection Hp as <-. by apply Hfirst.
      * apply I3. rewrite lookup_app_l in Hp by lia. done.
    + intros Hiso Hw0 k v. cbn.
      destruct (decide (k = key)) as [-> | Hk].
      * rewrite lookup_insert_eq. intros [= <-]. by apply Hcr.
      * rewrite lookup_insert_ne by done. by apply I4.
  - unfold written. cbn. rewrite drop_app_le by done.
    apply elem_of_app. right. left.
  - cbn. rewrite length_app. cbn. lia.
Qed.

Lemma begun_later r r' : goes_on r r' → begun r0 r → begun r0 r'.
Proof.
  intros [_ H%prefix_length]. unfold begun. lia.
Qed.

Lemma untouched_beside r r' :
  runs_beside r r' → untouched r0 r → untouched r0 r'.
Proof.
  intros (_ & ? & ? & ?) (? & ? & ?). unfold untouched. split_and!; congruence.
Qed.

(** A progress update in a thread of the handler. *)
Lemma updateJobProgress_survives alone stage_ step_
    (P : Outcome unit → Run World → Prop) r1 :
  begun r0 r1 →
  (∀ r, runs_beside r1 r → @invariant (C alone) r → P (Fulfilled tt) r) →
  @thread_survives (C alone) _
    (Interleaved.updateJobProgress (jobId message) stage_ step_) P r1.
Proof.
  intros Hbegun HP. unfold Interleaved.updateJobProgress.
  cbn [tbind await thread_survives].
  intros r Hb%beside_runs Hi. unfold kv_get, on_sink. cbn [fst snd].
  destruct (keeps_records alone r (mkRun (sink r) (calls r)) Hi)
    as [Hg Hi1]; [done.. |].
  split_and!; [done | done |].
  assert (runs_beside r1 (mkRun (sink r) (calls r))) as Hb1 by done.
  destruct (JOBS (sink r) !! key) as [existing|] eqn:He;
    cbn [tbind await thread_survives]; [| by apply HP].
  intros r2 Hb2%beside_runs Hi2. unfold act, on_sink. cbn [fst snd].
  assert (runs_beside r1 r2) as Hb12 by by etrans.
  destruct Hi as [(I0 & I1 & I2 & I3 & I4) In].
  destruct (I2 (begun_later _ _ (proj1 Hb) Hbegun)) as (u & Hu & Hst).
  rewrite He in Hu. injection Hu as <-.
  match goal with
  | |- context [kv_put key ?v] =>
      destruct (keeps_put alone r2 v Hi2) as (Hg2 & Hi3 & _ & _)
  end.
  - done.
  - intros Hiso Hs. cbn. by apply (I4 Hiso Hs key).
  - intros Hlen. pose proof (begun_later _ _ (proj1 Hb12) Hbegun) as Hbg.
    unfold begun in Hbg. lia.
  - split_and!; [done | done |]. apply HP; [| done].
    etrans; [exact Hb12 |]. split; [done | done].
Qed.

(** An operation, awaited or synchronous, that leaves the status records,
    their log and the log of calls as they are. *)
Lemma keeping_await alone {X} (io : Eng World X)
    (P : Outcome X → Run World → Prop) r1 :
  (∀ r, JOBS (sink (io r).1) = JOBS (sink r)
        ∧ kv_history (sink (io r).1) = kv_history (sink r)
        ∧ calls (io r).1 = calls r) →
  (∀ r, @beside (C alone) r1 r → @invariant (C alone) r →
        @invariant (C alone) (io r).1 → P (io r).2 (io r).1) →
  @thread_survives (C alone) _ (await io) P r1.
Proof.
  intros Hio HP. cbn [await thread_survives]. intros r Hb Hi.
  destruct (Hio r) as (HJ & HH & HC).
  destruct (keeps_records alone r (io r).1 Hi HJ HH HC) as [Hg Hi1].
  split_and!; [done | done |]. by apply HP.
Qed.

Lemma keeping_sync alone {X} (f : Eng World X)
    (P : Outcome X → Run World → Prop) r1 :
  (∀ r, JOBS (sink (f r).1) = JOBS (sink r)
        ∧ kv_history (sink (f r).1) = kv_history (sink r)
        ∧ calls (f r).1 = calls r) →
  (∀ r, @beside (C alone) r1 r → @invariant (C alone) r →
        @invariant (C alone) (f r).1 → P (f r).2 (f r).1) →
  @thread_survives (C alone) _ (sync f) P r1.
Proof.
  intros Hio HP. cbn [sync thread_survives]. intros r Hb Hi.
  destruct (Hio r) as (HJ & HH & HC).
  destruct (keeps_records alone r (f r).1 Hi HJ HH HC) as [Hg Hi1].
  split_and!; [done | done |]. by apply HP.
Qed.

(** The time stamp of a merged record. *)
Lemma merged_created_at existing jobId st t extra :
  p_created_at extra = None →
  (∀ n, toISOString n ≠ "") → (∃ n, t = toISOString n) →
  created_at (merged_status existing jobId st t extra) ≠ "".
Proof.
  intros Hx Hiso [n ->]. cbn. rewrite Hx. cbn.
  destruct existing as [e|]; [| apply Hiso].
  destruct (created_at e) eqn:Hc; cbn; [apply Hiso | done].
Qed.

(** The first status write of a delivery. *)
Lemma updateJobStatus_first (P : Outcome unit → Run World → Prop) ra :
  sink ra = tick (sink r0) → calls ra = calls r0 →
  (∀ r, runs_beside ra r → @invariant (C true) r → begun r0 r →
        P (Fulfilled tt) r) →
  @thread_survives (C true) _
    (Interleaved.updateJobStatus toISOString (jobId message) processing
       (mkPartial None None None (Some (toISOString (clock (sink r0)))) None
          None None None None)) P ra.
Proof.
  intros Hsink Hcalls HP. unfold Interleaved.updateJobStatus.
  cbn [tbind await sync thread_survives].
  intros r -> Hi. unfold kv_get, on_sink. cbn [fst snd].
  destruct (keeps_records true ra (mkRun (sink ra) (calls ra)) Hi)
    as [Hg Hi1]; [done.. |].
  split_and!; [done | done |].
  intros r -> Hi2. cbn [fst snd sink calls].
  match goal with
  | |- going _ ?r' ∧ _ =>
      destruct (keeps_records true (mkRun (sink ra) (calls ra)) r' Hi2)
        as [Hg3 Hi3]; [by destruct (needs_now _).. | done |]
  end.
  split_and!; [done | done |].
  intros r -> Hi4. unfold act, on_sink. cbn [fst snd sink calls].
  match goal with
  | |- context [kv_put key ?v] =>
      destruct (keeps_put true
                  (mkRun (if needs_now (JOBS (sink ra) !! key)
                          then tick (sink ra) else sink ra) (calls ra))
                  v Hi4) as (Hg5 & Hi5 & _ & Hb5)
  end.
  - done.
  - intros Hiso _. apply merged_created_at; [done | done | by eexists].
  - intros _. unfold first_write. rewrite Hsink. done.
  - cbn [sink calls] in *. split_and!; [done | done |].
    apply HP; [| done | done].
    split; [| by destruct (needs_now _)].
    etrans; [exact Hg |]. etrans; [exact Hg3 |]. exact Hg5.
Qed.

(** A later status write. *)
Lemma updateJobStatus_survives alone st extra
    (P : Outcome unit → Run World → Prop) r1 :
  begun r0 r1 → st ≠ queued →
  p_status extra = None → p_created_at extra = None →
  (∀ r u, runs_beside r1 r → @invariant (C alone) r →
          written message r0 r u →
          (∃ existing t,
             u = merged_status existing (jobId message) st t extra) →
          P (Fulfilled tt) r) →
  @thread_survives (C alone) _
    (Interleaved.updateJobStatus toISOString (jobId message) st extra) P r1.
Proof.
  intros Hbegun Hst Hxs Hxc HP. unfold Interleaved.updateJobStatus.
  cbn [tbind await sync thread_survives].
  intros r Hb%beside_runs Hi. unfold kv_get, on_sink. cbn [fst snd].
  destruct (keeps_records alone r (mkRun (sink r) (calls r)) Hi)
    as [Hg Hi1]; [done.. |].
  split_and!; [done | done |].
  intros r2 Hb2%beside_runs Hi2. cbn [fst snd sink calls].
  match goal with
  | |- going _ ?r' ∧ _ =>
      destruct (keeps_records alone r2 r' Hi2)
        as [Hg3 Hi3]; [by destruct (needs_now _).. | done |]
  end.
  split_and!; [done | done |].
  intros r4 Hb4%beside_runs Hi4. unfold act, on_sink. cbn [fst snd sink calls].
  assert (runs_beside r1 r4) as Hb14.
  { etrans; [exact Hb |]. etrans; [exact Hb2 |]. etrans; [| exact Hb4].
    split; [done |]. by destruct (needs_now _). }
  match goal with
  | |- context [kv_put key ?v] =>
      destruct (keeps_put alone r4 v Hi4) as (Hg5 & Hi5 & Hw5 & _)
  end.
  - cbn. by rewrite Hxs.
  - intros Hiso _. apply merged_created_at; [done | done | by eexists].
  - intros Hlen. pose proof (begun_later _ _ (proj1 Hb14) Hbegun) as Hbg.
    unfold begun in Hbg. lia.
  - split_and!; [done | done |]. eapply HP; [| done | done | by eexists _, _].
    etrans; [exact Hb14 |]. split; [done | done].
Qed.

(** A generation call awaited by the handler. *)
Lemma call_holds site prompt model temperature
    (P : Outcome string → Run World → Prop)
    (F : Thread string → Run World → Prop) r :
  @invariant (C false) r → ¬ (∃ e, failed_call e r) →
  (∀ text r', runs_beside r r' → @invariant (C false) r' →
              ¬ (∃ e, failed_call e r') → P (Fulfilled text) r') →
  (∀ e r', runs_beside r r' → @invariant (C false) r' →
           failed_call e r' → F (Settled (Rejected e)) r') →
  @thread_holds (C false) _
    (await (llm_query provider site prompt model temperature)) P F r.
Proof.
  intros Hi Hn HP HF. cbn [await thread_holds]. unfold llm_query.
  cbn [fst snd].
  set (c := mkLlmCall site prompt model temperature).
  set (r' := mkRun (sink r) (calls r ++ [c])).
  assert (goes_on r r') as Hg by (split; [by apply prefix_app_r | done]).
  assert (runs_beside r r') as Hb by done.
  assert (@invariant (C false) r') as Hi'.
  { destruct Hi as [(I0 & I1 & I2 & I3 & I4) _]. split; [| done].
    split_and!; try done. by etrans. }
  assert (length (calls r0) ≤ length (calls r)) as Hlen.
  { destruct Hi as [([H _] & _) _]. by apply prefix_length. }
  split_and!; [done | done |].
  destruct (query provider (length (calls r)) prompt model temperature)
    as [text | e] eqn:Hq.
  - right.
    assert (¬ (∃ e, failed_call e r')) as Hn'.
    { intros (e & n & c' & Hn0 & Hc & Ho). apply Hn.
      destruct (decide (n < length (calls r))) as [Hlt | Hge].
      - exists e, n, c'. split_and!; [done | | done].
        unfold r' in Hc. cbn in Hc. by rewrite lookup_app_l in Hc.
      - unfold r' in Hc. cbn in Hc.
        assert (n = length (calls r)) as ->.
        { apply lookup_lt_Some in Hc. rewrite length_app in Hc. cbn in Hc.
          lia. }
        rewrite list_lookup_middle in Hc by done. injection Hc as <-.
        unfold call_outcome in Ho. cbn in Ho. congruence. }
    split; [done |]. by apply HP.
  - assert (failed_call e r') as He.
    { exists (length (calls r)), c. split_and!; [done | |].
      - unfold r'. cbn. by apply list_lookup_middle.
      - done. }
    left. split; [by exists e |]. by apply HF.
Qed.

(** The body of a callback of a stage. *)
Lemma ask_ok site stageName model temperature prompt role_ r1 :
  begun r0 r1 →
  @callback_ok (C false) _
    (Interleaved.ask provider
       (Some (Interleaved.progressCallback (jobId message)))
       site stageName model temperature prompt role_) r1.
Proof.
  intros Hbegun.
  unfold Interleaved.ask, Interleaved.report, Interleaved.progressCallback,
    Interleaved.updateJobProgress.
  cbn [tbind await callback_ok].
  intros r Hg Hi. unfold kv_get, on_sink. cbn [fst snd].
  destruct (keeps_records false r (mkRun (sink r) (calls r)) Hi)
    as [Hg1 Hi1]; [done.. |].
  assert (∀ r, @callback_ok (C false) _
            (Await (llm_query provider site (prompt role_) model temperature)
               (fun o =>
                  tbind (Settled o)
                    (fun response =>
                       Settled
                         (Fulfilled
                            (mkStageResponse (role_name role_) response)))))
            r) as Hcall.
  { clear. intros r1. cbn [callback_ok]. intros r Hg Hi.
    unfold llm_query. cbn [fst snd].
    set (c := mkLlmCall site (prompt role_) model temperature).
    set (r' := mkRun (sink r) (calls r ++ [c])).
    assert (goes_on r r') as Hg' by (split; [by apply prefix_app_r | done]).
    assert (@invariant (C false) r') as Hi'.
    { destruct Hi as [(I0 & I1 & I2 & I3 & I4) _]. split; [| done].
      split_and!; try done. by etrans. }
    assert (length (calls r0) ≤ length (calls r)) as Hlen.
    { destruct Hi as [([H _] & _) _]. by apply prefix_length. }
    split_and!; [done | done | |].
    - intros Hn.
      destruct (query provider (length (calls r)) (prompt role_) model
                  temperature) as [text | e] eqn:Hq; [| by right].
      left. intros (e & n & c' & Hn0 & Hc & Ho). apply Hn.
      destruct (decide (n < length (calls r))) as [Hlt | Hge].
      + exists e, n, c'. split_and!; [done | | done].
        unfold r' in Hc. cbn in Hc. by rewrite lookup_app_l in Hc.
      + unfold r' in Hc. cbn in Hc.
        assert (n = length (calls r)) as ->.
        { apply lookup_lt_Some in Hc. rewrite length_app in Hc. cbn in Hc.
          lia. }
        rewrite list_lookup_middle in Hc by done. injection Hc as <-.
        unfold call_outcome in Ho. cbn in Ho. congruence.
    - destruct (query provider (length (calls r)) (prompt role_) model
                  temperature) as [text | e] eqn:Hq;
        cbn [tbind callback_ok]; [done |].
      intros e' [= <-]. exists (length (calls r)), c. split_and!; [done | |].
      + unfold r'. cbn. by apply list_lookup_middle.
      + done. }
  split_and!; [done | done | by left |].
  destruct (JOBS (sink r) !! key) as [existing|] eqn:He;
    cbn [tbind await callback_ok]; [| apply Hcall].
  intros r2 Hg2 Hi2. unfold act, on_sink. cbn [fst snd].
  destruct Hi as [(I0 & I1 & I2 & I3 & I4) In].
  destruct (I2 (begun_later _ _ Hg Hbegun)) as (u & Hu & Hst).
  rewrite He in Hu. injection Hu as <-.
  match goal with
  | |- context [kv_put key ?v] =>
      destruct (keeps_put false r2 v Hi2) as (Hg3 & Hi3 & _ & _)
  end.
  - done.
  - intros Hiso Hs. cbn. by apply (I4 Hiso Hs key).
  - intros Hlen.
    pose proof (begun_later _ _ (transitivity Hg1 Hg2)
                  (begun_later _ _ Hg Hbegun)) as Hbg.
    unfold begun in Hbg. cbn in Hbg. lia.
  - split_and!; [done | done | by left | apply Hcall].
Qed.

Lemma written_later r r' u :
  goes_on r r' → written message r0 r u → written message r0 r' u.
Proof.
  intros [_ [k Hk]]. unfold written. rewrite Hk.
  intros Hin. apply list_elem_of_lookup in Hin as [i Hi].
  rewrite lookup_drop in Hi.
  apply list_elem_of_lookup. exists i. rewrite lookup_drop.
  by apply lookup_app_l_Some.
Qed.

(** The [catch] block, alone or beside callbacks still in flight. *)
Lemma on_failure_survives alone e
    (P : Run World → Outcome unit → Prop) r1 :
  begun r0 r1 → untouched r0 r1 →
  (∀ r, goes_on r1 r → @invariant (C alone) r →
        ended_failed message e r0 r → P r (Fulfilled tt)) →
  @survives (C alone) _
    (Interleaved.on_failure toISOString webhook_delivers message e) P r1.
Proof.
  intros Hbegun Hun HP. unfold Interleaved.on_failure.
  cbn [abind run survives].
  apply keeping_sync; [done |].
  intros ra Hba%beside_runs Hia Hia'. cbn [now on_sink fst snd abind survives].
  set (ra' := mkRun (tick (sink ra)) (calls ra)) in *.
  assert (runs_beside r1 ra') as Hb1 by (etrans; [exact Hba | done]).
  apply updateJobStatus_survives;
    [by eapply begun_later, Hbegun; apply Hb1 | done | done | done |].
  intros rb u Hbb Hib Hw (existing & t & ->).
  assert (runs_beside r1 rb) as Hb2 by by etrans.
  pose proof (untouched_beside _ _ Hb2 Hun) as (HS & HD & HW).
  cbn [abind].
  assert (∀ at_ rc,
            goes_on rb rc → @invariant (C alone) rc →
            STORAGE (sink rc) = STORAGE (sink r0) →
            dispositions (sink rc) = dispositions (sink r0) →
            webhook_posts (sink rc)
            = webhook_posts (sink r0) ++ webhook_of message failed at_ (Some e) →
            @survives (C alone) _
              (let* _ := Done (Fulfilled tt) in
               run (sync (act (dispose (jobId message) Retry)))) P rc)
    as Hdispose.
  { intros at_ rc Hgc Hic HSc HDc HWc. cbn [abind run survives].
    apply keeping_sync; [done |].
    intros rd Hbd%beside_runs Hid Hid'. cbn [act on_sink fst snd survives].
    intros re Hbe%beside_runs Hie.
    set (rd' := mkRun (dispose (jobId message) Retry (sink rd)) (calls rd)) in *.
    assert (goes_on rb re) as Hge.
    { etrans; [exact Hgc |]. etrans; [apply Hbd |].
      etrans; [| apply Hbe]. done. }
    apply HP; [| done |].
    - etrans; [apply Hb2 | done].
    - destruct Hbd as (_ & HSd & HDd & HWd).
      destruct Hbe as (_ & HSe & HDe & HWe).
      unfold ended_failed. split_and!.
      + rewrite HDe. unfold rd'. cbn. by rewrite HDd, HDc.
      + rewrite HSe. unfold rd'. cbn. by rewrite HSd, HSc.
      + eexists. split_and!; [by eapply written_later, Hw | done | done |].
        by eexists.
      + exists at_. rewrite HWe. unfold rd'. cbn. by rewrite HWd, HWc. }
  unfold Interleaved.notify_failed, webhook_of in *.
  destruct (truthy (webhookUrl message)) as [url|].
  - cbn [atry abind run survives].
    apply keeping_sync; [done |].
    intros rc Hbc%beside_runs Hic Hic'.
    cbn [now on_sink fst snd atry abind run survives].
    apply keeping_await; [done |].
    intros rd Hbd%beside_runs Hid Hid'.
    assert (runs_beside rb rd) as Hbbd.
    { etrans; [exact Hbc |]. etrans; [| exact Hbd]. done. }
    destruct Hbbd as (Hgd & HSd & HDd & HWd).
    set (post := mkWebhookPost _ _ _ _ _ _) in *.
    assert (@survives (C alone) _
              (let* _ := Done (Fulfilled tt) in
               run (sync (act (dispose (jobId message) Retry)))) P
              (fetch_webhook webhook_delivers post rd).1) as Hrest.
    { apply (Hdispose (toISOString (clock (sink rc)))).
      - etrans; [exact Hgd |]. done.
      - done.
      - cbn. by rewrite HSd.
      - cbn. by rewrite HDd.
      - cbn. by rewrite HWd, HW. }
    destruct (fetch_webhook webhook_delivers post rd) as [rf [[] | msg]];
      exact Hrest.
  - apply (Hdispose ""); [done | done | done | done |].
    by rewrite app_nil_r.
Qed.

(** *** The handler alone *)

Lemma invariant_alone r :
  @invariant (C true) r ↔ @invariant (C false) r ∧ ¬ @spoiled (C false) r.
Proof.
  cbn [invariant delivery_conditions]. unfold spoiled.
  cbn [on_record delivery_conditions]. split.
  - intros [Hi Hn]. split; [by split | by apply Hn].
  - intros [[Hi _] Hn]. by split.
Qed.

Lemma alone_thread {X} (t : Thread X) (P : Outcome X → Run World → Prop)
    (F : Thread X → Run World → Prop) r :
  @thread_survives (C true) X t P r →
  @invariant (C false) r → ¬ @spoiled (C false) r →
  @thread_holds (C false) X t P F r.
Proof.
  intros Ht Hi Hn.
  apply (thread_alone (C false) (C true)); try done.
  - apply invariant_alone.
  - by apply invariant_alone.
Qed.

Lemma alone_handler {A} (m : Async A)
    (Q Q' : Run World → Outcome A → Prop) r :
  @survives (C true) A m Q r →
  @invariant (C false) r → ¬ @spoiled (C false) r → no_stage m →
  @holds (C false) A m Q Q' r.
Proof.
  intros Hm Hi Hn Hno.
  apply (alone_holds (C false) (C true)); try done.
  - apply invariant_alone.
  - by apply invariant_alone.
Qed.

(** *** The steps of a review *)

Abbreviation reviewing_alone :=
  (running_alone provider toISOString message r0).

Lemma report_holds {A} stage_ step_ (k : Outcome unit → Async A)
    (Q Q' : Run World → Outcome A → Prop) r :
  reviewing_alone r →
  (∀ r', reviewing_alone r' → @holds (C false) _ (k (Fulfilled tt)) Q Q' r') →
  @holds (C false) _
    (Do (Interleaved.updateJobProgress (jobId message) stage_ step_) k)
    Q Q' r.
Proof.
  intros (Hbegun & Hun & Hi & Hn) Hrest. cbn [holds].
  apply alone_thread; [| done | done].
  apply updateJobProgress_survives; [done |].
  intros r' Hb [Hi' Hn']%invariant_alone. apply Hrest.
  split_and!; [| | done | done].
  - by eapply begun_later, Hbegun; apply Hb.
  - by eapply untouched_beside.
Qed.

Lemma stage_holds {A} site stageName model temperature prompt roles
    (k : Outcome (list StageResponse) → Async A)
    (Q Q' : Run World → Outcome A → Prop) r :
  reviewing_alone r →
  (∀ values r', reviewing_alone r' →
                @holds (C false) _ (k (Fulfilled values)) Q Q' r') →
  (∀ e r', broken provider r0 r' (Rejected e : Outcome A) →
           @invariant (C false) r' →
           @survives (C false) _ (k (Rejected e)) Q' r') →
  @holds (C false) _
    (All (map (Interleaved.ask provider
                 (Some (Interleaved.progressCallback (jobId message)))
                 site stageName model temperature prompt) roles) k)
    Q Q' r.
Proof.
  intros (Hbegun & Hun & Hi & Hn) Hrest HQ'.
  cbn [holds]. split.
  - apply callbacks_ok_Forall, Forall_forall.
    intros t (role_ & -> & _)%list_elem_of_fmap. by apply ask_ok.
  - intros r' Hb Hi'. cbn [beside delivery_conditions] in Hb. split.
    + intros values Hn'. apply Hrest. split_and!; [| | done | done].
      * by eapply begun_later, Hbegun; apply Hb.
      * by eapply untouched_beside.
    + intros e He. apply HQ'; [| done]. split_and!.
      * done.
      * by eapply begun_later, Hbegun; apply Hb.
      * by eapply untouched_beside.
Qed.

Lemma synthesis_holds {A} site prompt model temperature
    (k : Outcome string → Async A)
    (Q Q' : Run World → Outcome A → Prop) r :
  reviewing_alone r →
  (∀ text r', reviewing_alone r' →
              @holds (C false) _ (k (Fulfilled text)) Q Q' r') →
  (∀ e r', broken provider r0 r' (Rejected e : Outcome A) →
           @invariant (C false) r' →
           @survives (C false) _ (k (Rejected e)) Q' r') →
  @holds (C false) _
    (Do (await (llm_query provider site prompt model temperature)) k)
    Q Q' r.
Proof.
  intros (Hbegun & Hun & Hi & Hn) Hrest HQ'.
  cbn [holds]. apply call_holds; [done | done | |].
  - intros text r' Hb Hi' Hn'. apply Hrest.
    split_and!; [| | done | done].
    + by eapply begun_later, Hbegun; apply Hb.
    + by eapply untouched_beside.
  - intros e r' Hb Hi' He. cbn [thread_survives].
    apply HQ'; [| done]. split_and!.
    + done.
    + by eapply begun_later, Hbegun; apply Hb.
    + by eapply untouched_beside.
Qed.

Lemma broken_survives {A} e r :
  broken provider r0 r (Rejected e : Outcome A) →
  @survives (C false) A (Done (Rejected e)) (broken provider r0) r.
Proof.
  intros (He & Hbegun & Hun). cbn [survives]. intros r' Hb Hi.
  cbn [beside delivery_conditions] in Hb. split_and!.
  - eapply failed_call_stays; [apply Hb | done].
  - by eapply begun_later, Hbegun; apply Hb.
  - by eapply untouched_beside.
Qed.

(** The review, run alone after the first status write: it ends with
    nothing but the status record and the log of calls changed, or a call
    fails and it is rejected with that call's message. *)
Lemma review_holds config documentContent r :
  reviewing_alone r →
  @holds (C false) _
    (Interleaved.reviewDocument provider config documentContent
       (Some (Interleaved.progressCallback (jobId message))))
    (steady r0) (broken provider r0) r.
Proof.
  intros Hr. unfold Interleaved.reviewDocument.
  cbn [abind run all Interleaved.report Interleaved.progressCallback].
  apply report_holds; [done |]. clear r Hr. intros r Hr. cbn [abind].
  apply stage_holds; [done | | intros; by apply broken_survives].
  clear r Hr. intros stage1Results r Hr. cbn [abind].
  apply report_holds; [done |]. clear r Hr. intros r Hr. cbn [abind].
  apply stage_holds; [done | | intros; by apply broken_survives].
  clear r Hr. intros stage2Results r Hr. cbn [abind]. cbn zeta.
  assert (∀ stage3Results r',
            reviewing_alone r' →
            @holds (C false) _
              (let* _ :=
                 run (Interleaved.report
                        (Some (Interleaved.progressCallback (jobId message)))
                        "stage4" "Starting CEO synthesis") in
               let* synthesis :=
                 run (await
                        (llm_query provider 4
                           (synthesisPrompt config documentContent
                              (formatStage1Responses stage1Results)
                              (formatStage2Responses stage2Results)
                              (if (0 <? length stage3Results)%nat
                               then formatStage2Responses stage3Results
                               else no_responses))
                           (ceo_model config) 0.7)) in
               let* _ :=
                 run (Interleaved.report
                        (Some (Interleaved.progressCallback (jobId message)))
                        "stage4" "Synthesis complete") in
               Done (Fulfilled
                       (mkReviewResult stage1Results stage2Results
                          stage3Results synthesis)))
              (steady r0) (broken provider r0) r') as Hstage4.
  { intros stage3Results r' Hr'.
    cbn [abind run all Interleaved.report Interleaved.progressCallback].
    apply report_holds; [done |]. clear r' Hr'. intros r' Hr'. cbn [abind].
    apply synthesis_holds; [done | | intros; by apply broken_survives].
    clear r' Hr'. intros synthesis r' Hr'. cbn [abind].
    apply report_holds; [done |]. clear r' Hr'. intros r' Hr'.
    cbn [abind holds]. destruct Hr' as (? & ? & _). by split. }
  destruct (0 <? length (getExecutivesWithQuestions stage2Results))%nat;
    cbn [abind run all Interleaved.report Interleaved.progressCallback].
  - apply report_holds; [done |]. clear r Hr. intros r Hr. cbn [abind].
    apply stage_holds; [done | | intros; by apply broken_survives].
    clear r Hr. intros stage3Results r Hr. cbn [abind].
    by apply Hstage4.
  - apply report_holds; [done |]. clear r Hr. intros r Hr. cbn [abind].
    by apply Hstage4.
Qed.

(** *** The whole delivery *)

Lemma no_stage_bind {A B} (m : Async A) (f : A → Async B) :
  no_stage m → (∀ a, no_stage (f a)) → no_stage (abind m f).
Proof.
  intros Hm Hf. induction m as [[a | e] | X t k IH | tasks k IH];
    cbn [abind no_stage] in *; try done.
  intros o. by apply IH.
Qed.

Lemma no_stage_try {A} (m : Async A) (h : string → Async A) :
  no_stage m → (∀ e, no_stage (h e)) → no_stage (atry m h).
Proof.
  intros Hm Hh. induction m as [[a | e] | X t k IH | tasks k IH];
    cbn [atry no_stage] in *; try done.
  intros o. by apply IH.
Qed.

Lemma no_stage_run {X} (t : Thread X) : no_stage (run t).
Proof. done. Qed.

Lemma no_stage_on_failure e :
  no_stage (Interleaved.on_failure toISOString webhook_delivers message e).
Proof.
  unfold Interleaved.on_failure, Interleaved.notify_failed.
  repeat (apply no_stage_bind; [| intros ?]); try apply no_stage_run.
  destruct (truthy _); [| done].
  apply no_stage_try; [| done].
  apply no_stage_bind; [| intros ?]; apply no_stage_run.
Qed.

Abbreviation attempted := (tried message r0).

(** The rest of the [try] block after the review. *)
Lemma completion_survives result
    (rest : Async unit) r1 :
  rest
  = (let* _ := run (sync (now toISOString)) in
     let* _ :=
       run (await (act (r2_put (result_key (jobId message))
                          (ResultBlob result)))) in
     let* completedAt := run (sync (now toISOString)) in
     let* _ :=
       run (Interleaved.updateJobStatus toISOString (jobId message) completed
              (mkPartial None None None None (Some completedAt) None None
                 None None)) in
     let* _ :=
       Interleaved.notify_completed toISOString webhook_delivers
         (jobId message) (webhookUrl message) in
     run (sync (act (dispose (jobId message) Ack)))) →
  begun r0 r1 → untouched r0 r1 →
  no_stage rest ∧ @survives (C true) _ rest attempted r1.
Proof.
  intros -> Hbegun (HS & HD & HW). split.
  { unfold Interleaved.notify_completed.
    repeat (apply no_stage_bind; [| intros ?]); try apply no_stage_run.
    destruct (truthy _); [| done].
    apply no_stage_try; [| done].
    apply no_stage_bind; [| intros ?]; apply no_stage_run. }
  cbn [abind run survives].
  apply keeping_sync; [done |].
  intros ? -> _ _. cbn [now on_sink fst snd abind survives].
  apply keeping_await; [done |].
  intros ? -> _ _. cbn [act on_sink fst snd abind survives sink calls].
  apply keeping_sync; [done |].
  intros ? -> _ _. cbn [now on_sink fst snd abind survives sink calls].
  apply updateJobStatus_survives; [done | done | done | done |].
  intros rb u (Hgb & HSb & HDb & HWb) Hib Hw (existing & t & ->).
  cbn [sink calls STORAGE dispositions webhook_posts tick r2_put] in *.
  cbn [abind].
  assert (∀ at_ rc,
            @invariant (C true) rc →
            goes_on rb rc →
            STORAGE (sink rc)
            = <[result_key (jobId message) := ResultBlob result]>
                (STORAGE (sink r0)) →
            dispositions (sink rc) = dispositions (sink r0) →
            webhook_posts (sink rc)
            = webhook_posts (sink r0) ++ webhook_of message completed at_ None →
            @survives (C true) _
              (let* _ := Done (Fulfilled tt) in
               run (sync (act (dispose (jobId message) Ack)))) attempted rc)
    as Hdispose.
  { intros at_ rc Hic Hgc HSc HDc HWc. cbn [abind run survives].
    apply keeping_sync; [done |].
    intros ? -> _ _. cbn [act on_sink fst snd survives].
    intros ? -> _. unfold attempted, ended_well. cbn. split_and!.
    - by rewrite HDc.
    - by eexists.
    - eexists. split_and!; [by eapply written_later, Hw | done | by eexists].
    - by exists at_. }
  unfold Interleaved.notify_completed, webhook_of in *.
  destruct (truthy (webhookUrl message)) as [url|].
  - cbn [atry abind run survives].
    apply keeping_sync; [done |].
    intros ? -> Hic _.
    cbn [now on_sink fst snd atry abind run survives].
    apply keeping_await; [done |].
    intros ? -> Hid Hid'.
    set (post := mkWebhookPost _ _ _ _ _ _) in *.
    assert (@survives (C true) _
              (let* _ := Done (Fulfilled tt) in
               run (sync (act (dispose (jobId message) Ack)))) attempted
              (fetch_webhook webhook_delivers post
                 (mkRun (tick (sink rb)) (calls rb))).1) as Hrest.
    { apply (Hdispose (toISOString (clock (sink rb)))).
      - done.
      - done.
      - cbn. by rewrite HSb, HS.
      - cbn. by rewrite HDb, HD.
      - cbn. by rewrite HWb, HW. }
    destruct (fetch_webhook webhook_delivers post _) as [rf [[] | msg]];
      exact Hrest.
  - apply (Hdispose ""); [done | done | by rewrite HSb, HS
                          | by rewrite HDb, HD |].
    by rewrite app_nil_r, HWb, HW.
Qed.

(** The handler of a message holds when it is entered. *)
Lemma delivery_holds :
  @holds (C false) _
    (Interleaved.process_message provider toISOString webhook_delivers
       JSON_stringify message)
    (ended_alone message r0) (ended_beside provider message r0) r0.
Proof.
  unfold Interleaved.process_message.
  pose proof (invariant_at_entry false) as Hi0.
  pose proof nothing_failed_yet as Hn0.
  apply holds_try with (Q1 := attempted) (Q1' := broken provider r0);
    try done; try apply (beside_order false).
  - (* the [try] block *)
    unfold Interleaved.attempt. cbn zeta. cbn [abind run holds].
    apply alone_thread; [| done | done].
    apply keeping_sync; [done |].
    intros ? -> _ [Hia Hna]%invariant_alone.
    cbn [now on_sink fst snd abind holds].
    apply alone_thread; [| done | done].
    apply updateJobStatus_first; [done | done |].
    intros rb Hbb [Hib Hnb]%invariant_alone Hbegun.
    assert (untouched r0 rb) as Hun.
    { destruct Hbb as (_ & ? & ? & ?). by split_and!. }
    cbn [abind holds].
    apply alone_thread; [| done | done].
    apply keeping_await; [done |].
    intros ? -> _ [Hic Hnc]%invariant_alone.
    cbn [r2_get on_sink fst snd abind holds].
    apply alone_thread; [| done | done].
    apply keeping_await; [done |].
    intros ? -> _ [Hid Hnd]%invariant_alone.
    cbn [r2_get on_sink fst snd abind holds sink calls].
    set (rd := mkRun (sink rb) (calls rb)) in *.
    assert (begun r0 rd ∧ untouched r0 rd) as [Hbd Hud] by done.
    destruct (STORAGE (sink rb) !! documentKey message) as [documentObj|];
      [| by cbn [holds]].
    destruct (STORAGE (sink rb) !! configKey message) as [configObj|];
      [| by cbn [holds]].
    cbn [abind run holds].
    apply alone_thread; [| done | done].
    apply keeping_sync; [by destruct configObj |].
    intros ? -> _ [Hie Hne]%invariant_alone.
    destruct configObj as [text | config | result];
      cbn [blob_config ret throw fst snd abind holds]; try done.
    apply holds_bind with (Q1 := steady r0) (Q1' := broken provider r0);
      try done; try apply (beside_order false).
    + by apply review_holds.
    + (* the rest of the block, alone *)
      intros result r Hi Hn [Hbr Hur].
      edestruct (completion_survives result) as [Hno Hs];
        [reflexivity | exact Hbr | exact Hur |].
      by apply alone_handler.
  - (* the block has ended alone and well *)
    intros [] r _ _ Hw. split; [done | by left].
  - (* the [catch] block, alone *)
    intros e r Hi Hn [Hbr Hur].
    apply alone_handler; [| done | done | apply no_stage_on_failure].
    apply on_failure_survives; [done | done |].
    intros r' _ _ Hf. split; [done |]. right. by exists e.
  - (* the [catch] block, beside the callbacks left *)
    intros e r Hi (He & Hbr & Hur).
    apply on_failure_survives; [done | done |].
    intros r' Hg _ Hf. split; [done |]. exists e. split; [| done].
    by eapply failed_call_stays.
Qed.

(** After every schedule: the invariant holds, and a handler that has
    returned has ended alone, with no call failed and no callback left, or
    beside callbacks, as failed with the message of a failed call. *)
Lemma delivery_after_every_schedule schedule :
  delivery_invariant toISOString message r0
    (state (interleaved_delivery provider toISOString webhook_delivers
              JSON_stringify message r0 schedule))
  ∧ ∀ o,
      main (interleaved_delivery provider toISOString webhook_delivers
              JSON_stringify message r0 schedule) = Done o →
      (¬ (∃ e, failed_call e
                 (state (interleaved_delivery provider toISOString
                           webhook_delivers JSON_stringify message r0
                           schedule)))
       ∧ leftovers (interleaved_delivery provider toISOString
                      webhook_delivers JSON_stringify message r0 schedule)
         = []
       ∧ ended_alone message r0
           (state (interleaved_delivery provider toISOString
                     webhook_delivers JSON_stringify message r0 schedule)) o)
      ∨ ended_beside provider message r0
          (state (interleaved_delivery provider toISOString webhook_delivers
                    JSON_stringify message r0 schedule)) o.
Proof.
  unfold interleaved_delivery.
  destruct (holds_after_every_schedule (conditions := C false)
              goes_on_order (beside_order false) (beside_goes_on false)
              failed_call_stays
              (Interleaved.process_message provider toISOString
                 webhook_delivers JSON_stringify message)
              (ended_alone message r0) (ended_beside provider message r0)
              r0 schedule delivery_holds nothing_failed_yet
              (invariant_at_entry false))
    as ([Hi _] & _ & Hdone).
  split; [done |]. exact Hdone.
Qed.


End DeliveryFacts.

(** * The claims about the status record under interleaving *)





(** A redelivery in the interleaved model: the record of the failed example
    job is first put back to [processing]. *)
Example interleaved_redelivery_reopens_failed_job :
  status <$> JOBS (sink ex_first_attempt) !! job_key "job-1" = Some failed
  ∧ status
      <$> JOBS
            (sink (state (interleaved_delivery provider_down ex_clock
                            ex_webhooks ex_stringify ex_message
                            ex_first_attempt [Handler; Handler])))
          !! job_key "job-1"
    = Some processing.
Proof. split; vm_compute; reflexivity. Qed.

(** * Creation times *)

Section Stamps.

Variable is_url : string → bool.
Variable toISOString : nat → string.

Hypothesis stamps_not_empty : ∀ n, toISOString n ≠ "".

Lemma stamped_same_records w w' :
  JOBS w' = JOBS w → stamped w → stamped w'.
Proof. unfold stamped. by intros ->. Qed.

Lemma updateJobStatus_stamped jobId st extra w :
  p_created_at extra = None → stamped w →
  stamped (updateJobStatus toISOString jobId st extra w).
Proof.
  intros Hx Hs k v.
  destruct (updateJobStatus_spec toISOString jobId st extra w) as (-> & _).
  destruct (decide (k = job_key jobId)) as [-> | Hne].
  - rewrite lookup_insert_eq. intros [= <-].
    apply (merged_created_at toISOString); [done | done | by eexists].
  - rewrite lookup_insert_ne by done. apply Hs.
Qed.

(** A delivery in the sequential model keeps the records stamped. *)
Lemma process_message_stamped provider latency webhook_delivers
    JSON_stringify message r :
  stamped (sink r) →
  stamped (sink (process_message provider latency toISOString
                   webhook_delivers JSON_stringify message r).1).
Proof.
  intros Hs.
  assert (stamped (started toISOString message (sink r))) as Hstarted.
  { unfold started. apply updateJobStatus_stamped; [done |].
    by eapply stamped_same_records, Hs. }
  assert (∀ e w, stamped w →
            stamped (gave_up toISOString webhook_delivers message e w))
    as Hgave.
  { intros e w Hw. unfold gave_up. rewrite notify_failed_eq. cbn [fst sink].
    pose proof (updateJobStatus_stamped (jobId message) failed
                  (mkPartial None None None None None
                     (Some (toISOString (clock w))) (Some e) None None)
                  (tick w) eq_refl
                  (stamped_same_records w (tick w) eq_refl Hw)) as Hput.
    eapply stamped_same_records; [| exact Hput].
    by destruct (truthy _). }
  assert (∀ res w, stamped w →
            stamped (finished toISOString webhook_delivers message res w))
    as Hfinished.
  { intros res w Hw. unfold finished. rewrite notify_completed_eq.
    cbn [fst sink].
    set (w1 := r2_put (result_key (jobId message)) (ResultBlob res) (tick w)).
    pose proof (updateJobStatus_stamped (jobId message) completed
                  (mkPartial None None None None
                     (Some (toISOString (clock w1))) None None None None)
                  (tick w1) eq_refl
                  (stamped_same_records w (tick w1) eq_refl Hw)) as Hput.
    eapply stamped_same_records; [| exact Hput].
    by destruct (truthy _). }
  assert (∀ config documentText rf o,
            reviewDocument provider latency config documentText
              (Some (progressCallback (jobId message)))
              (mkRun (started toISOString message (sink r)) (calls r))
            = (rf, o) →
            stamped (sink rf)) as Hreview.
  { intros config documentText rf o Hrev.
    apply review_frame in Hrev as (_ & _ & _ & _ & _ & Hother & Hsame).
    intros k v Hv. destruct (decide (k = job_key (jobId message))) as [-> | Hne].
    - destruct (JOBS (started toISOString message (sink r))
                  !! job_key (jobId message)) as [e|] eqn:He.
      + destruct (Hsame e eq_refl) as (e' & He' & Hsb).
        rewrite He' in Hv. injection Hv as <-.
        destruct Hsb as (_ & _ & -> & _). by apply (Hstarted _ _ He).
      + destruct (started_spec toISOString message (sink r)) as (SJ & _).
        rewrite SJ, lookup_insert_eq in He. done.
    - rewrite Hother in Hv by done. by apply (Hstarted _ _ Hv). }
  destruct (delivery_cases provider latency toISOString webhook_delivers
              JSON_stringify message r)
    as [(e & -> & _) | [(d & config & rf & e & _ & _ & Hrev & ->)
                       | (d & config & rf & res & _ & _ & Hrev & ->)]];
    cbn [fst sink].
  - by apply Hgave.
  - by eapply Hgave, Hreview.
  - by eapply Hfinished, Hreview.
Qed.

(** Every world that can be reached has its records stamped. *)
Lemma reachable_stamped w : reachable is_url toISOString w → stamped w.
Proof.
  induction 1 as [| w body uuid _ IH
                  | w provider latency webhook_delivers JSON_stringify
                      message log _ IH
                  | w provider webhook_delivers JSON_stringify message log
                      schedule _ IH
                  | w jobId _ IH].
  - intros k u Hu. cbn in Hu. by rewrite lookup_empty in Hu.
  - unfold post_review. destruct body as [text | body]; [done |].
    destruct (reviewRequestSchema is_url body) as [issues | validated];
      [done |].
    cbn [fst]. unfold queue_send, kv_put, r2_put, tick, stamped.
    cbn [JOBS].
    intros k u. destruct (decide (k = job_key uuid)) as [-> | Hne].
    + rewrite lookup_insert_eq. intros [= <-]. cbn. apply stamps_not_empty.
    + rewrite lookup_insert_ne by done. apply IH.
  - by apply process_message_stamped.
  - destruct (delivery_after_every_schedule provider toISOString
                webhook_delivers JSON_stringify message (mkRun w log)
                schedule) as [(_ & _ & _ & _ & Hst) _].
    by apply Hst.
  - cbn [fst delete_job]. unfold r2_delete, kv_delete, stamped. cbn [JOBS].
    intros k u Hu. apply lookup_delete_Some in Hu as [_ Hu].
    by apply (IH k u).
Qed.

End Stamps.

(** C9.  [updateJobStatus] merges the new fields over the existing record
    and never clears an old field: every optional field of the written
    record is the one given in [extra] if there is one and the one of the
    existing record otherwise.  So marking a job completed leaves [error],
    [failed_at], [progress], [started_at] and [webhook_url] of an earlier
    attempt in place, beside the status [completed] and [completed_at].
    [created_at] of the existing record is always kept: in every world that
    submissions, deliveries (in the sequential model, and under every
    schedule of the interleaved one) and deletions can reach, every record
    has a creation time that is not empty, as the time stamps of the clock
    are not, so the fallback to the current time is never taken for an
    existing record. *)
Theorem updateJobStatus_merges_over_existing
    (is_url : string → bool) (toISOString : nat → string) (jobId : string)
    (st : Status) (extra : PartialJobStatus) (w : World) (e : JobStatus) :
  (∀ n, toISOString n ≠ "") →
  reachable is_url toISOString w →
  JOBS w !! job_key jobId = Some e →
  (∃ u,
     JOBS (updateJobStatus toISOString jobId st extra w) !! job_key jobId
     = Some u ∧
     status u = default st (p_status extra) ∧
     started_at u = over (p_started_at extra) (started_at e) ∧
     completed_at u = over (p_completed_at extra) (completed_at e) ∧
     failed_at u = over (p_failed_at extra) (failed_at e) ∧
     error u = over (p_error extra) (error e) ∧
     webhook_url u = over (p_webhook_url extra) (webhook_url e) ∧
     progress u = over (p_progress extra) (progress e) ∧
     (p_created_at extra = None → created_at u = created_at e))
  ∧ (∀ completedAt,
       ∃ u,
         JOBS
           (updateJobStatus toISOString jobId completed
              (mkPartial None None None None (Some completedAt) None None
                 None None) w) !! job_key jobId
         = Some u ∧
         status u = completed ∧ completed_at u = Some completedAt ∧
         error u = error e ∧ failed_at u = failed_at e ∧
         progress u = progress e ∧ started_at u = started_at e ∧
         webhook_url u = webhook_url e ∧
         created_at u = created_at e)
  ∧ created_at e ≠ "".
Proof.
  intros Hiso Hreach He.
  pose proof (reachable_stamped is_url toISOString Hiso w Hreach _ _ He)
    as Hne.
  assert (∀ st' extra',
    JOBS (updateJobStatus toISOString jobId st' extra' w) !! job_key jobId
    = Some (merged_status (Some e) jobId st' (toISOString (clock w)) extra'))
    as Hput.
  { intros st' extra'.
    destruct (updateJobStatus_spec toISOString jobId st' extra' w) as (HJ & _).
    rewrite HJ, He. apply lookup_insert_eq. }
  split_and!; [| | done].
  - eexists. split; [apply Hput |]. cbn. split_and!; try done.
    intros ->. cbn. by destruct (created_at e).
  - intros completedAt. eexists. split; [apply Hput |]. cbn.
    split_and!; try done. by destruct (created_at e).
Qed.

Lemma updateJobStatus_merges_over_existing_witness :
  (∃ u,
     JOBS (updateJobStatus ex_clock "job-1" completed no_extra
             (sink ex_first_attempt)) !! job_key "job-1" = Some u ∧
     status u = default completed (p_status no_extra) ∧
     started_at u
     = over (p_started_at no_extra) (started_at ex_first_attempt_record) ∧
     completed_at u
     = over (p_completed_at no_extra) (completed_at ex_first_attempt_record) ∧
     failed_at u = over (p_failed_at no_extra) (failed_at ex_first_attempt_record) ∧
     error u = over (p_error no_extra) (error ex_first_attempt_record) ∧
     webhook_url u
     = over (p_webhook_url no_extra) (webhook_url ex_first_attempt_record) ∧
     progress u = over (p_progress no_extra) (progress ex_first_attempt_record) ∧
     (p_created_at no_extra = None →
      created_at u = created_at ex_first_attempt_record))
  ∧ (∀ completedAt,
       ∃ u,
         JOBS
           (updateJobStatus ex_clock "job-1" completed
              (mkPartial None None None None (Some completedAt) None None
                 None None) (sink ex_first_attempt)) !! job_key "job-1"
         = Some u ∧
         status u = completed ∧ completed_at u = Some completedAt ∧
         error u = error ex_first_attempt_record ∧
         failed_at u = failed_at ex_first_attempt_record ∧
         progress u = progress ex_first_attempt_record ∧
         started_at u = started_at ex_first_attempt_record ∧
         webhook_url u = webhook_url ex_first_attempt_record ∧
         created_at u = created_at ex_first_attempt_record)
  ∧ created_at ex_first_attempt_record ≠ "".
Proof.
  apply (updateJobStatus_merges_over_existing ex_is_url ex_clock "job-1"
           completed no_extra (sink ex_first_attempt) ex_first_attempt_record).
  - intros n. discriminate.
  - apply reach_delivery, reach_submission, reach_empty.
  - vm_compute. reflexivity.
Defined.

(** * The batch handler and the webhook under interleaving *)

(** X12.  As long as no operation on the KV namespace or on the R2 bucket
    fails (the stores of the model are total maps; in the code a rejection
    of the KV write of the [catch] block would leave [queue]), the batch
    handler does not throw, whatever happens to the jobs, their generation
    calls and their webhooks.  In the sequential model it settles every
    message of the batch exactly once, in the order of the batch: each
    message is either acknowledged or given back for a retry, and a failed
    job does not keep the later messages from being processed.  In the
    interleaved model, under every schedule of the callbacks, the handler of
    a message, once it has returned, has returned normally and has settled
    the message exactly once. *)
Theorem queue_settles_every_message
    (provider : nat → Provider → string → string → Q → ProviderReply)
    (latency : nat → nat → nat) (toISOString : nat → string)
    (webhook_delivers : nat → string → bool)
    (JSON_stringify : Blob → string) :
  (∀ (batch : list QueueMessage) (r : Run World),
     (queue provider latency toISOString webhook_delivers JSON_stringify
        batch r).2
     = Fulfilled tt
     ∧ ∃ settled,
         dispositions
           (sink (queue provider latency toISOString webhook_delivers
                    JSON_stringify batch r).1)
         = dispositions (sink r) ++ settled
         ∧ settled.*1 = jobId <$> batch)
  ∧ (∀ (message : QueueMessage) (r0 : Run World) (schedule : list Choice)
       (o : Outcome unit),
       main (interleaved_delivery provider toISOString webhook_delivers
               JSON_stringify message r0 schedule) = Done o →
       o = Fulfilled tt
       ∧ ∃ d,
           dispositions
             (sink (state (interleaved_delivery provider toISOString
                             webhook_delivers JSON_stringify message r0
                             schedule)))
           = dispositions (sink r0) ++ [(jobId message, d)]).
Proof.
  split; [intros batch r; apply queue_settles_sequential |].
  intros message r0 schedule o Ho.
  destruct (delivery_after_every_schedule provider toISOString
              webhook_delivers JSON_stringify message r0 schedule)
    as [_ Hend].
  destruct (Hend o Ho)
    as [(_ & _ & -> & [Hw | [e Hf]]) | (-> & e & _ & Hf)];
    (split; [done |]).
  - destruct Hw as (Hd & _). by exists Ack.
  - destruct Hf as (Hd & _). by exists Retry.
  - destruct Hf as (Hd & _). by exists Retry.
Qed.

(** X13.  A delivery calls the webhook at most once: not at all when the
    message carries no URL (or an empty one), and otherwise once, with the
    job id and the status that goes with the way the message is settled:
    completed, with the address of the result, when the message is
    acknowledged; failed, when it is given back for a retry, with the error
    message that the delivery has written into a failed status record (which
    need not be the record the store is left with).  This holds in the
    sequential model and, once the handler has returned, under every
    schedule of the interleaved model.  In the sequential model, whether
    the call goes through changes nothing: the delivery ends in the same
    state and with the same outcome. *)
Theorem webhook_called_once_per_delivery
    (provider : nat → Provider → string → string → Q → ProviderReply)
    (latency : nat → nat → nat) (toISOString : nat → string)
    (webhook_delivers : nat → string → bool)
    (JSON_stringify : Blob → string) (message : QueueMessage) :
  (∀ r : Run World,
     (∃ st at_ err d,
        webhook_posts
          (sink (process_message provider latency toISOString
                   webhook_delivers JSON_stringify message r).1)
        = webhook_posts (sink r) ++ webhook_of message st at_ err ∧
        dispositions
          (sink (process_message provider latency toISOString
                   webhook_delivers JSON_stringify message r).1)
        = dispositions (sink r) ++ [(jobId message, d)] ∧
        ((st = completed ∧ err = None ∧ d = Ack)
         ∨ (st = failed ∧ d = Retry ∧
            ∃ e u, err = Some e ∧
                   (job_key (jobId message), u)
                     ∈ kv_history
                         (sink (process_message provider latency toISOString
                                  webhook_delivers JSON_stringify message
                                  r).1) ∧
                   status u = failed ∧ error u = Some e)))
     ∧ ∀ webhook_delivers' : nat → string → bool,
         process_message provider latency toISOString webhook_delivers'
           JSON_stringify message r
         = process_message provider latency toISOString webhook_delivers
             JSON_stringify message r)
  ∧ (∀ (r0 : Run World) (schedule : list Choice) (o : Outcome unit),
       main (interleaved_delivery provider toISOString webhook_delivers
               JSON_stringify message r0 schedule) = Done o →
       ∃ st at_ err d,
         webhook_posts
           (sink (state (interleaved_delivery provider toISOString
                           webhook_delivers JSON_stringify message r0
                           schedule)))
         = webhook_posts (sink r0) ++ webhook_of message st at_ err ∧
         dispositions
           (sink (state (interleaved_delivery provider toISOString
                           webhook_delivers JSON_stringify message r0
                           schedule)))
         = dispositions (sink r0) ++ [(jobId message, d)] ∧
         ((st = completed ∧ err = None ∧ d = Ack)
          ∨ (st = failed ∧ d = Retry ∧
             ∃ e u, err = Some e ∧
                    (job_key (jobId message), u)
                      ∈ drop (length (kv_history (sink r0)))
                          (kv_history
                             (sink (state (interleaved_delivery provider
                                             toISOString webhook_delivers
                                             JSON_stringify message r0
                                             schedule)))) ∧
                    status u = failed ∧ error u = Some e))).
Proof.
  split; [intros r; apply webhook_once_sequential |].
  intros r0 schedule o Ho.
  destruct (delivery_after_every_schedule provider toISOString
              webhook_delivers JSON_stringify message r0 schedule)
    as [_ Hend].
  assert (∀ e r, ended_failed message e r0 r →
            ∃ st at_ err d,
              webhook_posts (sink r)
              = webhook_posts (sink r0) ++ webhook_of message st at_ err ∧
              dispositions (sink r)
              = dispositions (sink r0) ++ [(jobId message, d)] ∧
              ((st = completed ∧ err = None ∧ d = Ack)
               ∨ (st = failed ∧ d = Retry ∧
                  ∃ e u, err = Some e ∧
                         (job_key (jobId message), u)
                           ∈ drop (length (kv_history (sink r0)))
                               (kv_history (sink r)) ∧
                         status u = failed ∧ error u = Some e))) as Hfailed.
  { intros e r (Hd & _ & (u & Hu & Hst & Herr & _) & at_ & Hp).
    exists failed, at_, (Some e), Retry. split_and!; [done | done |].
    right. split_and!; [done | done |]. by exists e, u. }
  destruct (Hend o Ho)
    as [(_ & _ & _ & [Hw | [e Hf]]) | (_ & e & _ & Hf)].
  - destruct Hw as (Hd & _ & _ & at_ & Hp).
    exists completed, at_, None, Ack. split_and!; [done | done |]. by left.
  - by apply (Hfailed e).
  - by apply (Hfailed e).
Qed.
